(** * baseband: bit-level primitives of the VLBI payload layer

    A shallow embedding of [baseband/vlbi_base/utils.py] (BCD conversion,
    the CRC engine, frame-rate inference) and of
    [baseband/vdif/payload.py] (quantisation tables, the 2-bit codec and
    the [VDIFPayload] constructors), with the properties the specification
    states about them.

    Conventions.  Python integers are [Z]; a one-dimensional numpy array is
    a [list]; a Python exception is a constructor of a result type; a loop
    whose termination is not structural carries fuel, and every theorem
    about it shows that the fuel handed to it is enough. *)

From Stdlib Require Import ZArith Lia String Ascii.
From stdpp Require Import base option list gmap.

(** * Part I: the program *)

(** ** Integers as text: [str.format] and [int] *)

Module PyText.
Local Open Scope Z_scope.

(** Digits of [n], least significant first; empty for [n <= 0]. *)
Fixpoint digits_le (base : Z) (fuel : nat) (n : Z) : list Z :=
  match fuel with
  | O => []
  | S fuel' =>
      if 0 <? n then (n mod base) :: digits_le base fuel' (n / base) else []
  end.

(** Enough fuel for any base above one: every division at least halves. *)
Definition digit_fuel (n : Z) : nat := S (Z.to_nat (Z.log2 n)).

Definition digit_char (d : Z) : ascii :=
  nth (Z.to_nat d) (list_ascii_of_string "0123456789abcdef") "?"%char.

(** ['{:x}'.format(n)] for [base = 16], ['{:d}'.format(n)] for [base = 10]:
    a minus sign for a negative number, then the digits of the magnitude,
    most significant first, ["0"] for zero. *)
Definition format_int (base : Z) (n : Z) : string :=
  let mag := Z.abs n in
  let ds := if mag =? 0 then [0] else rev (digits_le base (digit_fuel mag) mag) in
  let body := string_of_list_ascii (map digit_char ds) in
  if n <? 0 then String "-"%char body else body.

(** Value of a character as a digit, as [int()] reads it. *)
Definition char_value (c : ascii) : option Z :=
  let k := Z.of_N (N_of_ascii c) in
  if (48 <=? k) && (k <=? 57) then Some (k - 48)
  else if (97 <=? k) && (k <=? 122) then Some (k - 87)
  else if (65 <=? k) && (k <=? 90) then Some (k - 55)
  else None.

Fixpoint parse_digits (base : Z) (acc : Z) (cs : list ascii) : option Z :=
  match cs with
  | [] => Some acc
  | c :: cs' =>
      match char_value c with
      | Some d => if d <? base then parse_digits base (acc * base + d) cs' else None
      | None => None
      end
  end.

(** [int(s, base)] on the strings [format_int] produces: an optional minus
    sign and at least one digit; [None] is Python's [ValueError]. *)
Definition py_int (base : Z) (s : string) : option Z :=
  match list_ascii_of_string s with
  | [] => None
  | c :: cs =>
      if Ascii.eqb c "-"%char
      then match cs with
           | [] => None
           | _ => Z.opp <$> parse_digits base 0 cs
           end
      else parse_digits base 0 (c :: cs)
  end.

(** [sum_k d_k * weight^k] over digits given least significant first. *)
Fixpoint reweigh (weight : Z) (ds : list Z) : Z :=
  match ds with
  | [] => 0
  | d :: ds' => d + weight * reweigh weight ds'
  end.

End PyText.

(** ** Packed decimal: [bcd_decode], [bcd_encode] *)

Module BCD.
Import PyText.
Local Open Scope Z_scope.

(** The argument of [bcd_decode] / [bcd_encode]: a Python integer, or a
    one-dimensional [np.ndarray] of integers. *)
Inductive value :=
| PyInt (v : Z)
| NDArray (a : list Z).

(** What a call does: it returns, or it raises
    [ValueError("Invalid BCD encoded value {0}={1}")], whose first format
    argument is kept as [offender]. *)
Inductive outcome (A : Type) :=
| Return (r : A)
| InvalidBCD (offender : Z).
Arguments Return {A} r.
Arguments InvalidBCD {A} offender.

(** *** The array loops *)

Definition np_any (p : Z -> bool) (a : list Z) : bool := existsb p a.

(** [value[digit > 9][0]] *)
Fixpoint first_where (p : Z -> bool) (value digit : list Z) : Z :=
  match value, digit with
  | v :: value', d :: digit' => if p d then v else first_where p value' digit'
  | _, _ => 0
  end.

(** The [while np.any(bcd > 0)] loop of [bcd_decode]; [None] when the fuel
    runs out before the loop condition fails. *)
Fixpoint decode_loop (fuel : nat) (value bcd : list Z) (factor : Z)
    (result : list Z) : option (outcome (list Z)) :=
  if np_any (fun x => 0 <? x) bcd then
    match fuel with
    | O => None
    | S fuel' =>
        let digit := map (fun x => x mod 16) bcd in
        let bcd' := map (fun x => x / 16) bcd in
        if np_any (fun d => 9 <? d) digit
        then Some (InvalidBCD (first_where (fun d => 9 <? d) value digit))
        else decode_loop fuel' value bcd' (factor * 10)
               (zip_with (fun r d => r + d * factor) result digit)
    end
  else Some (Return result).

(** The [while np.any(value > 0)] loop of [bcd_encode]; [result] starts as
    the Python integer [0] and becomes an array at the first addition.
    The sums are exact here.  numpy adds in the dtype of the array, so the
    loop is the source's as long as every partial sum, and the encoding
    itself, is a value of that dtype; this holds whenever the encoding of
    each element is bounded by a value of the array's dtype, as for the
    digit-wise reading of valid BCD values, which never exceeds them. *)
Fixpoint encode_loop (fuel : nat) (value : list Z) (factor : Z)
    (result : list Z) : option (list Z) :=
  if np_any (fun x => 0 <? x) value then
    match fuel with
    | O => None
    | S fuel' =>
        let digit := map (fun x => x mod 10) value in
        let value' := map (fun x => x / 10) value in
        encode_loop fuel' value' (factor * 16)
          (zip_with (fun r d => r + d * factor) result digit)
    end
  else Some result.

Definition array_fuel (a : list Z) : nat :=
  foldr (fun v acc => Nat.max (digit_fuel v) acc) O a.

(** [bcd_decode(value)].  A Python integer takes the [try] branch; an array
    makes the format call raise, and falls through to the loop. *)
Definition bcd_decode (value : value) : option (outcome BCD.value) :=
  match value with
  | PyInt v =>
      match py_int 10 (format_int 16 v) with
      | Some r => Some (Return (PyInt r))
      | None => Some (InvalidBCD v)
      end
  | NDArray a =>
      match decode_loop (array_fuel a) a a 1 (map (fun _ => 0) a) with
      | Some (Return r) => Some (Return (NDArray r))
      | Some (InvalidBCD x) => Some (InvalidBCD x)
      | None => None
      end
  end.

(** [bcd_encode(value)].  On an array without a positive element the loop
    body never runs and the integer [0] is returned. *)
Definition bcd_encode (value : value) : option BCD.value :=
  match value with
  | PyInt v =>
      match py_int 16 (format_int 10 v) with
      | Some r => Some (PyInt r)
      | None => None
      end
  | NDArray a =>
      if np_any (fun x => 0 <? x) a
      then NDArray <$> encode_loop (array_fuel a) a 1 (map (fun _ => 0) a)
      else Some (PyInt 0)
  end.

(** *** The digit-wise reading the specification gives *)

(** The [k]-th 4-bit group of [v]. *)
Definition nibble (k : Z) (v : Z) : Z := Z.land (Z.shiftr v (4 * k)) 15.

Definition valid_bcd (v : Z) : Prop := forall k, 0 <= k -> nibble k v <= 9.

(** The [k]-th digit of [v] in base [base], and the sum the specification
    writes: digit [d] at position [k] contributes [d * weight^k]. *)
Definition digit_at (base k v : Z) : Z := (v / base ^ k) mod base.

Definition digit_sum (digit : Z -> Z) (weight : Z) (n : nat) : Z :=
  foldr (fun k acc => digit (Z.of_nat k) * weight ^ Z.of_nat k + acc) 0 (seq 0 n).

Definition bcd_decode_ref (v : Z) : Z := reweigh 10 (digits_le 16 (digit_fuel v) v).
Definition bcd_encode_ref (v : Z) : Z := reweigh 16 (digits_le 10 (digit_fuel v) v).

(** Executable form of [valid_bcd] for a non-negative [v]. *)
Definition valid_bcdb (v : Z) : bool :=
  forallb (fun d => d <=? 9) (digits_le 16 (digit_fuel v) v).

End BCD.

(** ** Cyclic redundancy check: class [CRC] *)

Module CRC.
Import PyText.
Local Open Scope Z_scope.

(** The dtype of a stream: [bool] for a single track, an unsigned integer
    of [bits] bits for [bits] parallel tracks.  [True] is 1, [False] is 0. *)
Inductive dtype :=
| np_bool
| np_uint (bits : N).

(** [x.astype(dt)] for an [int8] element [x]. *)
Definition astype (dt : dtype) (x : Z) : Z :=
  match dt with
  | np_bool => if x =? 0 then 0 else 1
  | np_uint bits => x mod 2 ^ Z.of_N bits
  end.

(** The values an array of dtype [dt] holds. *)
Definition in_dtype (dt : dtype) (x : Z) : Prop :=
  match dt with
  | np_bool => x = 0 \/ x = 1
  | np_uint bits => 0 <= x < 2 ^ Z.of_N bits
  end.

(** The instance: [self.polynomial], [self.pol_bin]. *)
Record crc := { polynomial : Z; pol_bin : list Z }.

(** [__init__]: [pol_bin] is [int(bit)] for every character of
    ['{:b}'.format(polynomial)]; [None] when an [int(bit)] raises (the
    minus sign of a negative polynomial). *)
Definition init (polynomial : Z) : option crc :=
  bits ← mapM (fun bit => py_int 10 (String bit EmptyString))
              (list_ascii_of_string (format_int 2 polynomial));
  Some {| polynomial := polynomial; pol_bin := bits |}.

(** [__len__] *)
Definition len (self : crc) : nat := (length (pol_bin self) - 1)%nat.

(** [stream[i:i+len(rhs)] ^= rhs] *)
Definition xor_window (stream : list Z) (i : nat) (rhs : list Z) : list Z :=
  take i stream
  ++ zip_with Z.lxor (take (length rhs) (drop i stream)) rhs
  ++ drop (i + length rhs) stream.

(** [stream[-n:]]: the last [n] elements, and the whole array for [n = 0],
    where the slice is [stream[0:]]. *)
Definition last_slice (n : nat) (stream : list Z) : list Z :=
  match n with
  | O => stream
  | S _ => drop (length stream - n) stream
  end.

(** One turn of the loop of [_crc]:
    [stream[i:i+pol_bin.size] ^= (pol_bin & stream[i])]. *)
Definition crc_step (pol : list Z) (stream : list Z) (i : nat) : list Z :=
  xor_window stream i (map (fun p => Z.land p (nth i stream 0)) pol).

(** [_crc]; [range(0, len(stream) - len(self))] is empty when the
    difference is not positive. *)
Definition _crc (dt : dtype) (self : crc) (stream : list Z) : list Z :=
  let pol := map (fun c => astype dt (- c)) (pol_bin self) in
  let stream' := foldl (crc_step pol) stream (seq 0 (length stream - len self)) in
  last_slice (len self) stream'.

(** [__call__] *)
Definition call (dt : dtype) (self : crc) (stream : list Z) : list Z :=
  _crc dt self (stream ++ replicate (len self) 0).

(** [check]; the copy is the argument itself, lists being values. *)
Definition check (dt : dtype) (self : crc) (stream : list Z) : bool :=
  forallb (fun x => x =? 0) (_crc dt self stream).

(** Track [t] of a multi-track stream, as a single-track stream. *)
Definition track (t : Z) (stream : list Z) : list Z :=
  map (fun x => Z.b2z (Z.testbit x t)) stream.

(** The number of bits of a value of the dtype. *)
Definition width (dt : dtype) : Z :=
  match dt with
  | np_bool => 1
  | np_uint bits => Z.of_N bits
  end.

End CRC.

(** ** Frame-rate inference: [get_frame_rate] *)

Module FrameRate.
Local Open Scope Z_scope.

(** What the scan reads of a header: [header['frame_nr']],
    [header.seconds], [header.payloadsize]. *)
Record header := { frame_nr : Z; seconds : Z; payloadsize : Z }.

Inductive exn :=
| AssertionError        (* [assert header['frame_nr'] == 0] *)
| ReadError             (* [header_class.fromfile(fh)] raised *)
| UnboundLocalError.    (* [max_frame] read before any assignment *)

(** The file handle: its position, and the warnings issued so far. *)
Record fh_state := { pos : Z; warned : list string }.

Inductive outcome (A : Type) :=
| Done (a : A) (s : fh_state)
| Raise (e : exn)
| OutOfFuel.
Arguments Done {A} a s.
Arguments Raise {A} e.
Arguments OutOfFuel {A}.

(** Computations on the file handle. *)
Definition M (A : Type) : Type := fh_state -> outcome A.

Definition ret {A} (a : A) : M A := fun s => Done a s.

Definition bind {A B} (k : A -> M B) (m : M A) : M B :=
  fun s => match m s with
           | Done a s' => k a s'
           | Raise e => Raise e
           | OutOfFuel => OutOfFuel
           end.

#[export] Instance M_ret : MRet M := @ret.
#[export] Instance M_bind : MBind M := @bind.

Definition raise {A} (e : exn) : M A := fun _ => Raise e.
Definition out_of_fuel {A} : M A := fun _ => OutOfFuel.

(** [fh.seek(n)] and [fh.seek(n, 1)] *)
Definition seek (n : Z) : M unit :=
  fun s => Done tt {| pos := n; warned := warned s |}.
Definition seek_cur (n : Z) : M unit :=
  fun s => Done tt {| pos := pos s + n; warned := warned s |}.

(** [warnings.warn(msg)] *)
Definition warn (msg : string) : M unit :=
  fun s => Done tt {| pos := pos s; warned := warned s ++ [msg] |}.

Section Scan.

(** [header_class.fromfile] on the file behind [fh]: at a position it
    yields the header found there and the position after it, or raises. *)
Variable fromfile : Z -> option (header * Z).

Definition read_header : M header :=
  fun s => match fromfile (pos s) with
           | Some (h, p) => Done h {| pos := p; warned := warned s |}
           | None => Raise ReadError
           end.

(** [while header['frame_nr'] == 0: ...] *)
Fixpoint skip_first (fuel : nat) (header : header) : M FrameRate.header :=
  if frame_nr header =? 0 then
    match fuel with
    | O => out_of_fuel
    | S fuel' =>
        seek_cur (payloadsize header) ;;
        header ← read_header;
        skip_first fuel' header
    end
  else ret header.

(** [while header['frame_nr'] > 0: ...]; [max_frame] is [None] until the
    body has run once. *)
Fixpoint count_frames (fuel : nat) (header : header) (max_frame : option Z)
    : M (FrameRate.header * option Z) :=
  if 0 <? frame_nr header then
    match fuel with
    | O => out_of_fuel
    | S fuel' =>
        let max_frame := Some (frame_nr header) in
        seek_cur (payloadsize header) ;;
        header ← read_header;
        count_frames fuel' header max_frame
    end
  else ret (header, max_frame).

Definition get_frame_rate (fuel : nat) : M Z :=
  seek 0 ;;
  header ← read_header;
  (if frame_nr header =? 0 then ret tt else raise AssertionError) ;;
  let sec0 := seconds header in
  header ← skip_first fuel header;
  r ← count_frames fuel header None;
  let '(header, max_frame) := r in
  (if seconds header =? sec0 + 1 then ret tt
   else warn "Header time changed by more than 1 second?") ;;
  match max_frame with
  | Some max_frame => ret (max_frame + 1)
  | None => raise UnboundLocalError
  end.

(** Reading frame after frame from position [p] yields the headers [hs]:
    each header is found where the payload of the one before ends. *)
Fixpoint frames_at (p : Z) (hs : list header) : Prop :=
  match hs with
  | [] => True
  | h :: hs' =>
      exists p', fromfile p = Some (h, p') /\ frames_at (p' + payloadsize h) hs'
  end.

End Scan.

(** The frame numbers of [hs] are [k], [k + 1], [k + 2], ... *)
Fixpoint counting_from (k : Z) (hs : list header) : Prop :=
  match hs with
  | [] => True
  | h :: hs' => frame_nr h = k /\ counting_from (k + 1) hs'
  end.

Definition time_warning : string := "Header time changed by more than 1 second?".

(** A synthetic file: headers of [header_size] bytes, each followed by
    its payload, laid out from position [p]. *)
Fixpoint layout (header_size : Z) (p : Z) (hs : list header) : gmap Z header :=
  match hs with
  | [] => ∅
  | h :: hs' =>
      <[p := h]> (layout header_size (p + header_size + payloadsize h) hs')
  end.

Definition fromfile_of (header_size : Z) (hs : list header) (p : Z)
    : option (header * Z) :=
  h ← layout header_size 0 hs !! p; Some (h, p + header_size).

Section Reading.

Variable fromfile : Z -> option (header * Z).

(** Reading the frames [hs] one after the other from position [p], each
    header and then its payload, leaves the handle at position [q]. *)
Fixpoint frames_upto (p : Z) (hs : list header) (q : Z) : Prop :=
  match hs with
  | [] => p = q
  | h :: hs' =>
      exists p', fromfile p = Some (h, p') /\ frames_upto (p' + payloadsize h) hs' q
  end.

End Reading.

(** Two interleaved threads: every frame number comes twice. *)
Definition two_thread_frames (sec : Z) : list header :=
  [ {| frame_nr := 0; seconds := 7; payloadsize := 32 |};
    {| frame_nr := 0; seconds := 7; payloadsize := 32 |};
    {| frame_nr := 1; seconds := 7; payloadsize := 32 |};
    {| frame_nr := 1; seconds := 7; payloadsize := 32 |};
    {| frame_nr := 2; seconds := 7; payloadsize := 32 |};
    {| frame_nr := 2; seconds := 7; payloadsize := 32 |};
    {| frame_nr := 0; seconds := sec; payloadsize := 32 |} ].

(** The frame number of the last header of [h :: hs]. *)
Definition last_frame_nr (h : header) (hs : list header) : Z :=
  frame_nr (default h (last hs)).

(** Three frames of second 7 and the first frame of second [sec]. *)
Definition sample_frames (sec : Z) : list header :=
  [ {| frame_nr := 0; seconds := 7; payloadsize := 32 |};
    {| frame_nr := 1; seconds := 7; payloadsize := 32 |};
    {| frame_nr := 2; seconds := 7; payloadsize := 32 |};
    {| frame_nr := 0; seconds := sec; payloadsize := 32 |} ].

End FrameRate.

(** ** VDIF payloads: [baseband/vdif/payload.py] *)

Module VDIF.
Local Open Scope Z_scope.

Inductive exn :=
| ValueError (msg : string)
| KeyError (key : Z)          (* a registry without the bit depth *)
| IndexError                  (* [data.shape[-1]] of a 0-dimensional array *)
| ImportFailed                (* [init_luts()] raised at import *)
| Collaborator.               (* raised inside code outside this module *)

Inductive result (A : Type) :=
| Ok (a : A)
| Err (e : exn).
Arguments Ok {A} a.
Arguments Err {A} e.

#[export] Instance result_ret : MRet result := @Ok.
#[export] Instance result_bind : MBind result :=
  fun A B (k : A -> result B) (m : result A) =>
    match m with
    | Ok a => k a
    | Err e => Err e
    end.

Definition of_option {A} (e : exn) (o : option A) : result A :=
  match o with
  | Some a => Ok a
  | None => Err e
  end.

(** An array of unsigned integers of [itemsize] bytes each. *)
Record uarray := { itemsize : nat; items : list Z }.

(** [np.arange(start, stop, step)] for a positive [step]. *)
Definition arange (start stop step : Z) : list Z :=
  map (fun k => start + step * Z.of_nat k)
      (seq 0 (Z.to_nat ((stop - start + step - 1) / step))).

(** [a.view(np.uint8)]: the bytes of every item, least significant first. *)
Definition le_bytes (n : nat) (w : Z) : list Z :=
  map (fun k => Z.land (Z.shiftr w (8 * Z.of_nat k)) 255) (seq 0 n).

Definition view_uint8 (a : uarray) : list Z :=
  items a ≫= le_bytes (itemsize a).

(** [values.reshape(-1, 4)] and [values.reshape(-1, 2)] of the flat
    buffer; [None] is numpy's [ValueError] for a size that does not divide. *)
Fixpoint reshape4 {A} (l : list A) : option (list (list A)) :=
  match l with
  | [] => Some []
  | a :: b :: c :: d :: l' => cons [a; b; c; d] <$> reshape4 l'
  | _ => None
  end.

Fixpoint reshape2 {A} (l : list A) : option (list (list A)) :=
  match l with
  | [] => Some []
  | a :: b :: l' => cons [a; b] <$> reshape2 l'
  | _ => None
  end.

(** [bytes.view(dtype_word)]: groups of [n] bytes, least significant
    first, as one word each. *)
Fixpoint le_word (bytes : list Z) : Z :=
  match bytes with
  | [] => 0
  | b :: bytes' => Z.lor b (Z.shiftl (le_word bytes') 8)
  end.

Fixpoint group_bytes (fuel n : nat) (bytes : list Z) : option (list Z) :=
  match bytes, fuel with
  | [], _ => Some []
  | _, O => None
  | _, S fuel' =>
      if (length bytes <? n)%nat then None
      else cons (le_word (take n bytes)) <$> group_bytes fuel' n (drop n bytes)
  end.

Definition view_words (n : nat) (a : uarray) : result uarray :=
  let bytes := view_uint8 a in
  match n with
  | O => Err (ValueError "view")
  | S _ =>
      words ← of_option (ValueError "view") (group_bytes (length bytes) n bytes);
      Ok {| itemsize := n; items := words |}
  end.

(** The header attributes the payload reads. *)
Record header := {
  h_nchan : Z;
  h_bps : Z;
  h_complex_data : bool;       (* [header['complex_data']] *)
  h_payloadsize : Z;
  h_edv : option Z
}.

(** The array handed to [fromdata]: its shape, whether its dtype kind is
    ['c'], and its buffer of real components in memory order (for complex
    data: real part, imaginary part, of every element in turn). *)
Record ndarray (Level : Type) := {
  shape : list Z;
  kind_c : bool;
  flat : list Level
}.
Arguments shape {Level} _.
Arguments kind_c {Level} _.
Arguments flat {Level} _.

Section Codec.

(** The type of a decoded level ([np.float32] in the library). *)
Context {Level : Type}.

(** Imported from [vlbi_base.encoding] and taken as parameters: the
    table of levels per bit depth, and the element-wise quantisers of the
    2-bit and the 4-bit encoders, which return the code of a value. *)
Variable decoder_levels : Z -> list Level.
Variable encode_2bit_base : Level -> Z.
Variable encode_4bit_base : Level -> Z.

Definition decoder := uarray -> result (list (list Level)).
Definition encoder := list Level -> result uarray.

Variable decode_8bit : decoder.
Variable encode_8bit : encoder.

(** [levels[index]] for an array of indices: every index has to be in
    range. *)
Definition fancy_index (levels : list Level) (index : list Z) : option (list Level) :=
  mapM (fun k => levels !! Z.to_nat k) index.

(** [levels[(b >> i) & mask]] for [b = np.arange(256)[:, np.newaxis]] *)
Definition lut (levels : list Level) (i : list Z) (mask : Z)
    : option (list (list Level)) :=
  mapM (fun b => fancy_index levels (map (fun i => Z.land (Z.shiftr b i) mask) i))
       (arange 0 256 1).

Definition init_luts : option (list (list Level) * list (list Level) * list (list Level)) :=
  lut1bit ← lut (decoder_levels 1) (arange 0 8 1) 1;
  lut2bit ← lut (decoder_levels 2) (arange 0 8 2) 3;
  lut4bit ← lut (decoder_levels 4) (arange 0 8 4) 15;
  Some (lut1bit, lut2bit, lut4bit).

(** [lut1bit, lut2bit, lut4bit = init_luts()] *)
Definition lut1bit : option (list (list Level)) := (fun t => t.1.1) <$> init_luts.
Definition lut2bit : option (list (list Level)) := (fun t => t.1.2) <$> init_luts.
Definition lut4bit : option (list (list Level)) := (fun t => t.2) <$> init_luts.

(** The [i]-th [n]-bit group of the byte [b], least significant group
    first. *)
Definition group (n i b : Z) : Z := Z.land (Z.shiftr b (n * i)) (2 ^ n - 1).

(** What the specification asks of the table of bit depth [n]: 256
    entries of [8/n] levels, the [i]-th level of entry [b] being the
    decoder level of the [i]-th group of [b]. *)
Definition table_of (n : Z) (table : list (list Level)) : Prop :=
  length table = 256%nat
  /\ forall (b : nat) (row : list Level),
       table !! b = Some row ->
       length row = Z.to_nat (8 / n)
       /\ forall i : nat,
            (i < Z.to_nat (8 / n))%nat ->
            is_Some (row !! i)
            /\ row !! i
               = decoder_levels n !! Z.to_nat (group n (Z.of_nat i) (Z.of_nat b)).

(** A level the 2-bit codec can represent: an entry of the 2-bit
    decoder levels, at one of the four codes. *)
Definition representable (v : Level) : Prop :=
  exists c : nat, (c < 4)%nat /\ decoder_levels 2 !! c = Some v.

(** The quantiser sends each of the four levels to its code. *)
Definition quantiser_inverts_levels : Prop :=
  forall (c : nat) (v : Level),
    (c < 4)%nat -> decoder_levels 2 !! c = Some v ->
    encode_2bit_base v = Z.of_nat c.

(** Codes packed into one number, the [i]-th code shifted left by
    [n * i] bits, counting from [i]. *)
Fixpoint pack_codes (n i : Z) (codes : list Z) : Z :=
  match codes with
  | [] => 0
  | c :: codes' => Z.lor (Z.shiftl c (n * i)) (pack_codes n (i + 1) codes')
  end.

(** [table.take(b, axis=0)] *)
Definition take_rows (table : list (list Level)) (b : list Z)
    : option (list (list Level)) :=
  mapM (fun x => table !! Z.to_nat x) b.

Definition decode_2bit : decoder := fun words =>
  table ← of_option ImportFailed lut2bit;
  of_option IndexError (take_rows table (view_uint8 words)).

Definition shift2bit : list Z := arange 0 8 2.

(** [bitvalues <<= shift] on a [uint8] array *)
Definition shl_uint8 (c shift : Z) : Z := Z.shiftl c shift mod 256.

Definition encode_2bit : encoder := fun values =>
  rows ← of_option (ValueError "reshape") (reshape4 values);
  Ok {| itemsize := 1;
        items := map (fun row =>
                        foldl Z.lor 0
                          (zip_with shl_uint8 (map encode_2bit_base row) shift2bit))
                     rows |}.

Definition decode_4bit : decoder := fun words =>
  table ← of_option ImportFailed lut4bit;
  of_option IndexError (take_rows table (view_uint8 words)).

Definition shift04 : list Z := [0; 4].

Definition encode_4bit : encoder := fun values =>
  rows ← of_option (ValueError "reshape") (reshape2 (map encode_4bit_base values));
  Ok {| itemsize := 1;
        items := map (fun b =>
                        let b := zip_with shl_uint8 b shift04 in
                        Z.lor (nth 0 b 0) (nth 1 b 0))
                     rows |}.

(** The class attributes [VDIFPayload._decoders] and
    [VDIFPayload._encoders]. *)
Definition _decoders : gmap Z decoder :=
  <[2 := decode_2bit]> (<[4 := decode_4bit]> (<[8 := decode_8bit]> ∅)).

Definition _encoders : gmap Z encoder :=
  <[2 := encode_2bit]> (<[4 := encode_4bit]> (<[8 := encode_8bit]> ∅)).

(** Imported from [mark5b] and [vlbi_base.payload] and taken as
    parameters: the registries of [Mark5BPayload], what
    [VLBIPayloadBase.__init__] leaves in the instance (given [self._size],
    the words, [bps], [sample_shape] and [complex_data]), and the size in
    bytes of [_dtype_word]. *)
Variable Mark5B_decoders : gmap Z decoder.
Variable Mark5B_encoders : gmap Z encoder.
Variable Base : Type.
Variable VLBIPayloadBase_init :
  option Z -> uarray -> Z -> list Z -> bool -> result Base.
Variable word_size : nat.

(** A [VDIFPayload] instance. *)
Record payload := {
  base : Base;
  nchan : Z;
  _size : option Z;
  decoders : gmap Z decoder;
  encoders : gmap Z encoder
}.

Definition Mark5B_complex : string := "VDIF/Mark5B payload cannot be complex.".

(** [VDIFPayload.__init__(self, words, header=None, nchan=1, bps=2,
    complex_data=False)]; a keyword that is not passed is [None] here and
    takes the default of the signature. *)
Definition __init__ (words : uarray) (header : option header)
    (nchan bps : option Z) (complex_data : option bool) : result payload :=
  let nchan := default 1 nchan in
  let bps := default 2 bps in
  let complex_data := default false complex_data in
  match header with
  | Some header =>
      let nchan := h_nchan header in
      let bps := h_bps header in
      let complex_data := h_complex_data header in
      let size := Some (h_payloadsize header) in
      if bool_decide (h_edv header = Some 171) then
        if complex_data then Err (ValueError Mark5B_complex)
        else
          base ← VLBIPayloadBase_init size words bps [nchan] complex_data;
          Ok {| base := base; nchan := nchan; _size := size;
                decoders := Mark5B_decoders; encoders := Mark5B_encoders |}
      else
        base ← VLBIPayloadBase_init size words bps [nchan] complex_data;
        Ok {| base := base; nchan := nchan; _size := size;
              decoders := _decoders; encoders := _encoders |}
  | None =>
      base ← VLBIPayloadBase_init None words bps [nchan] complex_data;
      Ok {| base := base; nchan := nchan; _size := None;
            decoders := _decoders; encoders := _encoders |}
  end.

(** [VDIFPayload.fromdata(cls, data, header=None, bps=2, edv=None)] *)
Definition fromdata (data : ndarray Level) (header : option header)
    (bps edv : option Z) : result payload :=
  let bps := default 2 bps in
  nchan ← of_option IndexError (last (shape data));
  let complex_data := kind_c data in
  '(bps, edv) ←
    match header with
    | Some header =>
        if negb (h_nchan header =? nchan) then Err (ValueError "channels")
        else if negb (eqb (h_complex_data header) complex_data)
             then Err (ValueError "complex or real")
             else Ok (h_bps header, h_edv header)
    | None => Ok (bps, edv)
    end;
  encoder ←
    (if bool_decide (edv = Some 171)
     then of_option (KeyError bps) (Mark5B_encoders !! bps)
     else of_option (KeyError bps) (_encoders !! bps));
  (* [data.view((data.real.dtype, (2,)))] leaves the buffer as it is *)
  bytes ← encoder (flat data);
  words ← view_words word_size bytes;
  __init__ words header (Some nchan) (Some bps) (Some complex_data).

End Codec.

(** A value of a [uint8] array. *)
Definition is_byte (b : Z) : Prop := 0 <= b < 256.

(** The groups of a byte shifted and ORed as [encode_2bit] and
    [encode_4bit] do with the codes of a row. *)
Definition regroup2 (b : Z) : Z :=
  foldl Z.lor 0
    (zip_with shl_uint8 [group 2 0 b; group 2 1 b; group 2 2 b; group 2 3 b] shift2bit).

Definition regroup4 (b : Z) : Z :=
  let r := zip_with shl_uint8 [group 4 0 b; group 4 1 b] shift04 in
  Z.lor (nth 0 r 0) (nth 1 r 0).

Section Depths.

Context {Level : Type}.
Variable decoder_levels : Z -> list Level.

(** A level of bit depth [n]: an entry of the decoder levels of that
    depth, at one of the [2^n] codes; and a quantiser that sends each of
    them to its code. *)
Definition representable_at (n : Z) (v : Level) : Prop :=
  exists c : nat, (c < Z.to_nat (2 ^ n))%nat /\ decoder_levels n !! c = Some v.

Definition quantiser_inverts (n : Z) (q : Level -> Z) : Prop :=
  forall (c : nat) (v : Level),
    (c < Z.to_nat (2 ^ n))%nat -> decoder_levels n !! c = Some v ->
    q v = Z.of_nat c.

End Depths.

(** The file handle of [fromfile]: the bytes of the file and the
    position. *)
Record file := { content : list Z; position : nat }.

(** [fh.read(n)]: at most [n] bytes, fewer at the end of the file; all
    that is left for a negative [n]. *)
Definition read (n : Z) (fh : file) : list Z * file :=
  let rest := drop (position fh) (content fh) in
  let s := if n <? 0 then rest else take (Z.to_nat n) rest in
  (s, {| content := content fh; position := position fh + length s |}).

Inductive file_result (A : Type) :=
| Read (a : A)
| EOFError
| Raised (e : exn).
Arguments Read {A} a.
Arguments EOFError {A}.
Arguments Raised {A} e.

Section File.

Context {Level : Type}.
Variable decoder_levels : Z -> list Level.
Variable encode_2bit_base : Level -> Z.
Variable encode_4bit_base : Level -> Z.
Variable decode_8bit : @decoder Level.
Variable encode_8bit : @encoder Level.
Variable Mark5B_decoders : gmap Z (@decoder Level).
Variable Mark5B_encoders : gmap Z (@encoder Level).
Variable Base : Type.
Variable VLBIPayloadBase_init :
  option Z -> uarray -> Z -> list Z -> bool -> result Base.
Variable word_size : nat.

(** [VDIFPayload.fromfile(cls, fh, header)];
    [np.fromstring(s, dtype=cls._dtype_word)] is the view of the bytes as
    words. *)
Definition fromfile (fh : file) (header : header)
    : file_result (@payload Level Base) * file :=
  let '(s, fh) := read (h_payloadsize header) fh in
  if Z.of_nat (length s) <? h_payloadsize header then (EOFError, fh)
  else
    match
      words ← view_words word_size {| itemsize := 1; items := s |};
      __init__ decoder_levels encode_2bit_base encode_4bit_base decode_8bit
        encode_8bit Mark5B_decoders Mark5B_encoders Base VLBIPayloadBase_init
        words (Some header) None None None
    with
    | Ok p => (Read p, fh)
    | Err e => (Raised e, fh)
    end.

End File.

End VDIF.

(** ** A concrete codec, for evaluating the parameters of [VDIF] *)

Module Sample.
Import VDIF.
Local Open Scope Z_scope.

(** Modelled from the spec: [decoder_levels] of [vlbi_base.encoding], as
    section 4.1 describes it: offset binary, the all-zero code the most
    negative level, the all-one code the most positive, monotone and
    symmetric about zero.  Levels are taken in units of half a step. *)
Definition decoder_levels (n : Z) : list Z :=
  if n =? 1 then [-1; 1]
  else if n =? 2 then [-3; -1; 1; 3]
  else if n =? 4 then map (fun k => 2 * k - 15) (arange 0 16 1)
  else [].

(** Modelled from the spec: the quantisers [encode_2bit_base] and
    [encode_4bit_base] of [vlbi_base.encoding], as section 4.2 describes
    them: round to the nearest level, clip to the representable range. *)
Definition clip (lo hi x : Z) : Z := Z.max lo (Z.min hi x).
Definition encode_2bit_base (v : Z) : Z := clip 0 3 ((v + 4) / 2).
Definition encode_4bit_base (v : Z) : Z := clip 0 15 ((v + 16) / 2).

(** Modelled from the spec: the 8-bit primitives [decode_8bit] and
    [encode_8bit] of [vlbi_base.encoding], one level per byte. *)
Definition decode_8bit : @decoder Z :=
  fun words => Ok (map (fun b => [b - 128]) (view_uint8 words)).
Definition encode_8bit : @encoder Z :=
  fun values => Ok {| itemsize := 1; items := map (fun v => clip 0 255 (v + 128)) values |}.

(** Modelled from the spec: the registries of [Mark5BPayload],
    the same bit-depth keys with another bit layout (here the groups of a
    byte in the opposite order). *)
Definition Mark5B_decoders : gmap Z (@decoder Z) :=
  <[2 := fun words =>
           rows ← decode_2bit decoder_levels words; Ok (map (@rev Z) rows)]> ∅.
Definition Mark5B_encoders : gmap Z (@encoder Z) :=
  <[2 := fun values =>
           rows ← of_option (ValueError "reshape") (reshape4 values);
           encode_2bit encode_2bit_base (concat (map (@rev Z) rows))]> ∅.

(** Modelled from the spec: [VLBIPayloadBase.__init__], which keeps the
    words and the layout, and refuses words whose size in bytes is not
    the declared payload size (section 3, Payload). *)
Record base := {
  words : uarray;
  bps : Z;
  sample_shape : list Z;
  complex_data : bool
}.

Definition VLBIPayloadBase_init (size : option Z) (words : uarray) (bps : Z)
    (sample_shape : list Z) (complex_data : bool) : result base :=
  let nbytes := Z.of_nat (length (items words) * itemsize words) in
  match size with
  | Some size =>
      if size =? nbytes
      then Ok {| words := words; bps := bps; sample_shape := sample_shape;
                 complex_data := complex_data |}
      else Err (ValueError "size")
  | None =>
      Ok {| words := words; bps := bps; sample_shape := sample_shape;
            complex_data := complex_data |}
  end.

(** The word dtype is four bytes wide. *)
Definition word_size : nat := 4.

(** Eight complex samples of one channel. *)
Definition complex_samples : ndarray Z :=
  {| shape := [8; 1]; kind_c := true;
     flat := [-3; 1; 3; -1; 1; 1; -3; 3; -1; -1; 3; 3; 1; -3; -3; 1] |}.

End Sample.

(** * Part II: properties *)

(** ** Integers as text *)

Module PyText_facts.
Import PyText.
Local Open Scope Z_scope.


Lemma pow2_S (f : nat) : 2 ^ Z.of_nat (S f) = 2 * 2 ^ Z.of_nat f.
Proof. rewrite Nat2Z.inj_succ, Z.pow_succ_r by lia. reflexivity. Qed.

Lemma lt_digit_fuel (n : Z) : n < 2 ^ Z.of_nat (digit_fuel n).
Proof.
  unfold digit_fuel. destruct (Z_lt_le_dec 0 n) as [Hn|Hn].
  - rewrite Nat2Z.inj_succ, Z2Nat.id by apply Z.log2_nonneg.
    apply Z.log2_spec. exact Hn.
  - assert (0 < 2 ^ Z.of_nat (S (Z.to_nat (Z.log2 n)))) by (apply Z.pow_pos_nonneg; lia).
    lia.
Qed.

Lemma div_lt_pow2 (base n : Z) (f : nat) :
  2 <= base -> 0 < n -> n < 2 ^ Z.of_nat (S f) -> n / base < 2 ^ Z.of_nat f.
Proof.
  intros Hb Hn Hlt. rewrite pow2_S in Hlt.
  apply Z.div_lt_upper_bound; [lia|].
  assert (0 < 2 ^ Z.of_nat f) by (apply Z.pow_pos_nonneg; lia). nia.
Qed.

(** The digits do not depend on the fuel once it covers the number. *)
Lemma digits_le_fuel (base : Z) (f1 f2 : nat) (n : Z) :
  2 <= base -> n < 2 ^ Z.of_nat f1 -> n < 2 ^ Z.of_nat f2 ->
  digits_le base f1 n = digits_le base f2 n.
Proof.
  intros Hb. revert f2 n. induction f1 as [|f1 IH]; intros f2 n H1 H2.
  - simpl in H1. destruct f2 as [|f2]; [reflexivity|]. simpl.
    destruct (Z.ltb_spec 0 n); [lia|reflexivity].
  - destruct f2 as [|f2]; simpl.
    + simpl in H2. destruct (Z.ltb_spec 0 n); [lia|reflexivity].
    + destruct (Z.ltb_spec 0 n) as [Hn|Hn]; [|reflexivity].
      f_equal. apply IH; apply div_lt_pow2; assumption.
Qed.

Lemma digits_le_S (base : Z) (f : nat) (n : Z) :
  digits_le base (S f) n
  = if 0 <? n then n mod base :: digits_le base f (n / base) else [].
Proof. reflexivity. Qed.

Lemma digits_le_step (base n : Z) :
  2 <= base -> 0 < n ->
  digits_le base (digit_fuel n) n
  = n mod base :: digits_le base (digit_fuel (n / base)) (n / base).
Proof.
  intros Hb Hn. unfold digit_fuel at 1. rewrite digits_le_S.
  destruct (Z.ltb_spec 0 n); [|lia]. f_equal.
  apply digits_le_fuel; [assumption| |apply lt_digit_fuel].
  apply div_lt_pow2; [assumption..|]. apply (lt_digit_fuel n).
Qed.

Lemma digits_le_nonpos (base n : Z) (f : nat) : n <= 0 -> digits_le base f n = [].
Proof. intros Hn. destruct f; simpl; [reflexivity|]. destruct (Z.ltb_spec 0 n); [lia|reflexivity]. Qed.

Lemma digits_le_range (base : Z) (f : nat) (n : Z) :
  0 < base -> Forall (fun d => 0 <= d < base) (digits_le base f n).
Proof.
  intros Hb. revert n. induction f as [|f IH]; intros n; simpl; [constructor|].
  destruct (0 <? n); constructor; [apply Z.mod_pos_bound; lia|apply IH].
Qed.

(** *** Formatting then parsing *)

Lemma char_value_digit_char (d : Z) :
  0 <= d < 16 -> char_value (digit_char d) = Some d.
Proof.
  intros Hd. rewrite <- (Z2Nat.id d) at 2 by lia. unfold digit_char.
  assert (Z.to_nat d < 16)%nat as Hn by lia.
  revert Hn. generalize (Z.to_nat d). clear. intros n Hn.
  do 16 (destruct n as [|n]; [reflexivity|]). lia.
Qed.

Lemma digit_char_not_minus (d : Z) :
  0 <= d < 16 -> Ascii.eqb (digit_char d) "-"%char = false.
Proof.
  intros Hd. unfold digit_char.
  assert (Z.to_nat d < 16)%nat as Hn by lia.
  revert Hn. generalize (Z.to_nat d). clear. intros n Hn.
  do 16 (destruct n as [|n]; [reflexivity|]). lia.
Qed.

Lemma parse_digits_map (base acc : Z) (ds : list Z) :
  Forall (fun d => 0 <= d < 16) ds ->
  parse_digits base acc (map digit_char ds)
  = if forallb (fun d => d <? base) ds
    then Some (fold_left (fun a d => a * base + d) ds acc) else None.
Proof.
  intros Hds. revert acc. induction Hds as [|d ds Hd _ IH]; intros acc; simpl.
  - reflexivity.
  - rewrite char_value_digit_char by assumption.
    destruct (d <? base); simpl; [apply IH|reflexivity].
Qed.

Lemma fold_left_rev_reweigh (base : Z) (ds : list Z) :
  fold_left (fun a d => a * base + d) (rev ds) 0 = reweigh base ds.
Proof.
  induction ds as [|d ds IH]; simpl; [reflexivity|].
  rewrite fold_left_app. simpl. rewrite IH. ring.
Qed.

Lemma forallb_rev {A} (p : A -> bool) (l : list A) : forallb p (rev l) = forallb p l.
Proof.
  induction l as [|x l IH]; simpl; [reflexivity|].
  rewrite forallb_app, IH. simpl. rewrite andb_true_r. apply andb_comm.
Qed.

Lemma Forall_rev_range (ds : list Z) :
  Forall (fun d => 0 <= d < 16) ds -> Forall (fun d => 0 <= d < 16) (rev ds).
Proof.
  rewrite !Forall_forall. intros H d Hd. apply H.
  apply list_elem_of_In, in_rev, list_elem_of_In. exact Hd.
Qed.

(** [int(format(v), pb)] for a non-negative [v] written in base [fb]: the
    digits are read back in base [pb], and the call raises when one of
    them is not a digit of base [pb]. *)
Lemma py_int_format (pb fb v : Z) :
  0 <= v -> 2 <= fb <= 16 -> 0 < pb ->
  py_int pb (format_int fb v)
  = if forallb (fun d => d <? pb) (digits_le fb (digit_fuel v) v)
    then Some (reweigh pb (digits_le fb (digit_fuel v) v)) else None.
Proof.
  intros Hv Hfb Hpb. unfold format_int, py_int.
  destruct (Z.ltb_spec v 0) as [?|_]; [lia|].
  rewrite list_ascii_of_string_of_list_ascii, Z.abs_eq by lia.
  destruct (Z.eqb_spec v 0) as [->|Hne].
  - change (parse_digits pb 0 (map digit_char [0]) = Some 0).
    rewrite parse_digits_map by (repeat constructor; lia).
    simpl. destruct (Z.ltb_spec 0 pb); [reflexivity|lia].
  - cbv iota.
    assert (Forall (fun d => 0 <= d < 16) (digits_le fb (digit_fuel v) v)) as Hr.
    { eapply Forall_impl; [apply digits_le_range; lia|]. simpl. intros; lia. }
    apply Forall_rev_range in Hr.
    rewrite <- (forallb_rev _ (digits_le _ _ _)), <- fold_left_rev_reweigh.
    rewrite <- parse_digits_map by exact Hr.
    destruct (rev (digits_le fb (digit_fuel v) v)) as [|d ds] eqn:E.
    + apply (f_equal (@rev Z)) in E. rewrite rev_involutive in E.
      rewrite digits_le_step in E by lia. discriminate E.
    + cbn [map]. rewrite digit_char_not_minus; [reflexivity|].
      inversion Hr; assumption.
Qed.

End PyText_facts.

(** ** Packed decimal *)

Module BCD_facts.
Import PyText PyText_facts BCD.
Local Open Scope Z_scope.

Lemma bcd_decode_ref_step (v : Z) :
  0 <= v -> bcd_decode_ref v = v mod 16 + 10 * bcd_decode_ref (v / 16).
Proof.
  intros Hv. unfold bcd_decode_ref. destruct (Z.eq_dec v 0) as [->|Hne].
  - reflexivity.
  - rewrite digits_le_step by lia. reflexivity.
Qed.

Lemma bcd_encode_ref_step (v : Z) :
  0 <= v -> bcd_encode_ref v = v mod 10 + 16 * bcd_encode_ref (v / 10).
Proof.
  intros Hv. unfold bcd_encode_ref. destruct (Z.eq_dec v 0) as [->|Hne].
  - reflexivity.
  - rewrite digits_le_step by lia. reflexivity.
Qed.

(** *** Nibbles *)

Lemma nibble_0 (v : Z) : nibble 0 v = v mod 16.
Proof.
  unfold nibble. rewrite Z.shiftr_0_r.
  change 15 with (Z.ones 4). rewrite Z.land_ones by lia. reflexivity.
Qed.

Lemma nibble_div_pow (k v : Z) : 0 <= k -> nibble k v = (v / 16 ^ k) mod 16.
Proof.
  intros Hk. unfold nibble. rewrite Z.shiftr_div_pow2 by lia.
  change 15 with (Z.ones 4). rewrite Z.land_ones by lia.
  rewrite Z.pow_mul_r by lia. reflexivity.
Qed.

Lemma nibble_succ (k v : Z) : 0 <= k -> nibble (k + 1) v = nibble k (v / 16).
Proof.
  intros Hk. rewrite !nibble_div_pow by lia.
  rewrite Z.pow_add_r by lia. rewrite Z.mul_comm, <- Z.div_div by lia.
  reflexivity.
Qed.

Lemma valid_bcd_step (v : Z) : valid_bcd v <-> v mod 16 <= 9 /\ valid_bcd (v / 16).
Proof.
  split.
  - intros H. split.
    + rewrite <- nibble_0. apply H. lia.
    + intros k Hk. rewrite <- nibble_succ by lia. apply H. lia.
  - intros [H0 H] k Hk. destruct (Z.eq_dec k 0) as [->|Hne].
    + rewrite nibble_0. exact H0.
    + replace k with (k - 1 + 1) by lia. rewrite nibble_succ by lia. apply H. lia.
Qed.

Lemma valid_bcd_0 : valid_bcd 0.
Proof. intros k Hk. unfold nibble. rewrite Z.shiftr_0_l, Z.land_0_l. lia. Qed.

Lemma valid_bcd_digits (f : nat) (v : Z) :
  v < 2 ^ Z.of_nat f -> 0 <= v ->
  valid_bcd v <-> Forall (fun d => d <= 9) (digits_le 16 f v).
Proof.
  revert v. induction f as [|f IH]; intros v Hlt Hv.
  - simpl in *. assert (v = 0) as -> by lia. split; [constructor|intros; apply valid_bcd_0].
  - simpl. destruct (Z.ltb_spec 0 v) as [Hp|Hp].
    + rewrite valid_bcd_step, Forall_cons.
      rewrite (IH (v / 16)); [reflexivity|apply div_lt_pow2; lia|apply Z.div_pos; lia].
    + assert (v = 0) as -> by lia. split; [constructor|intros; apply valid_bcd_0].
Qed.

Lemma valid_bcdb_spec (v : Z) : 0 <= v -> valid_bcdb v = true <-> valid_bcd v.
Proof.
  intros Hv. rewrite (valid_bcd_digits (digit_fuel v)) by (try apply lt_digit_fuel; lia).
  unfold valid_bcdb. rewrite forallb_forall, Forall_forall.
  split; intros H d Hd.
  - apply Z.leb_le, H, list_elem_of_In, Hd.
  - apply Z.leb_le, H, list_elem_of_In, Hd.
Qed.

Lemma forallb_lt10_le9 (ds : list Z) :
  forallb (fun d => d <? 10) ds = forallb (fun d => d <=? 9) ds.
Proof.
  induction ds as [|d ds IH]; simpl; [reflexivity|]. rewrite IH. f_equal.
  destruct (Z.ltb_spec d 10), (Z.leb_spec d 9); lia || reflexivity.
Qed.

(** The scalar path of [bcd_decode] on a non-negative integer. *)
Lemma bcd_decode_scalar (v : Z) :
  0 <= v ->
  bcd_decode (PyInt v)
  = Some (if valid_bcdb v then Return (PyInt (bcd_decode_ref v)) else InvalidBCD v).
Proof.
  intros Hv. unfold bcd_decode. rewrite py_int_format by lia.
  rewrite forallb_lt10_le9. fold (valid_bcdb v).
  destruct (valid_bcdb v); reflexivity.
Qed.

(** Decimal digits are digits of base sixteen: the scalar [bcd_encode]
    never raises on a non-negative integer. *)
Lemma bcd_encode_scalar (v : Z) :
  0 <= v -> bcd_encode (PyInt v) = Some (PyInt (bcd_encode_ref v)).
Proof.
  intros Hv. unfold bcd_encode. rewrite py_int_format by lia.
  replace (forallb _ _) with true; [reflexivity|].
  symmetry. apply forallb_forall. intros d Hd.
  pose proof (digits_le_range 10 (digit_fuel v) v ltac:(lia)) as Hr.
  rewrite Forall_forall in Hr. apply list_elem_of_In, Hr in Hd.
  apply Z.ltb_lt. lia.
Qed.

(** *** The array path *)

Lemma bcd_decode_ref_nonpos (v : Z) : v <= 0 -> bcd_decode_ref v = 0.
Proof. intros Hv. unfold bcd_decode_ref. rewrite digits_le_nonpos by assumption. reflexivity. Qed.

Lemma valid_or_bad_nibble (f : nat) (v : Z) :
  0 <= v < 2 ^ Z.of_nat f -> valid_bcd v \/ exists k, 0 <= k /\ 9 < nibble k v.
Proof.
  revert v. induction f as [|f IH]; intros v Hv.
  - simpl in Hv. assert (v = 0) as -> by lia. left. apply valid_bcd_0.
  - destruct (Z.eq_dec v 0) as [->|Hne]; [left; apply valid_bcd_0|].
    destruct (Z_le_gt_dec (v mod 16) 9) as [Hd|Hd].
    + destruct (IH (v / 16)) as [Hval|(k & Hk & Hbad)].
      * split; [apply Z.div_pos; lia|apply div_lt_pow2; lia].
      * left. apply valid_bcd_step. split; assumption.
      * right. exists (k + 1). split; [lia|]. rewrite nibble_succ by lia. exact Hbad.
    + right. exists 0. split; [lia|]. rewrite nibble_0. lia.
Qed.

Lemma not_valid_bcd (v : Z) :
  0 <= v -> ~ valid_bcd v <-> exists k, 0 <= k /\ 9 < nibble k v.
Proof.
  intros Hv. split.
  - intros Hn. destruct (valid_or_bad_nibble (digit_fuel v) v) as [H|H].
    + split; [assumption|apply lt_digit_fuel].
    + contradiction.
    + exact H.
  - intros (k & Hk & Hbad) Hval. specialize (Hval k Hk). lia.
Qed.

Lemma np_any_false (p : Z -> bool) (a : list Z) :
  np_any p a = false <-> Forall (fun x => p x = false) a.
Proof.
  unfold np_any. induction a as [|x a IH]; simpl.
  - split; [constructor|reflexivity].
  - rewrite orb_false_iff, Forall_cons, IH. reflexivity.
Qed.

Lemma first_where_map (p : Z -> bool) (g : Z -> Z) (value : list Z) :
  np_any p (map g value) = true ->
  first_where p value (map g value) ∈ value
  /\ p (g (first_where p value (map g value))) = true.
Proof.
  unfold np_any. induction value as [|v value IH]; simpl; [discriminate|].
  destruct (p (g v)) eqn:E; simpl.
  - intros _. split; [left|exact E].
  - intros H. destruct (IH H) as [Hin Hp]. split; [right; exact Hin|exact Hp].
Qed.

Lemma zip_with_keep (g : Z -> Z) (factor : Z) (result bcd : list Z) :
  length result = length bcd -> Forall (fun b => g b = 0) bcd ->
  zip_with (fun r b => r + g b * factor) result bcd = result.
Proof.
  revert bcd. induction result as [|r result IH]; intros [|b bcd] Hlen Hz;
    simpl in *; try reflexivity; try discriminate.
  inversion Hz as [|? ? Hb Hz']; subst. rewrite Hb, IH by (assumption || lia).
  f_equal. lia.
Qed.

Lemma zip_with_digit_step (h : Z -> Z) (base weight factor : Z) (result bcd : list Z) :
  zip_with (fun r b => r + h b * (factor * weight))
    (zip_with (fun r d => r + d * factor) result (map (fun x => x mod base) bcd))
    (map (fun x => x / base) bcd)
  = zip_with (fun r b => r + (b mod base + weight * h (b / base)) * factor) result bcd.
Proof.
  revert bcd. induction result as [|r result IH]; intros [|b bcd]; simpl; try reflexivity.
  rewrite IH. f_equal. ring.
Qed.

Lemma zip_with_agree (f1 f2 : Z -> Z) (factor : Z) (result bcd : list Z) :
  Forall (fun b => f1 b = f2 b) bcd ->
  zip_with (fun r b => r + f1 b * factor) result bcd
  = zip_with (fun r b => r + f2 b * factor) result bcd.
Proof.
  intros H. revert result. induction H as [|b bcd Hb _ IH]; intros [|r result]; simpl;
    try reflexivity.
  rewrite Hb, IH. reflexivity.
Qed.

Lemma zip_with_zeros (g : Z -> Z) (a : list Z) :
  zip_with (fun r b => r + g b * 1) (map (fun _ => 0) a) a = map g a.
Proof. induction a as [|x a IH]; simpl; [reflexivity|]. rewrite IH. f_equal. lia. Qed.

(** With every element a valid BCD value the loop runs to its end and
    adds the decimal reading of what is left of each element. *)
Lemma decode_loop_valid (fuel : nat) (value bcd : list Z) (factor : Z) (result : list Z) :
  Forall (fun b => 0 <= b < 2 ^ Z.of_nat fuel /\ valid_bcd b) bcd ->
  length result = length bcd ->
  decode_loop fuel value bcd factor result
  = Some (Return (zip_with (fun r b => r + bcd_decode_ref b * factor) result bcd)).
Proof.
  revert bcd factor result. induction fuel as [|fuel IH]; intros bcd factor result Hb Hlen.
  - assert (np_any (fun x => 0 <? x) bcd = false) as Hany.
    { apply np_any_false. eapply Forall_impl; [exact Hb|]. simpl.
      intros b [Hr _]. apply Z.ltb_ge. lia. }
    simpl. rewrite Hany, zip_with_keep; [reflexivity|assumption|].
    eapply Forall_impl; [exact Hb|]. simpl. intros b [Hr _].
    apply bcd_decode_ref_nonpos. lia.
  - cbn [decode_loop]. destruct (np_any (fun x => 0 <? x) bcd) eqn:Hany.
    + assert (np_any (fun d => 9 <? d) (map (fun x => x mod 16) bcd) = false) as H9.
      { apply np_any_false, Forall_map. eapply Forall_impl; [exact Hb|]. simpl.
        intros b [_ Hv]. apply valid_bcd_step in Hv. apply Z.ltb_ge. lia. }
      rewrite H9, IH.
      * rewrite zip_with_digit_step. do 2 f_equal. apply zip_with_agree.
        eapply Forall_impl; [exact Hb|]. simpl. intros b [Hr _].
        symmetry. apply bcd_decode_ref_step. lia.
      * apply Forall_map. eapply Forall_impl; [exact Hb|]. simpl.
        intros b [Hr Hv]. apply valid_bcd_step in Hv. split; [|tauto].
        split; [apply Z.div_pos; lia|].
        destruct (Z.eq_dec b 0) as [->|Hne]; [apply Z.pow_pos_nonneg; lia|].
        apply div_lt_pow2; lia.
      * rewrite length_zip_with, !length_map. lia.
    + rewrite zip_with_keep; [reflexivity|assumption|].
      apply np_any_false in Hany. eapply Forall_impl; [exact Hany|]. simpl.
      intros b Hle. apply bcd_decode_ref_nonpos. apply Z.ltb_ge in Hle. lia.
Qed.

(** With an element that is not a valid BCD value the loop raises, and the
    value it reports is an element of the input with a nibble above 9. *)
Lemma decode_loop_invalid (fuel : nat) (k : Z) (value : list Z) (factor : Z) (result : list Z) :
  0 <= k -> Forall (fun v => 0 <= v) value ->
  Forall (fun v => v / 16 ^ k < 2 ^ Z.of_nat fuel) value ->
  Exists (fun v => ~ valid_bcd (v / 16 ^ k)) value ->
  exists x, decode_loop fuel value (map (fun v => v / 16 ^ k) value) factor result
            = Some (InvalidBCD x)
            /\ x ∈ value /\ exists j, 0 <= j /\ 9 < nibble j x.
Proof.
  revert k factor result. induction fuel as [|fuel IH]; intros k factor result Hk Hpos Hlt Hex.
  - exfalso. apply Exists_exists in Hex as (v & Hin & Hbad). apply Hbad.
    rewrite Forall_forall in Hlt, Hpos. specialize (Hlt v Hin). specialize (Hpos v Hin).
    simpl in Hlt. assert (0 <= v / 16 ^ k) by (apply Z.div_pos; lia).
    replace (v / 16 ^ k) with 0 by lia. apply valid_bcd_0.
  - cbn [decode_loop]. destruct (np_any _ (map (fun v => v / 16 ^ k) value)) eqn:Hany.
    + rewrite map_map.
      destruct (np_any (fun d => 9 <? d) (map (fun x => (x / 16 ^ k) mod 16) value)) eqn:H9.
      * destruct (first_where_map _ _ _ H9) as [Hin Hp].
        eexists. split; [reflexivity|]. split; [exact Hin|].
        exists k. split; [exact Hk|]. rewrite nibble_div_pow by exact Hk.
        apply Z.ltb_lt. exact Hp.
      * rewrite map_map.
        assert (forall v, v / 16 ^ k / 16 = v / 16 ^ (k + 1)) as Hdiv.
        { intros v. rewrite Z.pow_add_r, Z.div_div by lia. reflexivity. }
        rewrite (map_ext _ _ Hdiv). apply IH; [lia|assumption| |].
        -- rewrite Forall_forall in *. intros v Hin. rewrite <- Hdiv.
           specialize (Hlt v Hin). specialize (Hpos v Hin).
           assert (0 <= v / 16 ^ k) by (apply Z.div_pos; lia).
           destruct (Z.eq_dec (v / 16 ^ k) 0) as [->|Hne]; [apply Z.pow_pos_nonneg; lia|].
           apply div_lt_pow2; lia.
        -- apply Exists_exists in Hex as (v & Hin & Hbad). apply Exists_exists.
           exists v. split; [exact Hin|]. rewrite <- Hdiv. intros Hval. apply Hbad.
           apply valid_bcd_step. split; [|exact Hval].
           apply np_any_false in H9. rewrite Forall_map, Forall_forall in H9.
           specialize (H9 v Hin). simpl in H9. apply Z.ltb_ge in H9. exact H9.
    + exfalso. apply Exists_exists in Hex as (v & Hin & Hbad). apply Hbad.
      apply np_any_false in Hany. rewrite Forall_map, Forall_forall in Hany.
      specialize (Hany v Hin). simpl in Hany. apply Z.ltb_ge in Hany.
      rewrite Forall_forall in Hpos. specialize (Hpos v Hin).
      assert (0 <= v / 16 ^ k) by (apply Z.div_pos; lia).
      replace (v / 16 ^ k) with 0 by lia. apply valid_bcd_0.
Qed.

Lemma array_fuel_bound (a : list Z) :
  Forall (fun v => v < 2 ^ Z.of_nat (array_fuel a)) a.
Proof.
  induction a as [|x a IH]; [constructor|]. cbn [array_fuel foldr].
  fold (array_fuel a). constructor.
  - eapply Z.lt_le_trans; [apply lt_digit_fuel|].
    apply Z.pow_le_mono_r; lia.
  - eapply Forall_impl; [exact IH|]. simpl. intros v Hv.
    eapply Z.lt_le_trans; [exact Hv|]. apply Z.pow_le_mono_r; lia.
Qed.

(** *** The reference readings as digit sums *)

Lemma digit_sum_S (digit : Z -> Z) (weight : Z) (n : nat) :
  digit_sum digit weight (S n)
  = digit 0 + weight * digit_sum (fun k => digit (k + 1)) weight n.
Proof.
  unfold digit_sum. rewrite <- cons_seq, <- seq_shift. cbn [foldr].
  change (weight ^ Z.of_nat 0) with 1. rewrite Z.mul_1_r. f_equal.
  induction (seq 0 n) as [|k l IH]; cbn [foldr map]; [lia|].
  rewrite IH, Nat2Z.inj_succ, Z.pow_succ_r by lia.
  replace (Z.succ (Z.of_nat k)) with (Z.of_nat k + 1) by lia. ring.
Qed.

Lemma digit_at_succ (base k v : Z) :
  0 < base -> 0 <= k -> digit_at base (k + 1) v = digit_at base k (v / base).
Proof.
  intros Hb Hk. unfold digit_at.
  rewrite Z.pow_add_r, Z.pow_1_r, Z.mul_comm, <- Z.div_div by lia. reflexivity.
Qed.

Lemma reweigh_digits_step (base weight v : Z) :
  2 <= base -> 0 <= v ->
  reweigh weight (digits_le base (digit_fuel v) v)
  = v mod base
    + weight * reweigh weight (digits_le base (digit_fuel (v / base)) (v / base)).
Proof.
  intros Hb Hv. destruct (Z.eq_dec v 0) as [->|Hne].
  - rewrite Z.mod_0_l, Z.div_0_l by lia. cbn. lia.
  - rewrite digits_le_step by lia. reflexivity.
Qed.

Lemma reweigh_digit_sum (base weight : Z) (n : nat) (v : Z) :
  2 <= base -> 0 <= v < base ^ Z.of_nat n ->
  reweigh weight (digits_le base (digit_fuel v) v)
  = digit_sum (fun k => digit_at base k v) weight n.
Proof.
  intros Hb. revert v. induction n as [|n IH]; intros v Hv.
  - simpl in Hv. assert (v = 0) as -> by lia. reflexivity.
  - rewrite reweigh_digits_step, digit_sum_S by lia. cbv beta.
    replace (digit_at base 0 v) with (v mod base)
      by (unfold digit_at; rewrite Z.pow_0_r, Z.div_1_r; reflexivity).
    rewrite IH.
    + do 2 f_equal.
      unfold digit_sum. apply foldr_ext; [|reflexivity..]. intros k acc.
      rewrite digit_at_succ by lia. reflexivity.
    + split; [apply Z.div_pos; lia|].
      apply Z.div_lt_upper_bound; [lia|].
      rewrite Nat2Z.inj_succ, Z.pow_succ_r in Hv by lia. lia.
Qed.

(** [bcd_decode_ref] and [bcd_encode_ref] are the sums of the
    specification: hex digit [d] at position [k] contributes [d * 10^k],
    decimal digit [d] at position [k] contributes [d * 16^k]. *)
Lemma bcd_decode_ref_sum (n : nat) (v : Z) :
  0 <= v < 16 ^ Z.of_nat n ->
  bcd_decode_ref v = digit_sum (fun k => digit_at 16 k v) 10 n.
Proof. intros Hv. apply reweigh_digit_sum; [lia|exact Hv]. Qed.

Lemma bcd_encode_ref_sum (n : nat) (v : Z) :
  0 <= v < 10 ^ Z.of_nat n ->
  bcd_encode_ref v = digit_sum (fun k => digit_at 10 k v) 16 n.
Proof. intros Hv. apply reweigh_digit_sum; [lia|exact Hv]. Qed.

Lemma nibble_digit_at (k v : Z) : 0 <= k -> nibble k v = digit_at 16 k v.
Proof. apply nibble_div_pow. Qed.

(** *** Round trip of the reference readings *)

Lemma bcd_encode_ref_nonneg (f : nat) (v : Z) :
  0 <= v < 2 ^ Z.of_nat f -> 0 <= bcd_encode_ref v.
Proof.
  revert v. induction f as [|f IH]; intros v Hv.
  - simpl in Hv. assert (v = 0) as -> by lia. cbn. lia.
  - destruct (Z.eq_dec v 0) as [->|Hne]; [cbn; lia|].
    rewrite bcd_encode_ref_step by lia.
    assert (0 <= bcd_encode_ref (v / 10)).
    { apply IH. split; [apply Z.div_pos; lia|apply div_lt_pow2; lia]. }
    pose proof (Z.mod_pos_bound v 10). lia.
Qed.

Lemma bcd_ref_round_trip (f : nat) (v : Z) :
  0 <= v < 2 ^ Z.of_nat f ->
  valid_bcd (bcd_encode_ref v) /\ bcd_decode_ref (bcd_encode_ref v) = v.
Proof.
  revert v. induction f as [|f IH]; intros v Hv.
  - simpl in Hv. assert (v = 0) as -> by lia. split; [apply valid_bcd_0|reflexivity].
  - destruct (Z.eq_dec v 0) as [->|Hne]; [split; [apply valid_bcd_0|reflexivity]|].
    assert (0 <= v / 10 < 2 ^ Z.of_nat f) as Hq.
    { split; [apply Z.div_pos; lia|apply div_lt_pow2; lia]. }
    destruct (IH _ Hq) as [Hval Hdec].
    pose proof (bcd_encode_ref_nonneg f _ Hq) as Hnn.
    pose proof (Z.mod_pos_bound v 10 ltac:(lia)) as Hd.
    assert (bcd_encode_ref v mod 16 = v mod 10) as Hmod.
    { rewrite bcd_encode_ref_step by lia.
      rewrite (Z.mul_comm 16), Z.mod_add by lia. apply Z.mod_small. lia. }
    assert (bcd_encode_ref v / 16 = bcd_encode_ref (v / 10)) as Hdiv.
    { rewrite bcd_encode_ref_step by lia.
      rewrite (Z.mul_comm 16), Z.div_add by lia.
      rewrite (Z.div_small (v mod 10)) by lia. lia. }
    split.
    + apply valid_bcd_step. rewrite Hmod, Hdiv. split; [lia|exact Hval].
    + rewrite bcd_decode_ref_step.
      * rewrite Hmod, Hdiv, Hdec. pose proof (Z.div_mod v 10). lia.
      * rewrite bcd_encode_ref_step by lia. lia.
Qed.

(** *** Width of the array elements

    Array elements are unbounded integers in this model.  On a valid BCD
    value nothing [bcd_decode] computes exceeds the element it started
    from, so a fixed-width dtype that holds the input holds every
    intermediate value as well. *)

Lemma bcd_decode_ref_bounds (f : nat) (v : Z) :
  0 <= v < 2 ^ Z.of_nat f -> 0 <= bcd_decode_ref v <= v.
Proof.
  revert v. induction f as [|f IH]; intros v Hv.
  - simpl in Hv. assert (v = 0) as -> by lia. cbn. lia.
  - destruct (Z.eq_dec v 0) as [->|Hne]; [cbn; lia|].
    rewrite bcd_decode_ref_step by lia.
    assert (0 <= bcd_decode_ref (v / 16) <= v / 16) as Hq.
    { apply IH. split; [apply Z.div_pos; lia|apply div_lt_pow2; lia]. }
    pose proof (Z.mod_pos_bound v 16 ltac:(lia)).
    pose proof (Z.div_mod v 16 ltac:(lia)). lia.
Qed.

(** *** The array loop of [bcd_encode] *)

Lemma bcd_encode_ref_nonpos (v : Z) : v <= 0 -> bcd_encode_ref v = 0.
Proof. intros Hv. unfold bcd_encode_ref. rewrite digits_le_nonpos by assumption. reflexivity. Qed.

(** The loop runs to its end within the fuel and adds to every element
    of [result] the hexadecimal reading of the decimal digits left. *)
Lemma encode_loop_run (fuel : nat) (value : list Z) (factor : Z) (result : list Z) :
  Forall (fun b => 0 <= b < 2 ^ Z.of_nat fuel) value ->
  length result = length value ->
  encode_loop fuel value factor result
  = Some (zip_with (fun r b => r + bcd_encode_ref b * factor) result value).
Proof.
  revert value factor result. induction fuel as [|fuel IH]; intros value factor result Hb Hlen.
  - assert (np_any (fun x => 0 <? x) value = false) as Hany.
    { apply np_any_false. eapply Forall_impl; [exact Hb|]. simpl.
      intros b Hr. apply Z.ltb_ge. simpl in Hr. lia. }
    simpl. rewrite Hany, zip_with_keep; [reflexivity|assumption|].
    eapply Forall_impl; [exact Hb|]. simpl. intros b Hr.
    apply bcd_encode_ref_nonpos. simpl in Hr. lia.
  - cbn [encode_loop]. destruct (np_any (fun x => 0 <? x) value) eqn:Hany.
    + rewrite IH.
      * rewrite zip_with_digit_step. f_equal. apply zip_with_agree.
        eapply Forall_impl; [exact Hb|]. simpl. intros b Hr.
        symmetry. apply bcd_encode_ref_step. lia.
      * apply Forall_map. eapply Forall_impl; [exact Hb|]. simpl. intros b Hr.
        split; [apply Z.div_pos; lia|].
        destruct (Z.eq_dec b 0) as [->|Hne]; [apply Z.pow_pos_nonneg; lia|].
        apply div_lt_pow2; lia.
      * rewrite length_zip_with, !length_map. lia.
    + rewrite zip_with_keep; [reflexivity|assumption|].
      apply np_any_false in Hany. eapply Forall_impl; [exact Hany|]. simpl.
      intros b Hle. apply bcd_encode_ref_nonpos. apply Z.ltb_ge in Hle. lia.
Qed.

(** [bcd_encode] on an array of non-negative elements: element-wise the
    scalar result, and the integer 0 when no element is positive. *)
Lemma bcd_encode_array (a : list Z) :
  Forall (fun x => 0 <= x) a ->
  bcd_encode (NDArray a)
  = Some (if np_any (fun x => 0 <? x) a
          then NDArray (map bcd_encode_ref a) else PyInt 0).
Proof.
  intros Hpos. unfold bcd_encode. destruct (np_any _ a); [|reflexivity].
  rewrite encode_loop_run.
  - cbn. rewrite zip_with_zeros. reflexivity.
  - pose proof (array_fuel_bound a) as Hlt.
    rewrite Forall_forall in *. intros x Hx. auto.
  - apply length_map.
Qed.

(** *** The array path, assembled *)

Lemma bcd_decode_array_valid (a : list Z) :
  Forall (fun x => 0 <= x) a -> Forall valid_bcd a ->
  bcd_decode (NDArray a) = Some (Return (NDArray (map bcd_decode_ref a))).
Proof.
  intros Hpos Hval. unfold bcd_decode. rewrite decode_loop_valid.
  - rewrite zip_with_zeros. reflexivity.
  - pose proof (array_fuel_bound a) as Hlt.
    rewrite Forall_forall in *. intros x Hx. auto.
  - apply length_map.
Qed.

Lemma bcd_decode_array_invalid (a : list Z) :
  Forall (fun x => 0 <= x) a -> Exists (fun x => ~ valid_bcd x) a ->
  exists x, bcd_decode (NDArray a) = Some (InvalidBCD x)
            /\ x ∈ a /\ exists k, 0 <= k /\ 9 < nibble k x.
Proof.
  intros Hpos Hex.
  assert (forall x, x / 16 ^ 0 = x) as Hid by (intros; apply Z.div_1_r).
  destruct (decode_loop_invalid (array_fuel a) 0 a 1 (map (fun _ => 0) a))
    as (x & Hrun & Hin & Hbad).
  - lia.
  - exact Hpos.
  - eapply Forall_impl; [apply array_fuel_bound|]. simpl. intros x Hx. rewrite Hid. exact Hx.
  - eapply Exists_impl; [exact Hex|]. simpl. intros x Hx. rewrite Hid. exact Hx.
  - exists x. split; [|split; assumption].
    unfold bcd_decode. rewrite (map_ext _ _ Hid), map_id in Hrun. rewrite Hrun. reflexivity.
Qed.

Lemma Forall_valid_or_not (a : list Z) :
  Forall (fun x => 0 <= x) a ->
  Forall valid_bcd a \/ Exists (fun x => ~ valid_bcd x) a.
Proof.
  induction 1 as [|x a Hx _ IH]; [left; constructor|].
  destruct IH as [IH|IH]; [|right; right; exact IH].
  destruct (valid_or_bad_nibble (digit_fuel x) x) as [Hv|Hb].
  - split; [exact Hx|apply lt_digit_fuel].
  - left. constructor; assumption.
  - right. left. apply not_valid_bcd; assumption.
Qed.

(** *** Claims *)

(** C6.  For every integer [0 <= v < 10000], [bcd_encode(v)] is the number
    whose hexadecimal digits are the decimal digits of [v] (decimal digit
    [d] at position [k] contributes [d * 16^k]), [bcd_decode] of it returns
    [v], and that result is the digit-wise reading (hex digit [d] at
    position [k] contributes [d * 10^k]). *)
Theorem bcd_decode_encode_round_trip (v : Z) :
  0 <= v < 10000 ->
  bcd_encode (PyInt v) ≫= bcd_decode = Some (Return (PyInt v))
  /\ bcd_encode (PyInt v) = Some (PyInt (bcd_encode_ref v))
  /\ bcd_encode_ref v = digit_sum (fun k => digit_at 10 k v) 16 4
  /\ bcd_decode (PyInt (bcd_encode_ref v))
     = Some (Return (PyInt (bcd_decode_ref (bcd_encode_ref v))))
  /\ bcd_decode_ref (bcd_encode_ref v)
     = digit_sum (fun k => digit_at 16 k (bcd_encode_ref v)) 10 4
  /\ bcd_decode_ref (bcd_encode_ref v) = v.
Proof.
  intros Hv.
  assert (0 <= v < 2 ^ Z.of_nat (digit_fuel v)) as Hf.
  { split; [lia|apply lt_digit_fuel]. }
  destruct (bcd_ref_round_trip _ _ Hf) as [Hval Hdec].
  pose proof (bcd_encode_ref_nonneg _ _ Hf) as Hnn.
  assert (bcd_encode_ref v = digit_sum (fun k => digit_at 10 k v) 16 4) as Hsum.
  { apply bcd_encode_ref_sum. simpl. lia. }
  assert (bcd_encode_ref v < 16 ^ Z.of_nat 4) as Hlt.
  { rewrite Hsum. unfold digit_sum, digit_at. cbn [seq foldr].
    pose proof (Z.mod_pos_bound (v / 10 ^ Z.of_nat 0) 10 ltac:(lia)).
    pose proof (Z.mod_pos_bound (v / 10 ^ Z.of_nat 1) 10 ltac:(lia)).
    pose proof (Z.mod_pos_bound (v / 10 ^ Z.of_nat 2) 10 ltac:(lia)).
    pose proof (Z.mod_pos_bound (v / 10 ^ Z.of_nat 3) 10 ltac:(lia)).
    change (16 ^ Z.of_nat 0) with 1. change (16 ^ Z.of_nat 1) with 16.
    change (16 ^ Z.of_nat 2) with 256. change (16 ^ Z.of_nat 3) with 4096.
    change (16 ^ Z.of_nat 4) with 65536. lia. }
  assert (bcd_decode (PyInt (bcd_encode_ref v))
          = Some (Return (PyInt (bcd_decode_ref (bcd_encode_ref v))))) as Hd.
  { rewrite bcd_decode_scalar by exact Hnn.
    apply valid_bcdb_spec in Hval; [|exact Hnn]. rewrite Hval. reflexivity. }
  split; [|split; [|split; [|split; [|split]]]].
  - rewrite bcd_encode_scalar by lia. cbn [mbind option_bind].
    rewrite Hd, Hdec. reflexivity.
  - apply bcd_encode_scalar. lia.
  - exact Hsum.
  - exact Hd.
  - apply bcd_decode_ref_sum. lia.
  - exact Hdec.
Qed.

Lemma bcd_decode_encode_round_trip_witness :
  0 <= 1987 < 10000
  /\ bcd_encode (PyInt 1987) ≫= bcd_decode = Some (Return (PyInt 1987)).
Proof.
  split; [lia|]. apply (bcd_decode_encode_round_trip 1987). lia.
Defined.

(** C7.  On non-negative input, [bcd_decode] raises its [ValueError]
    exactly when some 4-bit nibble exceeds 9: for an integer the error names
    that integer; for an array it is raised exactly when some element has
    such a nibble, and the value it names is an element of the array that
    has one.  With every nibble in 0-9 the call returns the digit-wise
    reading, of the integer or of every element. *)
Theorem bcd_decode_raises_iff_bad_nibble (v : Z) (a : list Z) :
  0 <= v -> Forall (fun x => 0 <= x) a ->
  ((exists x, bcd_decode (PyInt v) = Some (InvalidBCD x))
   <-> exists k, 0 <= k /\ 9 < nibble k v)
  /\ (forall x, bcd_decode (PyInt v) = Some (InvalidBCD x) -> x = v)
  /\ (valid_bcd v -> bcd_decode (PyInt v) = Some (Return (PyInt (bcd_decode_ref v))))
  /\ ((exists x, bcd_decode (NDArray a) = Some (InvalidBCD x))
      <-> exists y k, y ∈ a /\ 0 <= k /\ 9 < nibble k y)
  /\ (forall x, bcd_decode (NDArray a) = Some (InvalidBCD x) ->
      x ∈ a /\ exists k, 0 <= k /\ 9 < nibble k x)
  /\ (Forall valid_bcd a ->
      bcd_decode (NDArray a) = Some (Return (NDArray (map bcd_decode_ref a)))).
Proof.
  intros Hv Ha.
  pose proof (bcd_decode_scalar v Hv) as Hs.
  pose proof (valid_bcdb_spec v Hv) as Hb.
  pose proof (not_valid_bcd v Hv) as Hn.
  assert (forall x, bcd_decode (NDArray a) = Some (InvalidBCD x) ->
          x ∈ a /\ exists k, 0 <= k /\ 9 < nibble k x) as Harr.
  { intros x Hx. destruct (Forall_valid_or_not a Ha) as [Hval|Hex].
    - rewrite bcd_decode_array_valid in Hx by assumption. discriminate Hx.
    - destruct (bcd_decode_array_invalid a Ha Hex) as (y & Hy & Hin & Hbad).
      rewrite Hy in Hx. injection Hx as <-. split; assumption. }
  split; [|split; [|split; [|split; [|split]]]].
  - rewrite Hs. destruct (valid_bcdb v) eqn:E.
    + split; [intros [x Hx]; discriminate Hx|].
      intros H. apply Hn in H. exfalso. apply H, Hb. reflexivity.
    + split; [|intros _; eexists; reflexivity].
      intros _. apply Hn. intros Hval. apply Hb in Hval. discriminate Hval.
  - intros x. rewrite Hs. destruct (valid_bcdb v); intros Hx; [discriminate Hx|].
    injection Hx as <-. reflexivity.
  - intros Hval. apply Hb in Hval. rewrite Hs, Hval. reflexivity.
  - split.
    + intros [x Hx]. destruct (Harr x Hx) as (Hin & k & Hk & Hbad). eauto.
    + intros (y & k & Hin & Hk & Hbad).
      destruct (bcd_decode_array_invalid a Ha) as (x & Hx & _); [|eauto].
      apply Exists_exists. exists y. split; [exact Hin|].
      rewrite Forall_forall in Ha. apply not_valid_bcd; eauto.
  - exact Harr.
  - apply bcd_decode_array_valid. exact Ha.
Qed.

Lemma bcd_decode_raises_iff_bad_nibble_witness :
  (0 <= 26 /\ Forall (fun x => 0 <= x) [18; 27; 60])
  /\ (forall x, bcd_decode (NDArray [18; 27; 60]) = Some (InvalidBCD x) ->
      x ∈ [18; 27; 60] /\ exists k, 0 <= k /\ 9 < nibble k x).
Proof.
  assert (0 <= 26 /\ Forall (fun x => 0 <= x) [18; 27; 60]) as H.
  { split; [lia|]. repeat constructor; lia. }
  split; [exact H|].
  apply (bcd_decode_raises_iff_bad_nibble 26 [18; 27; 60] (proj1 H) (proj2 H)).
Defined.

(** C7 as stated, for every input, fails on negative numbers.  The nibble
    of [-26] at position 1 is 14, yet the array [[-26]] has no positive
    element, so the loop is never entered and zeros are returned.  Nor is
    the rule the same in both modes: the integer [-18] is read through its
    magnitude [0x12] and returned as [-12], while as an element of
    [[-18; 1]] it gives the digit [-18 mod 16 = 14] and is refused. *)
Lemma bcd_decode_negative_input_not_by_nibbles :
  9 < nibble 1 (-26)
  /\ bcd_decode (NDArray [-26]) = Some (Return (NDArray [0]))
  /\ bcd_decode (PyInt (-18)) = Some (Return (PyInt (-12)))
  /\ bcd_decode (NDArray [-18; 1]) = Some (InvalidBCD (-18))
  /\ ~ (forall a : list Z,
          (exists x, bcd_decode (NDArray a) = Some (InvalidBCD x))
          <-> exists y k, y ∈ a /\ 0 <= k /\ 9 < nibble k y).
Proof.
  assert (9 < nibble 1 (-26)) as Hn by (vm_compute; reflexivity).
  split; [exact Hn|]. split; [reflexivity|]. split; [reflexivity|].
  split; [reflexivity|].
  intros H. destruct (proj2 (H [-26])) as [x Hx].
  - exists (-26), 1. split; [left|split; [lia|exact Hn]].
  - discriminate Hx.
Qed.

(** The model evaluated: [0x1987] reads as 1987, [0x1a] is refused, and
    in an array the first element with a bad digit at the lowest bad
    position is the one reported. *)
Example bcd_decode_examples :
  bcd_decode (PyInt 6535) = Some (Return (PyInt 1987))
  /\ bcd_decode (PyInt 26) = Some (InvalidBCD 26)
  /\ bcd_decode (NDArray [18; 27; 60]) = Some (InvalidBCD 27)
  /\ bcd_decode (NDArray [18; 39; 0]) = Some (Return (NDArray [12; 27; 0]))
  /\ bcd_encode (NDArray [12; 27; 0]) = Some (NDArray [18; 39; 0])
  /\ bcd_encode (PyInt 1987) = Some (PyInt 6535).
Proof. vm_compute. repeat split. Qed.

End BCD_facts.

(** ** Cyclic redundancy check *)

Module CRC_facts.
Import PyText PyText_facts CRC.
Local Open Scope Z_scope.

(** *** The window update, by recursion on the position *)

Lemma xor_window_nil (i : nat) (rhs : list Z) : xor_window [] i rhs = [].
Proof.
  unfold xor_window. rewrite take_nil, !drop_nil, take_nil. reflexivity.
Qed.

Lemma xor_window_here_nil (stream : list Z) : xor_window stream 0 [] = stream.
Proof. unfold xor_window. cbn. rewrite drop_0. reflexivity. Qed.

Lemma xor_window_here_cons (x : Z) (stream : list Z) (m : Z) (rhs : list Z) :
  xor_window (x :: stream) 0 (m :: rhs) = Z.lxor x m :: xor_window stream 0 rhs.
Proof. reflexivity. Qed.

Lemma xor_window_later (x : Z) (stream : list Z) (i : nat) (rhs : list Z) :
  xor_window (x :: stream) (S i) rhs = x :: xor_window stream i rhs.
Proof. reflexivity. Qed.

Lemma length_xor_window (stream : list Z) (i : nat) (rhs : list Z) :
  length (xor_window stream i rhs) = length stream.
Proof.
  revert stream rhs. induction i as [|i IH]; intros stream rhs.
  - revert stream. induction rhs as [|m rhs IHr]; intros [|x stream];
      rewrite ?xor_window_nil, ?xor_window_here_nil, ?xor_window_here_cons;
      cbn [length]; auto.
  - destruct stream as [|x stream]; [rewrite xor_window_nil; reflexivity|].
    rewrite xor_window_later. cbn [length]. rewrite IH. reflexivity.
Qed.

(** The slice the loop updates never leaves the array: numpy has nothing
    to broadcast or to refuse. *)
Lemma window_in_range (self : crc) (stream : list Z) (i : nat) :
  (i < length stream - len self)%nat ->
  (i + S (len self) <= length stream)%nat /\ (i < length stream)%nat.
Proof. lia. Qed.

Lemma xor_window_zeros (stream : list Z) (i : nat) (rhs : list Z) :
  Forall (fun m => m = 0) rhs -> xor_window stream i rhs = stream.
Proof.
  revert stream rhs. induction i as [|i IH]; intros stream rhs Hz.
  - revert stream. induction Hz as [|m rhs -> _ IHr]; intros [|x stream];
      rewrite ?xor_window_nil, ?xor_window_here_nil, ?xor_window_here_cons; auto.
    rewrite Z.lxor_0_r, IHr. reflexivity.
  - destruct stream as [|x stream]; [apply xor_window_nil|].
    rewrite xor_window_later, IH by assumption. reflexivity.
Qed.

(** *** Linearity over exclusive or *)

Notation "a ⊕ b" := (zip_with Z.lxor a b) (at level 50, left associativity).

Lemma xor_window_linear (a b : list Z) (i : nat) (ra rb : list Z) :
  length a = length b -> length ra = length rb ->
  xor_window (a ⊕ b) i (ra ⊕ rb) = xor_window a i ra ⊕ xor_window b i rb.
Proof.
  revert a b ra rb. induction i as [|i IH]; intros a b ra rb Hab Hr.
  - revert a b rb Hab Hr.
    induction ra as [|m ra IHr]; intros a b [|m' rb] Hab Hr; try discriminate Hr.
    + cbn [zip_with]. rewrite !xor_window_here_nil. reflexivity.
    + destruct a as [|x a], b as [|y b]; try discriminate Hab.
      * cbn [zip_with]. rewrite !xor_window_nil. reflexivity.
      * cbn [zip_with]. rewrite !xor_window_here_cons. cbn [zip_with].
        rewrite IHr by (cbn in *; lia). f_equal.
        rewrite !Z.lxor_assoc. f_equal.
        rewrite <- !Z.lxor_assoc. f_equal. apply Z.lxor_comm.
  - destruct a as [|x a], b as [|y b]; try discriminate Hab.
    + cbn [zip_with]. rewrite !xor_window_nil. reflexivity.
    + cbn [zip_with]. rewrite !xor_window_later. cbn [zip_with].
      rewrite IH by (cbn in *; lia). reflexivity.
Qed.

Lemma land_lxor_distr (p x y : Z) :
  Z.land p (Z.lxor x y) = Z.lxor (Z.land p x) (Z.land p y).
Proof.
  apply Z.bits_inj'. intros n Hn.
  rewrite Z.land_spec, !Z.lxor_spec, !Z.land_spec.
  destruct (Z.testbit p n), (Z.testbit x n), (Z.testbit y n); reflexivity.
Qed.

Lemma nth_lxor (a b : list Z) (i : nat) :
  length a = length b -> nth i (a ⊕ b) 0 = Z.lxor (nth i a 0) (nth i b 0).
Proof.
  revert a b. induction i as [|i IH]; intros [|x a] [|y b] H;
    try discriminate H; cbn; auto.
Qed.

Lemma crc_step_linear (pol a b : list Z) (i : nat) :
  length a = length b ->
  crc_step pol (a ⊕ b) i = crc_step pol a i ⊕ crc_step pol b i.
Proof.
  intros Hab. unfold crc_step. rewrite <- xor_window_linear.
  - f_equal. rewrite nth_lxor by assumption.
    induction pol as [|p pol IH]; cbn [map zip_with]; [reflexivity|].
    rewrite IH, land_lxor_distr. reflexivity.
  - assumption.
  - rewrite !length_map. reflexivity.
Qed.

Lemma length_crc_step (pol stream : list Z) (i : nat) :
  length (crc_step pol stream i) = length stream.
Proof. apply length_xor_window. Qed.

Lemma length_foldl_crc_step (pol : list Z) (l : list nat) (stream : list Z) :
  length (foldl (crc_step pol) stream l) = length stream.
Proof.
  revert stream. induction l as [|i l IH]; intros stream; cbn [foldl]; [reflexivity|].
  rewrite IH. apply length_crc_step.
Qed.

Lemma foldl_crc_step_linear (pol : list Z) (l : list nat) (a b : list Z) :
  length a = length b ->
  foldl (crc_step pol) (a ⊕ b) l
  = foldl (crc_step pol) a l ⊕ foldl (crc_step pol) b l.
Proof.
  revert a b. induction l as [|i l IH]; intros a b Hab; cbn [foldl]; [reflexivity|].
  rewrite crc_step_linear by assumption.
  apply IH. rewrite !length_crc_step. assumption.
Qed.

(** A zero at the position leaves the stream as it is. *)
Lemma crc_step_zero (pol stream : list Z) (i : nat) :
  nth i stream 0 = 0 -> crc_step pol stream i = stream.
Proof.
  intros Hz. unfold crc_step. apply xor_window_zeros.
  rewrite Hz. apply Forall_map, Forall_forall. intros p _. apply Z.land_0_r.
Qed.

Lemma foldl_crc_step_zero (pol : list Z) (l : list nat) (stream : list Z) :
  Forall (fun i => nth i stream 0 = 0) l -> foldl (crc_step pol) stream l = stream.
Proof.
  induction 1 as [|i l Hi _ IH]; cbn [foldl]; [reflexivity|].
  rewrite crc_step_zero by assumption. exact IH.
Qed.

(** *** The remainder *)

Lemma last_slice_linear (n : nat) (a b : list Z) :
  length a = length b -> last_slice n (a ⊕ b) = last_slice n a ⊕ last_slice n b.
Proof.
  intros Hab. destruct n as [|n]; cbn [last_slice]; [reflexivity|].
  rewrite zip_with_drop, length_zip_with_l_eq, Hab by assumption. reflexivity.
Qed.

Lemma crc_linear (dt : dtype) (self : crc) (a b : list Z) :
  length a = length b ->
  _crc dt self (a ⊕ b) = _crc dt self a ⊕ _crc dt self b.
Proof.
  intros Hab. unfold _crc.
  rewrite length_zip_with_l_eq, <- Hab by assumption.
  rewrite foldl_crc_step_linear by assumption.
  apply last_slice_linear. rewrite !length_foldl_crc_step. assumption.
Qed.

Lemma length_crc (dt : dtype) (self : crc) (stream : list Z) :
  (1 <= len self <= length stream)%nat ->
  length (_crc dt self stream) = len self.
Proof.
  intros Hd. unfold _crc. destruct (len self) as [|d] eqn:E; [lia|].
  cbn [last_slice]. rewrite length_drop, !length_foldl_crc_step. lia.
Qed.

Lemma nth_zero_prefix (n i : nat) (r : list Z) :
  (i < n)%nat -> nth i (replicate n 0 ++ r) 0 = 0.
Proof.
  intros Hi. rewrite nth_lookup, lookup_app_l by (rewrite length_replicate; lia).
  rewrite lookup_replicate_2 by assumption. reflexivity.
Qed.

(** Dividing a stream that is zero before its last [len self] elements
    leaves those elements as the remainder. *)
Lemma crc_zero_prefix (dt : dtype) (self : crc) (n : nat) (r : list Z) :
  (1 <= len self)%nat -> length r = len self ->
  _crc dt self (replicate n 0 ++ r) = r.
Proof.
  intros Hd Hr. unfold _crc.
  rewrite length_app, length_replicate, Hr.
  replace (n + len self - len self)%nat with n by lia.
  rewrite foldl_crc_step_zero.
  - destruct (len self) as [|d]; [lia|]. cbn [last_slice].
    rewrite length_app, length_replicate, Hr.
    replace (n + S d - S d)%nat with n by lia.
    apply drop_app_length'. rewrite length_replicate. reflexivity.
  - apply Forall_forall. intros i Hi. apply elem_of_seq in Hi.
    apply nth_zero_prefix. lia.
Qed.

Lemma lxor_self (r : list Z) : r ⊕ r = replicate (length r) 0.
Proof.
  induction r as [|x r IH]; cbn; [reflexivity|].
  rewrite Z.lxor_nilpotent, IH. reflexivity.
Qed.

Lemma lxor_zeros_r (a : list Z) : a ⊕ replicate (length a) 0 = a.
Proof.
  induction a as [|x a IH]; cbn; [reflexivity|]. rewrite Z.lxor_0_r, IH. reflexivity.
Qed.

Lemma lxor_zeros_l (a : list Z) : replicate (length a) 0 ⊕ a = a.
Proof.
  induction a as [|x a IH]; cbn; [reflexivity|]. rewrite Z.lxor_0_l, IH. reflexivity.
Qed.

Lemma forallb_zeros (n : nat) : forallb (fun x => x =? 0) (replicate n 0) = true.
Proof. induction n as [|n IH]; cbn; [reflexivity|exact IH]. Qed.

(** Self-consistency for a polynomial of degree at least one: appending
    the remainder makes the division exact. *)
Lemma crc_append_exact (dt : dtype) (self : crc) (stream : list Z) :
  (1 <= len self)%nat ->
  _crc dt self (stream ++ call dt self stream) = replicate (len self) 0.
Proof.
  intros Hd. set (r := call dt self stream).
  assert (length r = len self) as Hr.
  { apply length_crc. rewrite length_app, length_replicate. lia. }
  assert (stream ++ r
          = (stream ++ replicate (len self) 0) ⊕ (replicate (length stream) 0 ++ r)) as ->.
  { rewrite zip_with_app by (rewrite length_replicate; reflexivity).
    rewrite lxor_zeros_r, <- Hr, lxor_zeros_l. reflexivity. }
  rewrite crc_linear by (rewrite !length_app, !length_replicate; lia).
  rewrite crc_zero_prefix by assumption.
  fold (call dt self stream). fold r. rewrite lxor_self, Hr. reflexivity.
Qed.

(** *** Degree zero *)

Lemma xor_window_app (l stream : list Z) (n : nat) (rhs : list Z) :
  n = length l -> xor_window (l ++ stream) n rhs = l ++ xor_window stream 0 rhs.
Proof.
  intros ->. induction l as [|x l IH]; [reflexivity|].
  cbn [app length]. rewrite xor_window_later, IH. reflexivity.
Qed.

Lemma nth_app_length (l stream : list Z) (n : nat) :
  n = length l -> nth n (l ++ stream) 0 = nth 0 stream 0.
Proof. intros ->. induction l as [|x l IH]; [reflexivity|exact IH]. Qed.

Lemma astype_neg1_land (dt : dtype) (x : Z) :
  in_dtype dt x -> Z.land (astype dt (- 1)) x = x.
Proof.
  destruct dt as [|bits]; cbn [astype in_dtype].
  - intros [->| ->]; reflexivity.
  - intros Hx. assert (0 < 2 ^ Z.of_N bits) by (apply Z.pow_pos_nonneg; lia).
    replace (-1 mod 2 ^ Z.of_N bits) with (Z.ones (Z.of_N bits)).
    + rewrite Z.land_comm, Z.land_ones by lia. apply Z.mod_small. exact Hx.
    + rewrite Z.ones_equiv.
      apply (Z.mod_unique_pos _ _ (-1)); lia.
Qed.

Lemma in_dtype_0 (dt : dtype) : in_dtype dt 0.
Proof.
  destruct dt as [|bits]; cbn; [left; reflexivity|].
  split; [lia|apply Z.pow_pos_nonneg; lia].
Qed.

(** With the one-coefficient polynomial [1] every position of the stream
    is cleared in turn. *)
Lemma foldl_degree0 (dt : dtype) (k : nat) (stream : list Z) :
  Forall (in_dtype dt) stream ->
  foldl (crc_step [astype dt (- 1)]) (replicate k 0 ++ stream) (seq k (length stream))
  = replicate (k + length stream) 0.
Proof.
  intros Ht. revert k. induction Ht as [|x stream Hx _ IH]; intros k.
  - cbn. rewrite app_nil_r, Nat.add_0_r. reflexivity.
  - cbn [length seq foldl].
    assert (crc_step [astype dt (- 1)] (replicate k 0 ++ x :: stream) k
            = replicate (S k) 0 ++ stream) as ->.
    { unfold crc_step.
      rewrite nth_app_length, xor_window_app by (rewrite length_replicate; reflexivity).
      cbn [nth map].
      rewrite xor_window_here_cons, xor_window_here_nil.
      rewrite astype_neg1_land, Z.lxor_nilpotent by assumption.
      rewrite (cons_middle 0), app_assoc, <- replicate_cons_app. reflexivity. }
    rewrite IH. f_equal. lia.
Qed.

Lemma crc_degree0 (dt : dtype) (self : crc) (stream : list Z) :
  pol_bin self = [1] -> Forall (in_dtype dt) stream ->
  _crc dt self stream = replicate (length stream) 0.
Proof.
  intros Hp Ht. unfold _crc, len. rewrite Hp. cbn [length map last_slice Nat.sub].
  rewrite Nat.sub_0_r. apply (foldl_degree0 dt 0 stream Ht).
Qed.

(** *** The polynomial *)

Lemma digits_le_msb (base : Z) (f : nat) (n : Z) :
  2 <= base -> 0 < n < 2 ^ Z.of_nat f ->
  exists ds d, digits_le base f n = ds ++ [d] /\ 0 < d < base.
Proof.
  intros Hb. revert n. induction f as [|f IH]; intros n Hn.
  - simpl in Hn. lia.
  - rewrite digits_le_S. destruct (Z.ltb_spec 0 n); [|lia].
    destruct (Z_lt_le_dec n base) as [Hs|Hs].
    + exists [], n. rewrite Z.div_small, Z.mod_small by lia.
      rewrite digits_le_nonpos by lia. split; [reflexivity|lia].
    + destruct (IH (n / base)) as (ds & d & Hds & Hd).
      * split; [|apply div_lt_pow2; lia].
        apply Z.div_str_pos. lia.
      * exists (n mod base :: ds), d. rewrite Hds. split; [reflexivity|exact Hd].
Qed.

Lemma py_int_digit (d : Z) :
  0 <= d < 10 -> py_int 10 (String (digit_char d) EmptyString) = Some d.
Proof.
  intros Hd. unfold py_int. cbn [list_ascii_of_string].
  rewrite digit_char_not_minus by lia. cbn [parse_digits].
  rewrite char_value_digit_char by lia.
  destruct (Z.ltb_spec d 10); [|lia]. reflexivity.
Qed.

(** A positive polynomial is accepted, and its first coefficient is 1. *)
Lemma init_positive (p : Z) :
  0 < p ->
  exists rest, init p = Some {| polynomial := p; pol_bin := 1 :: rest |}.
Proof.
  intros Hp. unfold init, format_int.
  destruct (Z.ltb_spec p 0); [lia|]. rewrite Z.abs_eq by lia.
  destruct (Z.eqb_spec p 0); [lia|].
  rewrite list_ascii_of_string_of_list_ascii.
  destruct (digits_le_msb 2 (digit_fuel p) p) as (ds & d & Hds & Hd);
    [lia|split; [lia|apply lt_digit_fuel]|].
  change (map digit_char) with (fmap (M:=list) digit_char).
  rewrite mapM_fmap_Forall_Some.
  - rewrite Hds, rev_app_distr. cbn. assert (d = 1) as -> by lia. eauto.
  - apply Forall_forall. intros c Hc. apply py_int_digit.
    apply list_elem_of_In, in_rev, list_elem_of_In in Hc.
    pose proof (digits_le_range 2 (digit_fuel p) p ltac:(lia)) as Hr.
    rewrite Forall_forall in Hr. specialize (Hr c Hc). lia.
Qed.

(** *** One track at a time *)

Lemma pol_single_track (pb : list Z) :
  Forall (fun c => c = 0 \/ c = 1) pb ->
  map (fun c => astype np_bool (- c)) pb = pb.
Proof.
  induction 1 as [|c pb Hc _ IH]; cbn [map]; [reflexivity|].
  rewrite IH. destruct Hc as [-> | ->]; reflexivity.
Qed.

(** Single track: the coefficients are XORed into the window exactly when
    the bit at the position is set. *)
Lemma crc_step_single_track (pb stream : list Z) (i : nat) :
  Forall (fun c => c = 0 \/ c = 1) pb -> Forall (in_dtype np_bool) stream ->
  crc_step (map (fun c => astype np_bool (- c)) pb) stream i
  = if nth i stream 0 =? 1 then xor_window stream i pb else stream.
Proof.
  intros Hpb Ht. rewrite pol_single_track by assumption.
  assert (nth i stream 0 = 0 \/ nth i stream 0 = 1) as [Hz|Hz].
  { destruct (nth_lookup_or_length stream i 0) as [Hl|Hl].
    - rewrite Forall_forall in Ht. apply (Ht _ (list_elem_of_lookup_2 _ _ _ Hl)).
    - left. apply nth_overflow. exact Hl. }
  - rewrite Hz. apply crc_step_zero. exact Hz.
  - rewrite Hz. unfold crc_step. rewrite Hz. cbn [Z.eqb Pos.eqb]. f_equal.
    rewrite <- (map_id pb) at 2. apply map_ext_in. intros c Hc.
    rewrite Forall_forall in Hpb. apply list_elem_of_In in Hc.
    destruct (Hpb c Hc) as [-> | ->]; reflexivity.
Qed.

Lemma track_cons (t x : Z) (stream : list Z) :
  track t (x :: stream) = Z.b2z (Z.testbit x t) :: track t stream.
Proof. reflexivity. Qed.

Lemma b2z_lxor (a b : bool) : Z.b2z (xorb a b) = Z.lxor (Z.b2z a) (Z.b2z b).
Proof. destruct a, b; reflexivity. Qed.

Lemma track_xor_window (t : Z) (stream : list Z) (i : nat) (rhs : list Z) :
  track t (xor_window stream i rhs) = xor_window (track t stream) i (track t rhs).
Proof.
  revert stream rhs. induction i as [|i IH]; intros stream rhs.
  - revert stream. induction rhs as [|m rhs IHr]; intros [|x stream].
    + reflexivity.
    + change (track t []) with (@nil Z). rewrite !xor_window_here_nil. reflexivity.
    + change (track t []) with (@nil Z). rewrite !xor_window_nil. reflexivity.
    + rewrite !track_cons, !xor_window_here_cons, track_cons, IHr.
      rewrite Z.lxor_spec, b2z_lxor. reflexivity.
  - destruct stream as [|x stream].
    + change (track t []) with (@nil Z). rewrite !xor_window_nil. reflexivity.
    + rewrite track_cons, !xor_window_later, track_cons, IH. reflexivity.
Qed.

Lemma testbit_astype_uint (bits : N) (c t : Z) :
  c = 0 \/ c = 1 -> 0 <= t < Z.of_N bits ->
  Z.testbit (astype (np_uint bits) (- c)) t = Z.testbit c 0.
Proof.
  intros Hc Ht. cbn [astype]. rewrite Z.mod_pow2_bits_low by lia.
  destruct Hc as [-> | ->]; [apply Z.bits_0|].
  change (- (1)) with (-1). rewrite Z.bits_m1 by lia. reflexivity.
Qed.

Lemma track_crc_step (bits : N) (t : Z) (pb stream : list Z) (i : nat) :
  Forall (fun c => c = 0 \/ c = 1) pb -> 0 <= t < Z.of_N bits ->
  track t (crc_step (map (fun c => astype (np_uint bits) (- c)) pb) stream i)
  = crc_step (map (fun c => astype np_bool (- c)) pb) (track t stream) i.
Proof.
  intros Hpb Ht. unfold crc_step. rewrite track_xor_window. f_equal.
  unfold track. rewrite !map_map.
  replace (nth i (map (fun x => Z.b2z (Z.testbit x t)) stream) 0)
    with (Z.b2z (Z.testbit (nth i stream 0) t)).
  - apply map_ext_in. intros c Hc. rewrite Forall_forall in Hpb.
    apply list_elem_of_In in Hc. specialize (Hpb c Hc).
    rewrite Z.land_spec, testbit_astype_uint by assumption.
    destruct Hpb as [-> | ->], (Z.testbit (nth i stream 0) t); reflexivity.
  - rewrite <- (map_nth (fun x => Z.b2z (Z.testbit x t))), Z.bits_0. reflexivity.
Qed.

Lemma track_foldl_crc_step (bits : N) (t : Z) (pb : list Z) (l : list nat) (stream : list Z) :
  Forall (fun c => c = 0 \/ c = 1) pb -> 0 <= t < Z.of_N bits ->
  track t (foldl (crc_step (map (fun c => astype (np_uint bits) (- c)) pb)) stream l)
  = foldl (crc_step (map (fun c => astype np_bool (- c)) pb)) (track t stream) l.
Proof.
  intros Hpb Ht. revert stream. induction l as [|i l IH]; intros stream; cbn [foldl];
    [reflexivity|].
  rewrite IH, track_crc_step by assumption. reflexivity.
Qed.

Lemma track_last_slice (t : Z) (n : nat) (stream : list Z) :
  track t (last_slice n stream) = last_slice n (track t stream).
Proof.
  unfold track. destruct n as [|n]; cbn [last_slice]; [reflexivity|].
  rewrite length_map. apply fmap_drop.
Qed.

(** Multi-track: every track of the result is the single-track result of
    that track of the input. *)
Lemma track_crc (bits : N) (t : Z) (self : crc) (stream : list Z) :
  Forall (fun c => c = 0 \/ c = 1) (pol_bin self) -> 0 <= t < Z.of_N bits ->
  track t (_crc (np_uint bits) self stream) = _crc np_bool self (track t stream).
Proof.
  intros Hpb Ht. unfold _crc.
  rewrite track_last_slice, track_foldl_crc_step by assumption.
  unfold track at 3. rewrite length_map. reflexivity.
Qed.

Lemma track_call (bits : N) (t : Z) (self : crc) (stream : list Z) :
  Forall (fun c => c = 0 \/ c = 1) (pol_bin self) -> 0 <= t < Z.of_N bits ->
  track t (call (np_uint bits) self stream) = call np_bool self (track t stream).
Proof.
  intros Hpb Ht. unfold call. rewrite track_crc by assumption. f_equal.
  unfold track. rewrite map_app. f_equal.
  induction (len self) as [|d IH]; cbn; [reflexivity|].
  rewrite Z.bits_0. cbn. f_equal. exact IH.
Qed.

(** With a polynomial of degree at least one, [__call__] returns exactly
    [len(self)] elements. *)
Lemma length_call (dt : dtype) (self : crc) (stream : list Z) :
  (1 <= len self)%nat -> length (call dt self stream) = len self.
Proof.
  intros Hd. apply length_crc. rewrite length_app, length_replicate. lia.
Qed.

Lemma zero_iff_tracks (x : Z) : x = 0 <-> forall t, 0 <= t -> Z.b2z (Z.testbit x t) = 0.
Proof.
  split.
  - intros -> t _. rewrite Z.bits_0. reflexivity.
  - intros H. apply Z.bits_inj'. intros t Ht. rewrite Z.bits_0.
    specialize (H t Ht). destruct (Z.testbit x t); [discriminate H|reflexivity].
Qed.

(** What [__call__] does with a polynomial of degree [d >= 1]: the
    stream is extended by [d] zeros, the positions [0 .. len(stream) - 1]
    (extended length minus [d], minus one) are visited in turn, and the
    last [d] elements of what is left are returned. *)
Lemma call_degree_ge1 (dt : dtype) (self : crc) (stream : list Z) :
  (1 <= len self)%nat ->
  call dt self stream
  = drop (length stream)
      (foldl (crc_step (map (fun c => astype dt (- c)) (pol_bin self)))
             (stream ++ replicate (len self) 0) (seq 0 (length stream)))
  /\ length (call dt self stream) = len self.
Proof.
  intros Hd. split; [|apply length_call; exact Hd].
  unfold call, _crc. rewrite length_app, length_replicate.
  replace (length stream + len self - len self)%nat with (length stream) by lia.
  destruct (len self) as [|d] eqn:E; [lia|]. cbn [last_slice].
  rewrite length_foldl_crc_step, length_app, length_replicate. f_equal. lia.
Qed.

(** *** Claims *)

(** C3, at the input where the code leaves it.  The polynomial [1] has one
    coefficient, hence degree 0; the stream is extended by no element,
    every position is cleared, and [stream[-0:]] is the whole stream: the
    returned remainder has three elements, not zero. *)
Theorem crc_degree0_returns_whole_stream :
  exists self,
    init 1 = Some self /\ len self = 0%nat
    /\ call np_bool self [1; 0; 1] = [0; 0; 0]
    /\ length (call np_bool self [1; 0; 1]) <> len self.
Proof.
  eexists. split; [reflexivity|]. split; [reflexivity|].
  split; [reflexivity|]. cbn. lia.
Qed.

(** C4.  For a positive polynomial and a stream of the dtype (one track of
    booleans, or unsigned words of parallel tracks), [check] accepts the
    stream followed by its computed remainder; and [check] accepts a
    stream exactly when every element of the remainder is zero, that is
    when every track of the remainder is zero. *)
Theorem crc_check_after_compute (polynomial : Z) (dt : dtype) (stream : list Z) :
  0 < polynomial -> Forall (in_dtype dt) stream ->
  exists self,
    init polynomial = Some self
    /\ check dt self (stream ++ call dt self stream) = true
    /\ (forall s, check dt self s = true
                  <-> Forall (fun x => x = 0) (_crc dt self s))
    /\ (forall s, check dt self s = true
                  <-> forall t, 0 <= t ->
                      Forall (fun b => b = 0) (track t (_crc dt self s))).
Proof.
  intros Hp Ht. destruct (init_positive polynomial Hp) as [rest Hinit].
  eexists. split; [exact Hinit|].
  set (self := {| polynomial := polynomial; pol_bin := 1 :: rest |}).
  assert (forall s, check dt self s = true <-> Forall (fun x => x = 0) (_crc dt self s)) as Hc.
  { intros s. unfold check. rewrite forallb_forall, Forall_forall.
    split; intros H x Hx.
    - apply Z.eqb_eq, H, list_elem_of_In, Hx.
    - apply Z.eqb_eq, H, list_elem_of_In, Hx. }
  split; [|split; [exact Hc|]].
  - unfold check. destruct rest as [|c rest].
    + assert (call dt self stream = replicate (length stream) 0) as ->.
      { unfold call. rewrite crc_degree0; [|reflexivity|].
        - cbn. rewrite app_nil_r. reflexivity.
        - cbn. rewrite app_nil_r. exact Ht. }
      rewrite crc_degree0; [apply forallb_zeros|reflexivity|].
      apply Forall_app. split; [exact Ht|].
      apply Forall_replicate, in_dtype_0.
    + rewrite crc_append_exact by (cbn; lia). apply forallb_zeros.
  - intros s. rewrite Hc. unfold track. split.
    + intros H t Ht'. apply Forall_map. eapply Forall_impl; [exact H|].
      cbn. intros x ->. rewrite Z.bits_0. reflexivity.
    + intros H. apply Forall_forall. intros x Hx. apply zero_iff_tracks.
      intros t Ht'. specialize (H t Ht'). rewrite Forall_map, Forall_forall in H.
      apply (H x Hx).
Qed.

Lemma crc_check_after_compute_witness :
  (0 < 6159 /\ Forall (in_dtype (np_uint 8)) [1; 2; 3; 255; 7])
  /\ exists self,
       init 6159 = Some self
       /\ check (np_uint 8) self ([1; 2; 3; 255; 7] ++ call (np_uint 8) self [1; 2; 3; 255; 7])
          = true.
Proof.
  assert (0 < 6159 /\ Forall (in_dtype (np_uint 8)) [1; 2; 3; 255; 7]) as H.
  { split; [lia|]. repeat constructor; cbn; lia. }
  split; [exact H|].
  destruct (crc_check_after_compute 6159 (np_uint 8) [1; 2; 3; 255; 7] (proj1 H) (proj2 H))
    as (self & Hinit & Hcheck & _).
  exists self. split; assumption.
Defined.

End CRC_facts.

(** ** Frame-rate inference *)

Module FrameRate_facts.
Import FrameRate.
Local Open Scope Z_scope.

Section Scan.

Variable fromfile : Z -> option (header * Z).

(** The second loop runs through the headers with a positive frame number
    and stops at the first one without, remembering the frame number of
    the header read before it. *)
Lemma count_frames_run (stop : header) (hs : list header) :
  frame_nr stop <= 0 ->
  forall (k : Z) (h : header) (fuel : nat) (m : option Z) (s : fh_state),
    0 < k -> counting_from k (h :: hs) ->
    frames_at fromfile (pos s + payloadsize h) (hs ++ [stop]) ->
    (length hs < fuel)%nat ->
    exists p,
      count_frames fromfile fuel h m s
      = Done (stop, Some (k + Z.of_nat (length hs)))
             {| pos := p; warned := warned s |}.
Proof.
  intros Hstop. induction hs as [|h' hs IH]; intros k h fuel m s Hk [Hh Hc] Hfr Hfuel.
  - destruct fuel as [|fuel]; [cbn in Hfuel; lia|].
    destruct Hfr as (p' & Hread & _).
    exists p'. cbn [count_frames].
    destruct (Z.ltb_spec 0 (frame_nr h)); [|lia].
    unfold mbind, M_bind, bind, seek_cur, read_header. cbn [pos warned].
    rewrite Hread. replace (k + Z.of_nat (length (@nil header))) with (frame_nr h)
      by (cbn [length]; lia).
    destruct fuel; cbn [count_frames];
      destruct (Z.ltb_spec 0 (frame_nr stop)); try lia; reflexivity.
  - destruct fuel as [|fuel]; [cbn in Hfuel; lia|].
    destruct Hfr as (p' & Hread & Hfr).
    destruct (IH (k + 1) h' fuel (Some (frame_nr h)) {| pos := p'; warned := warned s |})
      as [p Hrun]; [lia|exact Hc|exact Hfr|cbn in Hfuel |- *; lia|].
    exists p. cbn [count_frames].
    destruct (Z.ltb_spec 0 (frame_nr h)); [|lia].
    unfold mbind, M_bind, bind, seek_cur, read_header at 1. cbn [pos warned].
    rewrite Hread, Hrun. cbn [warned].
    replace (k + Z.of_nat (length (h' :: hs))) with (k + 1 + Z.of_nat (length hs))
      by (cbn [length]; lia).
    reflexivity.
Qed.

(** C8.  When the file holds frames numbered [0, 1, ..., N-1] ([N >= 2])
    of second [s0] and then a frame numbered 0, [get_frame_rate] returns
    [N] once the fuel covers the [N] frames; it issues its warning exactly
    when the seconds of that last header are not [s0 + 1], and returns [N]
    all the same. *)
Theorem get_frame_rate_counts_frames (s0 : Z) (hs : list header) (rollover : header)
    (fuel : nat) (s : fh_state) :
  (2 <= length hs)%nat ->
  counting_from 0 hs ->
  Forall (fun h => seconds h = s0) hs ->
  frame_nr rollover = 0 ->
  frames_at fromfile 0 (hs ++ [rollover]) ->
  (length hs <= fuel)%nat ->
  exists p,
    get_frame_rate fromfile fuel s
    = Done (Z.of_nat (length hs))
           {| pos := p;
              warned := if seconds rollover =? s0 + 1 then warned s
                        else warned s ++ [time_warning] |}.
Proof.
  intros HN Hcount Hsec Hroll Hfr Hfuel.
  destruct hs as [|h0 [|h1 hs]]; try (cbn in HN; lia).
  destruct Hcount as (Hn0 & Hcount).
  destruct Hfr as (p0 & Hread0 & p1 & Hread1 & Hfr).
  inversion Hsec as [|? ? Hs0 _]; subst.
  destruct fuel as [|fuel]; [cbn in Hfuel; lia|].
  destruct (count_frames_run rollover hs ltac:(lia) 1 h1 (S fuel) None
              {| pos := p1; warned := warned s |}) as [p Hrun].
  - lia.
  - exact Hcount.
  - exact Hfr.
  - cbn in Hfuel |- *. lia.
  - exists p. unfold get_frame_rate.
    unfold mbind, M_bind, bind, seek, read_header at 1. cbn [pos warned].
    rewrite Hread0, Hn0. cbn [Z.eqb]. unfold ret at 1.
    cbn [skip_first]. rewrite Hn0. cbn [Z.eqb].
    unfold mbind, M_bind, bind, seek_cur, read_header at 1. cbn [pos warned].
    rewrite Hread1.
    assert (frame_nr h1 = 1) as Hn1 by (destruct Hcount as [H _]; lia).
    assert (skip_first fromfile fuel h1 {| pos := p1; warned := warned s |}
            = Done h1 {| pos := p1; warned := warned s |}) as ->.
    { destruct fuel; cbn [skip_first]; rewrite Hn1; reflexivity. }
    rewrite Hrun.
    destruct (seconds rollover =? seconds h0 + 1); unfold ret, warn; cbn [pos warned];
      do 2 f_equal; cbn [length]; lia.
Qed.

End Scan.

Lemma get_frame_rate_counts_frames_witness :
  exists p,
    get_frame_rate (fromfile_of 16 (sample_frames 9)) 3 {| pos := 100; warned := [] |}
    = Done 3 {| pos := p; warned := [time_warning] |}.
Proof.
  apply (get_frame_rate_counts_frames (fromfile_of 16 (sample_frames 9)) 7
           (take 3 (sample_frames 9))
           {| frame_nr := 0; seconds := 9; payloadsize := 32 |} 3
           {| pos := 100; warned := [] |}).
  - cbn. lia.
  - cbn. repeat split.
  - repeat constructor.
  - reflexivity.
  - cbn [take sample_frames app frames_at payloadsize].
    repeat (eexists; split; [vm_compute; reflexivity|]). exact I.
  - cbn. lia.
Defined.

End FrameRate_facts.

(** ** VDIF payloads *)

Module VDIF_facts.
Import VDIF.
Local Open Scope Z_scope.

Section Tables.

Context {Level : Type}.
Variable decoder_levels : Z -> list Level.

Lemma arange_256_lookup (b : nat) (x : Z) :
  arange 0 256 1 !! b = Some x -> x = Z.of_nat b /\ (b < 256)%nat.
Proof.
  unfold arange. rewrite list_lookup_fmap.
  change (Z.to_nat ((256 - 0 + 1 - 1) / 1)) with 256%nat.
  destruct (seq 0 256 !! b) as [k|] eqn:E; [|discriminate].
  apply lookup_seq in E as [-> Hb]. cbn. intros [= <-]. split; [lia|exact Hb].
Qed.

Lemma length_arange_256 : length (arange 0 256 1) = 256%nat.
Proof. unfold arange. rewrite length_map, length_seq. reflexivity. Qed.

Lemma land_ones_bound (x n : Z) : 0 <= n -> 0 <= Z.land x (Z.ones n) < 2 ^ n.
Proof.
  intros Hn. rewrite Z.land_ones by assumption. apply Z.mod_pos_bound.
  apply Z.pow_pos_nonneg; lia.
Qed.

(** A table is built whenever the levels cover every group value, and
    each of its entries holds the levels of the groups of its byte. *)
Lemma lut_built (levels : list Level) (shifts : list Z) (n : Z) :
  0 <= n -> (Z.to_nat (2 ^ n) <= length levels)%nat ->
  exists table,
    lut levels shifts (Z.ones n) = Some table
    /\ length table = 256%nat
    /\ forall (b : nat) (row : list Level),
         table !! b = Some row ->
         length row = length shifts
         /\ forall (k : nat) (i : Z),
              shifts !! k = Some i ->
              is_Some (row !! k)
              /\ row !! k
                 = levels !! Z.to_nat (Z.land (Z.shiftr (Z.of_nat b) i) (Z.ones n)).
Proof.
  intros Hn Hlen.
  assert (is_Some (lut levels shifts (Z.ones n))) as [table Ht].
  { apply mapM_is_Some_2, Forall_forall. intros b _. cbn.
    apply mapM_is_Some_2, Forall_map, Forall_forall. intros i _. cbn.
    apply lookup_lt_is_Some_2.
    pose proof (land_ones_bound (Z.shiftr b i) n Hn). lia. }
  exists table. split; [exact Ht|].
  apply mapM_Some_1 in Ht.
  split; [rewrite <- (Forall2_length _ _ _ Ht); apply length_arange_256|].
  intros b row Hrow.
  destruct (Forall2_lookup_r _ _ _ _ _ Ht Hrow) as (x & Hx & Hfi).
  apply arange_256_lookup in Hx as [-> _].
  apply mapM_Some_1 in Hfi.
  split; [rewrite <- (Forall2_length _ _ _ Hfi); apply length_map|].
  intros k i Hk.
  assert (map (fun i => Z.land (Z.shiftr (Z.of_nat b) i) (Z.ones n)) shifts !! k
          = Some (Z.land (Z.shiftr (Z.of_nat b) i) (Z.ones n))) as Hm.
  { rewrite list_lookup_fmap, Hk. reflexivity. }
  destruct (Forall2_lookup_l _ _ _ _ _ Hfi Hm) as (lv & Hlv & Hlev).
  rewrite Hlv, Hlev. split; [eexists|]; reflexivity.
Qed.

Lemma lut_table_of (n : Z) (table : list (list Level)) :
  n = 1 \/ n = 2 \/ n = 4 ->
  (Z.to_nat (2 ^ n) <= length (decoder_levels n))%nat ->
  lut (decoder_levels n) (arange 0 8 n) (Z.ones n) = Some table ->
  table_of decoder_levels n table.
Proof.
  intros Hn Hlen Ht.
  destruct (lut_built (decoder_levels n) (arange 0 8 n) n) as (t & Ht' & Hl & Hrows);
    [lia|exact Hlen|].
  rewrite Ht in Ht'. injection Ht' as <-.
  split; [exact Hl|]. intros b row Hrow.
  destruct (Hrows b row Hrow) as [Hlr Hrow'].
  assert (length (arange 0 8 n) = Z.to_nat (8 / n)) as Hla
    by (destruct Hn as [-> | [-> | ->]]; reflexivity).
  split; [rewrite Hlr; exact Hla|].
  intros i Hi. unfold group.
  replace (2 ^ n - 1) with (Z.ones n) by (rewrite Z.ones_equiv; lia).
  apply Hrow'.
  destruct Hn as [-> | [-> | ->]];
    [change (Z.to_nat (8 / 1)) with 8%nat in Hi
    |change (Z.to_nat (8 / 2)) with 4%nat in Hi
    |change (Z.to_nat (8 / 4)) with 2%nat in Hi];
    repeat (destruct i as [|i]; [reflexivity|]); lia.
Qed.

(** [init_luts] returns the three tables [lut] builds. *)
Lemma init_luts_built :
  (2 <= length (decoder_levels 1))%nat ->
  (4 <= length (decoder_levels 2))%nat ->
  (16 <= length (decoder_levels 4))%nat ->
  exists lut1bit lut2bit lut4bit,
    init_luts decoder_levels = Some (lut1bit, lut2bit, lut4bit)
    /\ lut (decoder_levels 1) (arange 0 8 1) (Z.ones 1) = Some lut1bit
    /\ lut (decoder_levels 2) (arange 0 8 2) (Z.ones 2) = Some lut2bit
    /\ lut (decoder_levels 4) (arange 0 8 4) (Z.ones 4) = Some lut4bit.
Proof.
  intros H1 H2 H4. unfold init_luts.
  destruct (lut_built (decoder_levels 1) (arange 0 8 1) 1) as (t1 & Ht1 & _);
    [lia|exact H1|].
  destruct (lut_built (decoder_levels 2) (arange 0 8 2) 2) as (t2 & Ht2 & _);
    [lia|exact H2|].
  destruct (lut_built (decoder_levels 4) (arange 0 8 4) 4) as (t4 & Ht4 & _);
    [lia|exact H4|].
  exists t1, t2, t4. split; [|auto].
  change (Z.ones 1) with 1 in Ht1. change (Z.ones 2) with 3 in Ht2.
  change (Z.ones 4) with 15 in Ht4.
  rewrite Ht1. cbn [mbind option_bind]. rewrite Ht2. cbn [mbind option_bind].
  rewrite Ht4. reflexivity.
Qed.

(** C5.  With a decoder-levels table of at least [2^n] levels for each of
    the depths 1, 2 and 4, [init_luts] builds three tables, each of 256
    entries of [8/n] levels, the [i]-th level of entry [b] being the
    decoder level of the [i]-th [n]-bit group of [b], least significant
    group first. *)
Theorem init_luts_tables :
  (2 <= length (decoder_levels 1))%nat ->
  (4 <= length (decoder_levels 2))%nat ->
  (16 <= length (decoder_levels 4))%nat ->
  exists lut1bit lut2bit lut4bit,
    init_luts decoder_levels = Some (lut1bit, lut2bit, lut4bit)
    /\ table_of decoder_levels 1 lut1bit
    /\ table_of decoder_levels 2 lut2bit
    /\ table_of decoder_levels 4 lut4bit.
Proof.
  intros H1 H2 H4.
  destruct (init_luts_built H1 H2 H4) as (t1 & t2 & t4 & Hinit & Ht1 & Ht2 & Ht4).
  exists t1, t2, t4. split; [exact Hinit|].
  split; [|split].
  - apply lut_table_of; [left; reflexivity|exact H1|exact Ht1].
  - apply lut_table_of; [right; left; reflexivity|exact H2|exact Ht2].
  - apply lut_table_of; [right; right; reflexivity|exact H4|exact Ht4].
Qed.

End Tables.

Lemma init_luts_tables_witness :
  exists lut1bit lut2bit lut4bit,
    init_luts Sample.decoder_levels = Some (lut1bit, lut2bit, lut4bit)
    /\ table_of Sample.decoder_levels 2 lut2bit.
Proof.
  destruct (init_luts_tables Sample.decoder_levels) as (t1 & t2 & t4 & H & _ & H2 & _).
  - vm_compute. lia.
  - vm_compute. lia.
  - vm_compute. lia.
  - exists t1, t2, t4. split; assumption.
Defined.

Section TwoBit.

Context {Level : Type}.
Variable decoder_levels : Z -> list Level.
Variable encode_2bit_base : Level -> Z.

Lemma reshape4_rows {A} (n : nat) (values : list A) :
  length values = (4 * n)%nat ->
  exists rows,
    reshape4 values = Some rows /\ concat rows = values
    /\ Forall (fun row => exists a b c d, row = [a; b; c; d]) rows.
Proof.
  revert values. induction n as [|n IH]; intros values Hlen.
  - destruct values; [|discriminate Hlen]. exists []. repeat split. constructor.
  - destruct values as [|a [|b [|c [|d values]]]]; try (cbn in Hlen; lia).
    destruct (IH values) as (rows & Hr & Hc & Hf); [cbn in Hlen; lia|].
    exists ([a; b; c; d] :: rows). cbn [reshape4]. rewrite Hr.
    split; [reflexivity|]. split; [cbn; rewrite Hc; reflexivity|].
    constructor; [eauto|exact Hf].
Qed.

Lemma pack_four (c0 c1 c2 c3 : nat) :
  (c0 < 4)%nat -> (c1 < 4)%nat -> (c2 < 4)%nat -> (c3 < 4)%nat ->
  let codes := map Z.of_nat [c0; c1; c2; c3] in
  let byte := foldl Z.lor 0 (zip_with shl_uint8 codes shift2bit) in
  byte = pack_codes 2 0 codes
  /\ (Z.to_nat byte < 256)%nat
  /\ Z.land (Z.shiftr byte (8 * 0)) 255 = byte
  /\ Z.to_nat (group 2 0 (Z.of_nat (Z.to_nat byte))) = c0
  /\ Z.to_nat (group 2 1 (Z.of_nat (Z.to_nat byte))) = c1
  /\ Z.to_nat (group 2 2 (Z.of_nat (Z.to_nat byte))) = c2
  /\ Z.to_nat (group 2 3 (Z.of_nat (Z.to_nat byte))) = c3.
Proof.
  intros H0 H1 H2 H3.
  assert (c0 = 0 \/ c0 = 1 \/ c0 = 2 \/ c0 = 3)%nat as E0 by lia.
  assert (c1 = 0 \/ c1 = 1 \/ c1 = 2 \/ c1 = 3)%nat as E1 by lia.
  assert (c2 = 0 \/ c2 = 1 \/ c2 = 2 \/ c2 = 3)%nat as E2 by lia.
  assert (c3 = 0 \/ c3 = 1 \/ c3 = 2 \/ c3 = 3)%nat as E3 by lia.
  clear H0 H1 H2 H3.
  destruct E0 as [-> | [-> | [-> | ->]]], E1 as [-> | [-> | [-> | ->]]],
    E2 as [-> | [-> | [-> | ->]]], E3 as [-> | [-> | [-> | ->]]];
    cbv zeta; repeat split;
    solve [vm_compute; reflexivity | apply Nat.ltb_lt; vm_compute; reflexivity].
Qed.

(** One row of four representable levels: the byte the encoder makes of
    it, and the entry of the table at that byte. *)
Lemma row_round_trip (table : list (list Level)) (a b c d : Level) :
  table_of decoder_levels 2 table ->
  quantiser_inverts_levels decoder_levels encode_2bit_base ->
  representable decoder_levels a -> representable decoder_levels b ->
  representable decoder_levels c -> representable decoder_levels d ->
  let codes := map encode_2bit_base [a; b; c; d] in
  let byte := foldl Z.lor 0 (zip_with shl_uint8 codes shift2bit) in
  byte = pack_codes 2 0 codes
  /\ Z.land (Z.shiftr byte (8 * 0)) 255 = byte
  /\ table !! Z.to_nat byte = Some [a; b; c; d].
Proof.
  intros [Hlen Htab] Hq (c0 & H0 & L0) (c1 & H1 & L1) (c2 & H2 & L2) (c3 & H3 & L3).
  cbn [map].
  rewrite (Hq c0 a H0 L0), (Hq c1 b H1 L1), (Hq c2 c H2 L2), (Hq c3 d H3 L3).
  destruct (pack_four c0 c1 c2 c3 H0 H1 H2 H3) as (Hp & Hb & Hv & G0 & G1 & G2 & G3).
  cbn [map] in Hp, Hb, Hv, G0, G1, G2, G3.
  split; [exact Hp|]. split; [exact Hv|].
  set (byte := foldl Z.lor 0 _) in *.
  destruct (lookup_lt_is_Some_2 table (Z.to_nat byte)) as [row Hrow]; [lia|].
  rewrite Hrow. f_equal.
  destruct (Htab _ _ Hrow) as [Hl Hi].
  change (Z.to_nat (8 / 2)) with 4%nat in Hl, Hi.
  destruct row as [|r0 [|r1 [|r2 [|r3 [|r4 row]]]]]; try discriminate Hl.
  destruct (Hi 0%nat ltac:(lia)) as [_ E0]. destruct (Hi 1%nat ltac:(lia)) as [_ E1].
  destruct (Hi 2%nat ltac:(lia)) as [_ E2]. destruct (Hi 3%nat ltac:(lia)) as [_ E3].
  change (Z.of_nat 0) with 0 in E0. change (Z.of_nat 1) with 1 in E1.
  change (Z.of_nat 2) with 2 in E2. change (Z.of_nat 3) with 3 in E3.
  rewrite G0, L0 in E0. rewrite G1, L1 in E1. rewrite G2, L2 in E2. rewrite G3, L3 in E3.
  cbn in E0, E1, E2, E3. congruence.
Qed.

(** C1.  For an array of representable 2-bit levels whose length is a
    multiple of 4, with a quantiser that sends each level to its code:
    [encode_2bit] makes one byte of every four consecutive values, the
    [i]-th code shifted left by [2 * i] bits and the four ORed together;
    and [decode_2bit] of these bytes returns the same levels, in the same
    order, four to a byte. *)
Theorem encode_decode_2bit_round_trip (values : list Level) :
  (2 <= length (decoder_levels 1))%nat ->
  (4 <= length (decoder_levels 2))%nat ->
  (16 <= length (decoder_levels 4))%nat ->
  quantiser_inverts_levels decoder_levels encode_2bit_base ->
  Forall (representable decoder_levels) values ->
  (length values `mod` 4 = 0)%nat ->
  exists rows,
    reshape4 values = Some rows
    /\ concat rows = values
    /\ encode_2bit encode_2bit_base values
       = Ok {| itemsize := 1;
               items := map (fun row => pack_codes 2 0 (map encode_2bit_base row)) rows |}
    /\ decode_2bit decoder_levels
         {| itemsize := 1;
            items := map (fun row => pack_codes 2 0 (map encode_2bit_base row)) rows |}
       = Ok rows.
Proof.
  intros H1 H2 H4 Hq Hrep Hlen.
  destruct (reshape4_rows (length values / 4) values) as (rows & Hr & Hc & Hf).
  { pose proof (Nat.div_mod_eq (length values) 4). lia. }
  destruct (init_luts_built decoder_levels H1 H2 H4) as (t1 & t2 & t4 & Hinit & _ & Hl2 & _).
  assert (table_of decoder_levels 2 t2) as Ht2
    by (apply lut_table_of; [right; left; reflexivity|exact H2|exact Hl2]).
  assert (Forall (fun row =>
            let byte := foldl Z.lor 0
                          (zip_with shl_uint8 (map encode_2bit_base row) shift2bit) in
            byte = pack_codes 2 0 (map encode_2bit_base row)
            /\ Z.land (Z.shiftr byte (8 * 0)) 255 = byte
            /\ t2 !! Z.to_nat byte = Some row) rows) as Hrows.
  { rewrite <- Hc in Hrep. apply Forall_concat in Hrep.
    rewrite Forall_forall in Hrep, Hf |- *. intros row Hrow.
    destruct (Hf row Hrow) as (a & b & c & d & ->).
    specialize (Hrep _ Hrow).
    inversion Hrep as [|? ? Ha Hrep1]; subst. inversion Hrep1 as [|? ? Hb Hrep2]; subst.
    inversion Hrep2 as [|? ? Hc' Hrep3]; subst. inversion Hrep3 as [|? ? Hd _]; subst.
    apply row_round_trip; assumption. }
  assert (map (fun row => foldl Z.lor 0
                 (zip_with shl_uint8 (map encode_2bit_base row) shift2bit)) rows
          = map (fun row => pack_codes 2 0 (map encode_2bit_base row)) rows) as Hbytes.
  { apply map_ext_Forall. eapply Forall_impl; [exact Hrows|]. cbn. tauto. }
  exists rows. split; [exact Hr|]. split; [exact Hc|]. split.
  - unfold encode_2bit. rewrite Hr. cbn [of_option mbind result_bind].
    rewrite Hbytes. reflexivity.
  - unfold decode_2bit, lut2bit. rewrite Hinit. cbn [fmap option_fmap option_map of_option
      mbind result_bind fst snd].
    rewrite <- Hbytes.
    assert (view_uint8 {| itemsize := 1;
              items := map (fun row => foldl Z.lor 0
                         (zip_with shl_uint8 (map encode_2bit_base row) shift2bit)) rows |}
            = map (fun row => foldl Z.lor 0
                         (zip_with shl_uint8 (map encode_2bit_base row) shift2bit)) rows) as ->.
    { unfold view_uint8. cbn [items itemsize]. clear Hbytes Hr Hc Hf.
      induction Hrows as [|row rows (_ & Hv & _) _ IH]; [reflexivity|].
      cbn [map mbind list_bind app le_bytes seq]. cbn [map] in IH.
      rewrite IH. change (Z.of_nat 0) with 0. rewrite Hv. reflexivity. }
    unfold take_rows. erewrite mapM_Some_2; [reflexivity|].
    apply Forall2_fmap_l, Forall_Forall2_diag.
    eapply Forall_impl; [exact Hrows|]. cbn. tauto.
Qed.

End TwoBit.

Lemma sample_quantiser_inverts_levels :
  quantiser_inverts_levels Sample.decoder_levels Sample.encode_2bit_base.
Proof.
  intros c v Hc Hv.
  do 4 (destruct c as [|c]; [injection Hv as <-; reflexivity|]). lia.
Qed.

Lemma encode_decode_2bit_round_trip_witness :
  exists rows,
    concat rows = [-3; 1; 3; -1; 1; 1; -3; 3]
    /\ decode_2bit Sample.decoder_levels
         {| itemsize := 1;
            items := map (fun row => pack_codes 2 0 (map Sample.encode_2bit_base row)) rows |}
       = Ok rows.
Proof.
  destruct (encode_decode_2bit_round_trip Sample.decoder_levels Sample.encode_2bit_base
              [-3; 1; 3; -1; 1; 1; -3; 3]) as (rows & _ & Hc & _ & Hd).
  - vm_compute. lia.
  - vm_compute. lia.
  - vm_compute. lia.
  - exact sample_quantiser_inverts_levels.
  - repeat constructor;
      first [ by (exists 0%nat; split; [lia|reflexivity])
            | by (exists 1%nat; split; [lia|reflexivity])
            | by (exists 2%nat; split; [lia|reflexivity])
            | by (exists 3%nat; split; [lia|reflexivity]) ].
  - reflexivity.
  - exists rows. split; assumption.
Defined.

Section Registry.

Context {Level : Type}.
Variable decoder_levels : Z -> list Level.
Variable decode_8bit : @decoder Level.

Lemma view_uint8_bytes (words : uarray) :
  Forall (fun b => (Z.to_nat b < 256)%nat) (view_uint8 words).
Proof.
  unfold view_uint8. apply Forall_bind, Forall_forall. intros w _.
  unfold le_bytes. apply Forall_map, Forall_forall. intros k _. cbn.
  pose proof (land_ones_bound (Z.shiftr w (8 * Z.of_nat k)) 8 ltac:(lia)) as H.
  change (Z.ones 8) with 255 in H. change (2 ^ 8) with 256 in H. lia.
Qed.

(** A table of 256 entries has an entry for every byte of the words. *)
Lemma take_rows_bytes (table : list (list Level)) (words : uarray) :
  length table = 256%nat ->
  exists rows,
    take_rows table (view_uint8 words) = Some rows
    /\ Forall2 (fun b row => table !! Z.to_nat b = Some row) (view_uint8 words) rows.
Proof.
  intros Hlen.
  assert (is_Some (take_rows table (view_uint8 words))) as [rows Hrows].
  { apply mapM_is_Some_2. eapply Forall_impl; [apply view_uint8_bytes|].
    cbn. intros b Hb. apply lookup_lt_is_Some_2. lia. }
  exists rows. split; [exact Hrows|]. apply mapM_Some_1. exact Hrows.
Qed.

(** C2, as the code has it.  Decoders are registered for the bit depths
    2, 4 and 8 and for no other: none for depth 1, although [init_luts]
    builds its table.  With the tables built, the decoders of depths 2 and
    4 return, for every byte of the words, the entry of their table at
    that byte. *)
Theorem decoders_registered_2_4_8 :
  (2 <= length (decoder_levels 1))%nat ->
  (4 <= length (decoder_levels 2))%nat ->
  (16 <= length (decoder_levels 4))%nat ->
  _decoders decoder_levels decode_8bit !! 2 = Some (decode_2bit decoder_levels)
  /\ _decoders decoder_levels decode_8bit !! 4 = Some (decode_4bit decoder_levels)
  /\ _decoders decoder_levels decode_8bit !! 8 = Some decode_8bit
  /\ (forall bps, is_Some (_decoders decoder_levels decode_8bit !! bps)
                  <-> bps = 2 \/ bps = 4 \/ bps = 8)
  /\ _decoders decoder_levels decode_8bit !! 1 = None
  /\ (exists lut1bit, VDIF.lut1bit decoder_levels = Some lut1bit
                      /\ table_of decoder_levels 1 lut1bit)
  /\ (exists lut2bit, VDIF.lut2bit decoder_levels = Some lut2bit
        /\ table_of decoder_levels 2 lut2bit
        /\ forall words, exists rows,
             decode_2bit decoder_levels words = Ok rows
             /\ Forall2 (fun b row => lut2bit !! Z.to_nat b = Some row)
                        (view_uint8 words) rows)
  /\ (exists lut4bit, VDIF.lut4bit decoder_levels = Some lut4bit
        /\ table_of decoder_levels 4 lut4bit
        /\ forall words, exists rows,
             decode_4bit decoder_levels words = Ok rows
             /\ Forall2 (fun b row => lut4bit !! Z.to_nat b = Some row)
                        (view_uint8 words) rows).
Proof.
  intros H1 H2 H4.
  destruct (init_luts_built decoder_levels H1 H2 H4)
    as (t1 & t2 & t4 & Hinit & Hl1 & Hl2 & Hl4).
  assert (table_of decoder_levels 1 t1) as Ht1
    by (apply lut_table_of; [left; reflexivity|exact H1|exact Hl1]).
  assert (table_of decoder_levels 2 t2) as Ht2
    by (apply lut_table_of; [right; left; reflexivity|exact H2|exact Hl2]).
  assert (table_of decoder_levels 4 t4) as Ht4
    by (apply lut_table_of; [right; right; reflexivity|exact H4|exact Hl4]).
  split; [reflexivity|]. split; [reflexivity|]. split; [reflexivity|].
  split; [|split; [reflexivity|split; [|split]]].
  - intros bps. unfold _decoders. split.
    + intros Hs.
      destruct (decide (bps = 2)) as [|N2]; [tauto|].
      destruct (decide (bps = 4)) as [|N4]; [tauto|].
      destruct (decide (bps = 8)) as [|N8]; [tauto|].
      rewrite !lookup_insert_ne, lookup_empty in Hs by congruence.
      destruct Hs as [? Hs]. discriminate Hs.
    + intros [-> | [-> | ->]]; eexists; reflexivity.
  - exists t1. unfold VDIF.lut1bit. rewrite Hinit. split; [reflexivity|exact Ht1].
  - exists t2. unfold VDIF.lut2bit. rewrite Hinit. split; [reflexivity|].
    split; [exact Ht2|]. intros words.
    destruct (take_rows_bytes t2 words (proj1 Ht2)) as (rows & Hrows & Hall).
    exists rows. split; [|exact Hall].
    unfold decode_2bit, VDIF.lut2bit. rewrite Hinit. cbn. rewrite Hrows. reflexivity.
  - exists t4. unfold VDIF.lut4bit. rewrite Hinit. split; [reflexivity|].
    split; [exact Ht4|]. intros words.
    destruct (take_rows_bytes t4 words (proj1 Ht4)) as (rows & Hrows & Hall).
    exists rows. split; [|exact Hall].
    unfold decode_4bit, VDIF.lut4bit. rewrite Hinit. cbn. rewrite Hrows. reflexivity.
Qed.

End Registry.

(** C2 as stated fails: no decoder is registered for depth 1. *)
Lemma no_decoder_for_depth_1 :
  ~ is_Some (_decoders Sample.decoder_levels Sample.decode_8bit !! 1).
Proof. intros [d Hd]. discriminate Hd. Qed.

Lemma decoders_registered_2_4_8_witness :
  _decoders Sample.decoder_levels Sample.decode_8bit !! 1 = None
  /\ exists rows,
       decode_2bit Sample.decoder_levels {| itemsize := 4; items := [228; 27] |} = Ok rows.
Proof.
  destruct (decoders_registered_2_4_8 Sample.decoder_levels Sample.decode_8bit)
    as (_ & _ & _ & _ & Hnone & _ & (t2 & _ & _ & Hdec) & _).
  - vm_compute. lia.
  - vm_compute. lia.
  - vm_compute. lia.
  - split; [exact Hnone|].
    destruct (Hdec {| itemsize := 4; items := [228; 27] |}) as (rows & Hrows & _).
    exists rows. exact Hrows.
Defined.

Section Payload.

Context {Level : Type}.
Variable decoder_levels : Z -> list Level.
Variable encode_2bit_base : Level -> Z.
Variable encode_4bit_base : Level -> Z.
Variable decode_8bit : @decoder Level.
Variable encode_8bit : @encoder Level.
Variable Mark5B_decoders : gmap Z (@decoder Level).
Variable Mark5B_encoders : gmap Z (@encoder Level).
Variable Base : Type.
Variable VLBIPayloadBase_init :
  option Z -> uarray -> Z -> list Z -> bool -> result Base.
Variable word_size : nat.

Local Abbreviation init :=
  (__init__ decoder_levels encode_2bit_base encode_4bit_base decode_8bit encode_8bit
            Mark5B_decoders Mark5B_encoders Base VLBIPayloadBase_init).
Local Abbreviation from_data :=
  (fromdata decoder_levels encode_2bit_base encode_4bit_base decode_8bit encode_8bit
            Mark5B_decoders Mark5B_encoders Base VLBIPayloadBase_init word_size).
Local Abbreviation class_decoders := (_decoders decoder_levels decode_8bit).
Local Abbreviation class_encoders :=
  (_encoders encode_2bit_base encode_4bit_base encode_8bit).

(** The guard of the constructor: a header with the Mark5B tag and
    complex data is refused before anything is built. *)
Lemma init_Mark5B_complex (words : uarray) (header : header)
    (nchan bps : option Z) (complex_data : option bool) :
  h_edv header = Some 171 -> h_complex_data header = true ->
  init words (Some header) nchan bps complex_data = Err (ValueError Mark5B_complex).
Proof.
  intros Hedv Hc. unfold __init__. rewrite Hedv, Hc.
  rewrite bool_decide_eq_true_2 by reflexivity. reflexivity.
Qed.

(** With such a header [fromdata] produces no payload either: it fails on
    the way, or in the constructor it ends with. *)
Lemma fromdata_header_Mark5B_complex (data : ndarray Level) (header : header)
    (bps edv : option Z) :
  h_edv header = Some 171 -> kind_c data = true ->
  exists e, from_data data (Some header) bps edv = Err e.
Proof.
  intros Hedv Hc. unfold fromdata.
  destruct (last (shape data)) as [nchan|]; cbn [of_option mbind result_bind]; [|eauto].
  destruct (negb (h_nchan header =? nchan)); [eauto|].
  rewrite Hc. destruct (h_complex_data header) eqn:Hh; cbn [eqb negb]; [|eauto].
  cbn [mbind result_bind].
  rewrite Hedv, bool_decide_eq_true_2 by reflexivity.
  destruct (Mark5B_encoders !! h_bps header) as [enc|];
    cbn [of_option mbind result_bind]; [|eauto].
  destruct (enc (flat data)) as [bytes|]; cbn [mbind result_bind]; [|eauto].
  destruct (view_words word_size bytes) as [words|]; cbn [mbind result_bind]; [|eauto].
  rewrite init_Mark5B_complex by assumption. eauto.
Qed.

(** C9, where the code leaves it.  [fromdata] without a header and with
    [edv = 0xab] encodes complex data with the Mark5B encoder and builds
    the payload: the constructor is called without a header, so its guard
    is not reached.  Whenever the encoder, the view as words and the base
    constructor succeed, a payload comes out. *)
Theorem fromdata_Mark5B_without_header_accepts_complex
    (data : ndarray Level) (nchan bps : Z) (enc : encoder) (bytes words : uarray)
    (b : Base) :
  kind_c data = true ->
  last (shape data) = Some nchan ->
  Mark5B_encoders !! bps = Some enc ->
  enc (flat data) = Ok bytes ->
  view_words word_size bytes = Ok words ->
  VLBIPayloadBase_init None words bps [nchan] true = Ok b ->
  from_data data None (Some bps) (Some 171)
  = Ok {| base := b; nchan := nchan; _size := None;
          decoders := class_decoders; encoders := class_encoders |}.
Proof.
  intros Hc Hn Henc Hbytes Hwords Hbase. unfold fromdata.
  rewrite Hn. cbn [of_option mbind result_bind default].
  rewrite bool_decide_eq_true_2 by reflexivity. cbv [id].
  unfold encoder in Henc |- *. rewrite Henc. cbn [of_option mbind result_bind].
  rewrite Hbytes. cbn [mbind result_bind]. rewrite Hwords. cbn [mbind result_bind].
  unfold __init__. cbn [default]. cbv [id]. rewrite Hc, Hbase. reflexivity.
Qed.

(** C10.  Without a header and without keywords the constructor takes
    [nchan = 1], [bps = 2], [complex_data = False]: the base constructor
    is called with [bps = 2], the sample shape [(1,)] and real data, and
    the instance gets [nchan = 1] and the registries of the class.
    A payload so built has [decode_2bit] registered for depth 2.
    [fromdata] without a
    header and without [bps] encodes with the encoder registered for
    depth 2, [encode_2bit], and builds the payload with [bps = 2]. *)
Theorem payload_defaults (words : uarray) (data : ndarray Level) :
  init words None None None None = init words None (Some 1) (Some 2) (Some false)
  /\ init words None None None None
     = (base ← VLBIPayloadBase_init None words 2 [1] false;
        Ok {| base := base; nchan := 1; _size := None;
              decoders := class_decoders; encoders := class_encoders |})
  /\ from_data data None None None = from_data data None (Some 2) None
  /\ from_data data None None None
     = (nchan ← of_option IndexError (last (shape data));
        bytes ← encode_2bit encode_2bit_base (flat data);
        words ← view_words word_size bytes;
        init words None (Some nchan) (Some 2) (Some (kind_c data)))
  /\ (forall p, init words None None None None = Ok p ->
       nchan _ p = 1
       /\ VLBIPayloadBase_init None words 2 [1] false = Ok (base _ p)
       /\ decoders _ p !! 2 = Some (decode_2bit decoder_levels)).
Proof.
  split; [reflexivity|]. split; [reflexivity|].
  split; [reflexivity|]. split; [reflexivity|].
  intros p Hp. unfold __init__ in Hp. cbn [default] in Hp. cbv [id] in Hp.
  destruct (VLBIPayloadBase_init None words 2 [1] false) as [b|e];
    cbn [mbind result_bind] in Hp; [|discriminate Hp].
  injection Hp as <-. repeat split.
Qed.

End Payload.

Lemma payload_defaults_witness :
  exists p,
    __init__ Sample.decoder_levels Sample.encode_2bit_base Sample.encode_4bit_base
      Sample.decode_8bit Sample.encode_8bit Sample.Mark5B_decoders Sample.Mark5B_encoders
      Sample.base Sample.VLBIPayloadBase_init
      {| itemsize := 4; items := [228; 27] |} None None None None
    = Ok p
    /\ nchan _ p = 1
    /\ Sample.bps (base _ p) = 2
    /\ Sample.sample_shape (base _ p) = [1]
    /\ Sample.complex_data (base _ p) = false.
Proof.
  eexists. split; [reflexivity|].
  destruct (payload_defaults Sample.decoder_levels Sample.encode_2bit_base
              Sample.encode_4bit_base Sample.decode_8bit Sample.encode_8bit
              Sample.Mark5B_decoders Sample.Mark5B_encoders Sample.base
              Sample.VLBIPayloadBase_init Sample.word_size
              {| itemsize := 4; items := [228; 27] |} Sample.complex_samples)
    as (_ & _ & _ & _ & H).
  destruct (H _ eq_refl) as (Hn & _ & _).
  split; [exact Hn|]. repeat split.
Defined.

Lemma fromdata_Mark5B_without_header_accepts_complex_witness :
  exists p,
    fromdata Sample.decoder_levels Sample.encode_2bit_base Sample.encode_4bit_base
      Sample.decode_8bit Sample.encode_8bit Sample.Mark5B_decoders Sample.Mark5B_encoders
      Sample.base Sample.VLBIPayloadBase_init Sample.word_size
      Sample.complex_samples None (Some 2) (Some 171)
    = Ok p
    /\ Sample.complex_data (base _ p) = true.
Proof.
  eexists. split.
  - eapply (fromdata_Mark5B_without_header_accepts_complex
              Sample.decoder_levels Sample.encode_2bit_base Sample.encode_4bit_base
              Sample.decode_8bit Sample.encode_8bit Sample.Mark5B_decoders
              Sample.Mark5B_encoders Sample.base Sample.VLBIPayloadBase_init
              Sample.word_size Sample.complex_samples 1 2); reflexivity.
  - reflexivity.
Defined.

End VDIF_facts.

(** * Part III: further properties of the code *)

(** ** Packed decimal: the other direction, signs, termination *)

Module BCD_extra.
Import PyText PyText_facts BCD BCD_facts.
Local Open Scope Z_scope.

(** [int('-' + digits, pb)] of a negative number written in base [fb]. *)
Lemma py_int_format_neg (pb fb v : Z) :
  0 < v -> 2 <= fb <= 16 -> 0 < pb ->
  py_int pb (format_int fb (- v))
  = if forallb (fun d => d <? pb) (digits_le fb (digit_fuel v) v)
    then Some (- reweigh pb (digits_le fb (digit_fuel v) v)) else None.
Proof.
  intros Hv Hfb Hpb. unfold format_int, py_int.
  destruct (Z.ltb_spec (- v) 0) as [_|?]; [|lia].
  rewrite Z.abs_opp, Z.abs_eq by lia.
  destruct (Z.eqb_spec v 0) as [?|_]; [lia|].
  cbn [list_ascii_of_string]. rewrite list_ascii_of_string_of_list_ascii.
  change (Ascii.eqb "-" "-") with true. cbv iota.
  assert (Forall (fun d => 0 <= d < 16) (digits_le fb (digit_fuel v) v)) as Hr.
  { eapply Forall_impl; [apply digits_le_range; lia|]. simpl. intros; lia. }
  apply Forall_rev_range in Hr.
  rewrite <- (forallb_rev _ (digits_le _ _ _)), <- fold_left_rev_reweigh.
  destruct (rev (digits_le fb (digit_fuel v) v)) as [|d ds] eqn:E.
  - apply (f_equal (@rev Z)) in E. rewrite rev_involutive in E.
    rewrite digits_le_step in E by lia. discriminate E.
  - rewrite <- E in *. rewrite parse_digits_map by exact Hr.
    rewrite E. cbn [map]. rewrite <- E.
    destruct (forallb _ _); reflexivity.
Qed.

Lemma bcd_decode_encode_ref (f : nat) (v : Z) :
  0 <= v < 2 ^ Z.of_nat f -> valid_bcd v ->
  bcd_encode_ref (bcd_decode_ref v) = v.
Proof.
  revert v. induction f as [|f IH]; intros v Hv Hval.
  - simpl in Hv. assert (v = 0) as -> by lia. reflexivity.
  - destruct (Z.eq_dec v 0) as [->|Hne]; [reflexivity|].
    apply valid_bcd_step in Hval as [Hd Hval].
    assert (0 <= v / 16 < 2 ^ Z.of_nat f) as Hq.
    { split; [apply Z.div_pos; lia|apply div_lt_pow2; lia]. }
    pose proof (bcd_decode_ref_bounds f _ Hq) as Hb.
    pose proof (Z.mod_pos_bound v 16 ltac:(lia)) as Hm.
    rewrite bcd_decode_ref_step by lia.
    rewrite bcd_encode_ref_step by lia.
    rewrite (Z.mul_comm 10), Z.mod_add, Z.div_add by lia.
    rewrite (Z.mod_small (v mod 16)), (Z.div_small (v mod 16)) by lia.
    rewrite Z.add_0_l, (IH _ Hq Hval).
    pose proof (Z.div_mod v 16 ltac:(lia)). lia.
Qed.

(** X1.  Decoding a valid non-negative BCD integer and encoding the
    result gives the integer back. *)
Theorem bcd_encode_decode_round_trip (v : Z) :
  0 <= v -> valid_bcd v ->
  exists d,
    bcd_decode (PyInt v) = Some (Return (PyInt d))
    /\ 0 <= d <= v
    /\ bcd_encode (PyInt d) = Some (PyInt v).
Proof.
  intros Hv Hval.
  assert (0 <= v < 2 ^ Z.of_nat (digit_fuel v)) as Hf
    by (split; [lia|apply lt_digit_fuel]).
  exists (bcd_decode_ref v).
  pose proof (bcd_decode_ref_bounds _ _ Hf) as Hb.
  split; [|split; [exact Hb|]].
  - rewrite bcd_decode_scalar by exact Hv.
    apply valid_bcdb_spec in Hval; [|exact Hv]. rewrite Hval. reflexivity.
  - rewrite bcd_encode_scalar by lia.
    rewrite (bcd_decode_encode_ref _ _ Hf Hval). reflexivity.
Qed.

Lemma bcd_encode_decode_round_trip_witness :
  exists d,
    bcd_decode (PyInt 6535) = Some (Return (PyInt d))
    /\ 0 <= d <= 6535
    /\ bcd_encode (PyInt d) = Some (PyInt 6535).
Proof.
  apply (bcd_encode_decode_round_trip 6535); [lia|].
  apply valid_bcdb_spec; [lia|reflexivity].
Defined.

Lemma bcd_decode_ref_pos (f : nat) (v : Z) :
  0 < v < 2 ^ Z.of_nat f -> valid_bcd v -> 0 < bcd_decode_ref v.
Proof.
  revert v. induction f as [|f IH]; intros v Hv Hval.
  - simpl in Hv. lia.
  - apply valid_bcd_step in Hval as [Hd Hval].
    rewrite bcd_decode_ref_step by lia.
    pose proof (Z.mod_pos_bound v 16 ltac:(lia)) as Hm.
    destruct (Z.eq_dec (v / 16) 0) as [E|Hne].
    + rewrite E. pose proof (Z.div_mod v 16 ltac:(lia)). cbn. lia.
    + assert (0 < bcd_decode_ref (v / 16)); [|lia].
      apply IH; [|exact Hval].
      split; [|apply div_lt_pow2; lia].
      assert (0 <= v / 16) by (apply Z.div_pos; lia). lia.
Qed.

(** X2.  For an array of valid non-negative BCD values with a positive
    element, decoding and encoding the result gives the array back; no
    number on the way exceeds the element it comes from.  For an array of
    zeros the decoded array encodes to the integer 0, not to an array. *)
Theorem bcd_array_encode_decode_round_trip (a : list Z) :
  Forall (fun x => 0 <= x) a -> Forall valid_bcd a ->
  exists d,
    bcd_decode (NDArray a) = Some (Return (NDArray d))
    /\ Forall2 (fun x y => 0 <= y <= x) a d
    /\ bcd_encode (NDArray d)
       = Some (if np_any (fun x => 0 <? x) a then NDArray a else PyInt 0).
Proof.
  intros Hpos Hval. exists (map bcd_decode_ref a).
  split; [apply bcd_decode_array_valid; assumption|]. split.
  - apply Forall2_fmap_r, Forall_Forall2_diag.
    eapply Forall_impl; [exact Hpos|]. cbn. intros x Hx.
    apply (bcd_decode_ref_bounds (digit_fuel x)).
    split; [exact Hx|apply lt_digit_fuel].
  - rewrite bcd_encode_array.
    + assert (np_any (fun x => 0 <? x) (map bcd_decode_ref a)
              = np_any (fun x => 0 <? x) a) as ->.
      { unfold np_any. clear -Hpos Hval.
        induction a as [|x a IH]; [reflexivity|].
        inversion Hpos as [|? ? Hx Hpos']; inversion Hval as [|? ? Hv Hval']; subst.
        cbn [map existsb]. rewrite IH by assumption. f_equal.
        destruct (Z.ltb_spec 0 x) as [Hp|Hp].
        - apply Z.ltb_lt. apply (bcd_decode_ref_pos (digit_fuel x)); [|exact Hv].
          split; [exact Hp|apply lt_digit_fuel].
        - apply Z.ltb_ge. rewrite bcd_decode_ref_nonpos by exact Hp. lia. }
      destruct (np_any _ a); [|reflexivity]. do 2 f_equal.
      rewrite map_map. rewrite <- (map_id a) at 2. apply map_ext_Forall.
      rewrite Forall_forall in Hpos, Hval |- *. intros x Hx.
      apply (bcd_decode_encode_ref (digit_fuel x)); [|auto].
      split; [auto|apply lt_digit_fuel].
    + apply Forall_map. eapply Forall_impl; [exact Hpos|]. cbn. intros x Hx.
      apply (bcd_decode_ref_bounds (digit_fuel x)).
      split; [exact Hx|apply lt_digit_fuel].
Qed.

Lemma bcd_array_encode_decode_round_trip_witness :
  exists d,
    bcd_decode (NDArray [18; 39; 0]) = Some (Return (NDArray d))
    /\ Forall2 (fun x y => 0 <= y <= x) [18; 39; 0] d
    /\ bcd_encode (NDArray d) = Some (NDArray [18; 39; 0]).
Proof.
  apply (bcd_array_encode_decode_round_trip [18; 39; 0]).
  - repeat constructor; lia.
  - repeat constructor; (apply valid_bcdb_spec; [lia|reflexivity]).
Defined.

Lemma first_where_elem (p : Z -> bool) (value digit : list Z) :
  length digit = length value -> np_any p digit = true ->
  first_where p value digit ∈ value.
Proof.
  revert digit. induction value as [|v value IH]; intros [|d digit] Hl Hany;
    try discriminate Hl; try discriminate Hany.
  cbn [first_where]. cbn [np_any existsb] in Hany.
  destruct (p d); [left|]. right. apply IH; [cbn in Hl; lia|exact Hany].
Qed.

(** The loop of [bcd_decode] with enough fuel for its largest element: it
    ends, with an array as long as the input or with an element of the
    input as offender. *)
Lemma decode_loop_outcome (fuel : nat) (value bcd : list Z) (factor : Z)
    (result : list Z) :
  length bcd = length value -> length result = length value ->
  Forall (fun b => b < 2 ^ Z.of_nat fuel) bcd ->
  (exists r, decode_loop fuel value bcd factor result = Some (Return r)
             /\ length r = length value)
  \/ (exists x, decode_loop fuel value bcd factor result = Some (InvalidBCD x)
                /\ x ∈ value).
Proof.
  revert bcd factor result.
  induction fuel as [|fuel IH]; intros bcd factor result Hlb Hlr Hb.
  - assert (np_any (fun x => 0 <? x) bcd = false) as Hany.
    { apply np_any_false. eapply Forall_impl; [exact Hb|]. simpl.
      intros b Hr. apply Z.ltb_ge. lia. }
    left. exists result. simpl. rewrite Hany. split; [reflexivity|exact Hlr].
  - cbn [decode_loop].
    destruct (np_any (fun x => 0 <? x) bcd); [|left; exists result; split; auto].
    destruct (np_any (fun d => 9 <? d) (map (fun x => x mod 16) bcd)) eqn:Hbad.
    + right. eexists. split; [reflexivity|].
      apply first_where_elem; [rewrite length_map; exact Hlb|exact Hbad].
    + apply IH.
      * rewrite length_map. exact Hlb.
      * rewrite length_zip_with, length_map. lia.
      * apply Forall_map. eapply Forall_impl; [exact Hb|]. simpl. intros b Hr.
        assert (0 < 2 ^ Z.of_nat fuel) by (apply Z.pow_pos_nonneg; lia).
        destruct (Z_lt_le_dec 0 b) as [Hp|Hp]; [apply div_lt_pow2; lia|].
        assert (b / 16 <= 0) by (apply Z.div_le_upper_bound; lia). lia.
Qed.

(** X3.  The [while] loop of [bcd_decode] comes to an end on every array
    of integers, negative elements included: the call returns an array
    as long as its argument, or raises the error, which then names an
    element of the argument. *)
Theorem bcd_decode_array_returns_or_raises (a : list Z) :
  (exists r, bcd_decode (NDArray a) = Some (Return (NDArray r))
             /\ length r = length a)
  \/ (exists x, bcd_decode (NDArray a) = Some (InvalidBCD x) /\ x ∈ a).
Proof.
  unfold bcd_decode.
  destruct (decode_loop_outcome (array_fuel a) a a 1 (map (fun _ => 0) a))
    as [(r & Hr & Hl)|(x & Hx & Hin)].
  - reflexivity.
  - apply length_map.
  - apply array_fuel_bound.
  - left. exists r. rewrite Hr. split; [reflexivity|exact Hl].
  - right. exists x. rewrite Hx. split; [reflexivity|exact Hin].
Qed.

(** X4.  Signs.  A negative integer is decoded through its magnitude and
    keeps its sign, or is refused when a digit of the magnitude exceeds 9.
    An array without a positive element never enters the loop: it decodes
    to zeros, its elements unexamined. *)
Theorem bcd_decode_negative (v : Z) (a : list Z) :
  0 < v -> Forall (fun x => x <= 0) a ->
  bcd_decode (PyInt (- v))
  = Some (if valid_bcdb v then Return (PyInt (- bcd_decode_ref v))
          else InvalidBCD (- v))
  /\ bcd_decode (NDArray a) = Some (Return (NDArray (map (fun _ => 0) a))).
Proof.
  intros Hv Ha. split.
  - unfold bcd_decode. rewrite py_int_format_neg by lia.
    rewrite forallb_lt10_le9. fold (valid_bcdb v).
    destruct (valid_bcdb v); reflexivity.
  - unfold bcd_decode.
    assert (np_any (fun x => 0 <? x) a = false) as Hany.
    { apply np_any_false. eapply Forall_impl; [exact Ha|]. simpl.
      intros b Hb. apply Z.ltb_ge. exact Hb. }
    destruct (array_fuel a); cbn [decode_loop]; rewrite Hany; reflexivity.
Qed.

Lemma bcd_decode_negative_witness :
  bcd_decode (PyInt (- 18)) = Some (Return (PyInt (- 12)))
  /\ bcd_decode (NDArray [- 18; 0]) = Some (Return (NDArray [0; 0])).
Proof.
  apply (bcd_decode_negative 18 [- 18; 0]); [lia|].
  repeat constructor; lia.
Defined.

End BCD_extra.

(** ** Cyclic redundancy check: the polynomial, dtypes, linearity, errors *)

Module CRC_extra.
Import PyText PyText_facts CRC CRC_facts.
Local Open Scope Z_scope.

(** *** The polynomial *)

Lemma reweigh_digits (base : Z) (f : nat) (v : Z) :
  2 <= base -> 0 <= v < 2 ^ Z.of_nat f ->
  reweigh base (digits_le base f v) = v.
Proof.
  intros Hb. revert v. induction f as [|f IH]; intros v Hv.
  - simpl in Hv. assert (v = 0) as -> by lia. reflexivity.
  - rewrite digits_le_S. destruct (Z.ltb_spec 0 v) as [Hp|Hp].
    + cbn [reweigh]. rewrite IH.
      * pose proof (Z.div_mod v base ltac:(lia)). lia.
      * split; [apply Z.div_pos; lia|apply div_lt_pow2; lia].
    + cbn. lia.
Qed.

Lemma length_digits_le_2 (f : nat) (n : Z) :
  0 < n < 2 ^ Z.of_nat f ->
  length (digits_le 2 f n) = S (Z.to_nat (Z.log2 n)).
Proof.
  revert n. induction f as [|f IH]; intros n Hn.
  - simpl in Hn. lia.
  - rewrite digits_le_S. destruct (Z.ltb_spec 0 n); [|lia]. cbn [length]. f_equal.
    destruct (Z.eq_dec n 1) as [->|Hne].
    + change (1 / 2) with 0. rewrite digits_le_nonpos by lia. reflexivity.
    + rewrite IH.
      * change 2 with (2 ^ 1) at 1. rewrite <- Z.shiftr_div_pow2 by lia.
        rewrite Z.log2_shiftr by lia.
        assert (0 < Z.log2 n) by (apply Z.log2_pos; lia). lia.
      * split; [apply Z.div_str_pos; lia|apply div_lt_pow2; lia].
Qed.

Lemma init_nonneg (p : Z) :
  0 <= p ->
  init p = Some {| polynomial := p;
                   pol_bin := if p =? 0 then [0]
                              else rev (digits_le 2 (digit_fuel p) p) |}.
Proof.
  intros Hp. unfold init, format_int.
  destruct (Z.ltb_spec p 0); [lia|]. rewrite Z.abs_eq by lia.
  rewrite list_ascii_of_string_of_list_ascii.
  change (map digit_char) with (fmap (M:=list) digit_char).
  rewrite mapM_fmap_Forall_Some; [reflexivity|].
  destruct (p =? 0).
  - repeat constructor.
  - apply Forall_forall. intros c Hc. apply py_int_digit.
    apply list_elem_of_In, in_rev, list_elem_of_In in Hc.
    pose proof (digits_le_range 2 (digit_fuel p) p ltac:(lia)) as Hr.
    rewrite Forall_forall in Hr. specialize (Hr c Hc). lia.
Qed.

Lemma init_negative (p : Z) : p < 0 -> init p = None.
Proof.
  intros Hp. unfold init, format_int.
  destruct (Z.ltb_spec p 0); [|lia]. reflexivity.
Qed.

Lemma init_binary (p : Z) :
  0 <= p ->
  exists self,
    init p = Some self /\ Forall (fun c => c = 0 \/ c = 1) (pol_bin self).
Proof.
  intros Hp. eexists. split; [apply init_nonneg; exact Hp|]. cbn [pol_bin].
  destruct (Z.eqb_spec p 0) as [->|Hne]; [repeat constructor|].
  apply Forall_forall. intros c Hc.
  apply list_elem_of_In, in_rev, list_elem_of_In in Hc.
  pose proof (digits_le_range 2 (digit_fuel p) p ltac:(lia)) as Hr.
  rewrite Forall_forall in Hr. specialize (Hr c Hc). lia.
Qed.

(** X5.  [CRC(polynomial)] raises for a negative polynomial.  For a
    non-negative one [pol_bin] holds its binary digits, most significant
    first: bits whose value is the polynomial, the first of them 1 and
    their number one more than [floor(log2(polynomial))] when the
    polynomial is positive, so that [len(crc)] is that logarithm. *)
Theorem init_pol_bin (p : Z) :
  (p < 0 -> init p = None)
  /\ (0 <= p ->
      exists self,
        init p = Some self
        /\ polynomial self = p
        /\ Forall (fun c => c = 0 \/ c = 1) (pol_bin self)
        /\ reweigh 2 (rev (pol_bin self)) = p
        /\ (0 < p -> head (pol_bin self) = Some 1
                     /\ len self = Z.to_nat (Z.log2 p))).
Proof.
  split; [apply init_negative|]. intros Hp.
  eexists. split; [apply init_nonneg; exact Hp|]. cbn [polynomial pol_bin].
  split; [reflexivity|].
  assert (0 <= p < 2 ^ Z.of_nat (digit_fuel p)) as Hf
    by (split; [lia|apply lt_digit_fuel]).
  destruct (Z.eqb_spec p 0) as [->|Hne].
  - split; [repeat constructor|]. split; [reflexivity|]. lia.
  - split; [|split].
    + apply Forall_forall. intros c Hc.
      apply list_elem_of_In, in_rev, list_elem_of_In in Hc.
      pose proof (digits_le_range 2 (digit_fuel p) p ltac:(lia)) as Hr.
      rewrite Forall_forall in Hr. specialize (Hr c Hc). lia.
    + rewrite rev_involutive. apply reweigh_digits; [lia|exact Hf].
    + intros _. unfold len. cbn [pol_bin].
      rewrite length_rev, length_digits_le_2 by lia.
      split; [|lia].
      destruct (digits_le_msb 2 (digit_fuel p) p) as (ds & d & Hds & Hd); [lia|lia|].
      rewrite Hds, rev_app_distr. cbn. f_equal. lia.
Qed.

Lemma init_pol_bin_witness :
  exists self,
    init 6159 = Some self
    /\ reweigh 2 (rev (pol_bin self)) = 6159
    /\ len self = 12%nat.
Proof.
  destruct (init_pol_bin 6159) as [_ H].
  destruct (H ltac:(lia)) as (self & Hi & _ & _ & Hv & Hl).
  exists self. split; [exact Hi|]. split; [exact Hv|].
  exact (proj2 (Hl ltac:(lia))).
Defined.

(** *** Values stay in the dtype *)

Lemma width_nonneg (dt : dtype) : 0 <= width dt.
Proof. destruct dt; cbn; lia. Qed.

Lemma in_dtype_bounded (dt : dtype) (x : Z) :
  in_dtype dt x <-> 0 <= x < 2 ^ width dt.
Proof. destruct dt; cbn; [lia|reflexivity]. Qed.

Lemma in_dtype_lxor (dt : dtype) (a b : Z) :
  in_dtype dt a -> in_dtype dt b -> in_dtype dt (Z.lxor a b).
Proof.
  rewrite !in_dtype_bounded. intros Ha Hb.
  pose proof (width_nonneg dt) as Hw.
  assert (0 <= Z.lxor a b) as Hnn by (apply Z.lxor_nonneg; lia).
  apply Z.bounded_iff_bits_nonneg'; [exact Hw|exact Hnn|].
  intros l Hl. rewrite Z.lxor_spec.
  rewrite (proj1 (Z.bounded_iff_bits_nonneg' (width dt) a Hw ltac:(lia)) Ha l Hl).
  rewrite (proj1 (Z.bounded_iff_bits_nonneg' (width dt) b Hw ltac:(lia)) Hb l Hl).
  reflexivity.
Qed.

Lemma in_dtype_land (dt : dtype) (a b : Z) :
  in_dtype dt a -> in_dtype dt (Z.land a b).
Proof.
  rewrite !in_dtype_bounded. intros Ha.
  pose proof (width_nonneg dt) as Hw.
  assert (0 <= Z.land a b) as Hnn by (apply Z.land_nonneg; lia).
  apply Z.bounded_iff_bits_nonneg'; [exact Hw|exact Hnn|].
  intros l Hl. rewrite Z.land_spec.
  rewrite (proj1 (Z.bounded_iff_bits_nonneg' (width dt) a Hw ltac:(lia)) Ha l Hl).
  reflexivity.
Qed.

Lemma in_dtype_astype (dt : dtype) (x : Z) : in_dtype dt (astype dt x).
Proof.
  destruct dt as [|bits]; cbn.
  - destruct (x =? 0); auto.
  - apply Z.mod_pos_bound, Z.pow_pos_nonneg; lia.
Qed.

Lemma xor_window_in_dtype (dt : dtype) (stream : list Z) (i : nat) (rhs : list Z) :
  Forall (in_dtype dt) stream -> Forall (in_dtype dt) rhs ->
  Forall (in_dtype dt) (xor_window stream i rhs).
Proof.
  revert stream rhs. induction i as [|i IH]; intros stream rhs Hs Hr.
  - revert stream Hs. induction Hr as [|m rhs Hm _ IHr]; intros stream Hs.
    + rewrite xor_window_here_nil. exact Hs.
    + destruct Hs as [|x stream Hx Hs]; [rewrite xor_window_nil; constructor|].
      rewrite xor_window_here_cons. constructor; [apply in_dtype_lxor; assumption|].
      apply IHr. exact Hs.
  - destruct Hs as [|x stream Hx Hs]; [rewrite xor_window_nil; constructor|].
    rewrite xor_window_later. constructor; [exact Hx|]. apply IH; assumption.
Qed.

Lemma crc_step_in_dtype (dt : dtype) (pol stream : list Z) (i : nat) :
  Forall (in_dtype dt) pol -> Forall (in_dtype dt) stream ->
  Forall (in_dtype dt) (crc_step pol stream i).
Proof.
  intros Hp Hs. unfold crc_step. apply xor_window_in_dtype; [exact Hs|].
  apply Forall_map. eapply Forall_impl; [exact Hp|]. cbn.
  intros p Hin. apply in_dtype_land. exact Hin.
Qed.

Lemma foldl_crc_step_in_dtype (dt : dtype) (pol : list Z) (l : list nat) (stream : list Z) :
  Forall (in_dtype dt) pol -> Forall (in_dtype dt) stream ->
  Forall (in_dtype dt) (foldl (crc_step pol) stream l).
Proof.
  intros Hp. revert stream. induction l as [|i l IH]; intros stream Hs; cbn [foldl];
    [exact Hs|].
  apply IH, crc_step_in_dtype; assumption.
Qed.

Lemma pol_in_dtype (dt : dtype) (pb : list Z) :
  Forall (in_dtype dt) (map (fun c => astype dt (- c)) pb).
Proof. apply Forall_map, Forall_forall. intros c _. apply in_dtype_astype. Qed.

Lemma crc_in_dtype (dt : dtype) (self : crc) (stream : list Z) :
  Forall (in_dtype dt) stream -> Forall (in_dtype dt) (_crc dt self stream).
Proof.
  intros Hs. unfold _crc.
  assert (Forall (in_dtype dt)
            (foldl (crc_step (map (fun c => astype dt (- c)) (pol_bin self))) stream
               (seq 0 (length stream - len self)))) as Hf
    by (apply foldl_crc_step_in_dtype; [apply pol_in_dtype|exact Hs]).
  destruct (len self); cbn [last_slice]; [exact Hf|]. apply Forall_drop. exact Hf.
Qed.

(** X6.  The remainder has the dtype of the stream, as the docstring of
    [__call__] says: for a stream of values of the dtype every element of
    the result is a value of the dtype; and with a polynomial of degree at
    least one the result has [len(self)] elements, however short the
    stream is. *)
Theorem call_keeps_dtype (dt : dtype) (self : crc) (stream : list Z) :
  Forall (in_dtype dt) stream ->
  Forall (in_dtype dt) (call dt self stream)
  /\ ((1 <= len self)%nat -> length (call dt self stream) = len self).
Proof.
  intros Hs. split; [|apply length_call].
  apply crc_in_dtype, Forall_app. split; [exact Hs|].
  apply Forall_replicate, in_dtype_0.
Qed.

Lemma call_keeps_dtype_witness :
  exists self,
    init 19 = Some self
    /\ Forall (in_dtype (np_uint 8)) (call (np_uint 8) self [1; 2; 3; 255; 7])
    /\ length (call (np_uint 8) self [1; 2; 3; 255; 7]) = 4%nat.
Proof.
  eexists. split; [reflexivity|].
  destruct (call_keeps_dtype (np_uint 8) {| polynomial := 19; pol_bin := [1; 0; 0; 1; 1] |}
              [1; 2; 3; 255; 7]) as [Ht Hl].
  - repeat constructor; cbn; lia.
  - split; [exact Ht|]. apply Hl. cbn. lia.
Defined.

(** *** Linearity *)

(** X7.  The CRC is linear over exclusive or: for two streams of one
    length the remainder of their element-wise XOR is the XOR of their
    remainders; hence the XOR of two streams that pass [check] passes
    [check]. *)
Theorem call_linear (dt : dtype) (self : crc) (a b : list Z) :
  length a = length b ->
  call dt self (zip_with Z.lxor a b)
  = zip_with Z.lxor (call dt self a) (call dt self b)
  /\ (check dt self a = true -> check dt self b = true ->
      check dt self (zip_with Z.lxor a b) = true).
Proof.
  intros Hab. split.
  - unfold call. rewrite <- crc_linear by (rewrite !length_app; lia). f_equal.
    rewrite zip_with_app by exact Hab. f_equal.
    rewrite zip_with_replicate. reflexivity.
  - unfold check. intros Ha Hb. rewrite crc_linear by exact Hab.
    rewrite forallb_forall in Ha, Hb.
    generalize dependent (_crc dt self b). generalize dependent (_crc dt self a).
    intros ra Ha. induction ra as [|x ra IH]; intros [|y rb] Hb; try reflexivity.
    cbn [zip_with forallb].
    rewrite (proj1 (Z.eqb_eq x 0) (Ha x (or_introl eq_refl))).
    rewrite (proj1 (Z.eqb_eq y 0) (Hb y (or_introl eq_refl))).
    cbn. apply IH.
    + intros z Hz. apply Ha. right. exact Hz.
    + intros z Hz. apply Hb. right. exact Hz.
Qed.

Lemma call_linear_witness :
  call (np_uint 8) {| polynomial := 19; pol_bin := [1; 0; 0; 1; 1] |}
    (zip_with Z.lxor [1; 2; 3] [7; 0; 255])
  = zip_with Z.lxor
      (call (np_uint 8) {| polynomial := 19; pol_bin := [1; 0; 0; 1; 1] |} [1; 2; 3])
      (call (np_uint 8) {| polynomial := 19; pol_bin := [1; 0; 0; 1; 1] |} [7; 0; 255]).
Proof.
  apply (call_linear (np_uint 8) {| polynomial := 19; pol_bin := [1; 0; 0; 1; 1] |}
           [1; 2; 3] [7; 0; 255]).
  reflexivity.
Defined.

(** *** Tracks *)

(** X8.  A multi-track stream passes [check] exactly when each of its
    tracks, taken as a single-track stream of booleans, passes [check]. *)
Theorem check_track_by_track (bits : N) (p : Z) (stream : list Z) :
  0 <= p -> Forall (in_dtype (np_uint bits)) stream ->
  exists self,
    init p = Some self
    /\ (check (np_uint bits) self stream = true
        <-> forall t, 0 <= t < Z.of_N bits ->
                      check np_bool self (track t stream) = true).
Proof.
  intros Hp Hs. destruct (init_binary p Hp) as (self & Hinit & Hbits).
  exists self. split; [exact Hinit|].
  pose proof (crc_in_dtype (np_uint bits) self stream Hs) as Ht.
  unfold check. rewrite forallb_forall. split.
  - intros Hz t Hrange. rewrite <- (track_crc bits) by assumption.
    apply forallb_forall. intros b Hb. apply Z.eqb_eq.
    unfold track in Hb. apply in_map_iff in Hb as (x & <- & Hx).
    specialize (Hz x Hx). apply Z.eqb_eq in Hz. subst x.
    rewrite Z.bits_0. reflexivity.
  - intros Htr x Hx. apply Z.eqb_eq. apply Z.bits_inj'. intros t Hnn.
    rewrite Z.bits_0. destruct (Z_lt_le_dec t (Z.of_N bits)) as [Hlt|Hge].
    + specialize (Htr t (conj Hnn Hlt)).
      rewrite <- (track_crc bits) in Htr by (auto; lia).
      rewrite forallb_forall in Htr.
      specialize (Htr (Z.b2z (Z.testbit x t))).
      assert ((Z.b2z (Z.testbit x t) =? 0) = true) as Hb.
      { apply Htr. unfold track. apply in_map_iff. exists x. split; [reflexivity|exact Hx]. }
      destruct (Z.testbit x t); [discriminate Hb|reflexivity].
    + rewrite Forall_forall in Ht. apply list_elem_of_In in Hx. specialize (Ht x Hx).
      cbn in Ht.
      apply (proj1 (Z.bounded_iff_bits_nonneg' (Z.of_N bits) x ltac:(lia) ltac:(lia)));
        [exact Ht|exact Hge].
Qed.

Lemma check_track_by_track_witness :
  exists self,
    init 19 = Some self
    /\ (check (np_uint 2) self [1; 2; 3; 0; 1; 3; 0; 2] = true
        <-> forall t, 0 <= t < 2 ->
                      check np_bool self (track t [1; 2; 3; 0; 1; 3; 0; 2]) = true).
Proof.
  apply (check_track_by_track 2 19 [1; 2; 3; 0; 1; 3; 0; 2]); [lia|].
  repeat constructor; cbn; lia.
Defined.

(** *** One corrupted element *)

Lemma nth_xor_window_before (stream : list Z) (i : nat) (rhs : list Z) (q : nat) :
  (q < i)%nat -> nth q (xor_window stream i rhs) 0 = nth q stream 0.
Proof.
  revert stream q. induction i as [|i IH]; intros stream q Hq; [lia|].
  destruct stream as [|x stream]; [rewrite xor_window_nil; reflexivity|].
  rewrite xor_window_later. destruct q as [|q]; [reflexivity|].
  cbn [nth]. apply IH. lia.
Qed.

Lemma nth_xor_window_after (stream : list Z) (i : nat) (rhs : list Z) (q : nat) :
  (i + length rhs <= q)%nat -> nth q (xor_window stream i rhs) 0 = nth q stream 0.
Proof.
  revert stream q. induction i as [|i IH]; intros stream q Hq.
  - revert stream q Hq. induction rhs as [|m rhs IHr]; intros stream q Hq.
    + rewrite xor_window_here_nil. reflexivity.
    + destruct stream as [|x stream]; [rewrite xor_window_nil; reflexivity|].
      rewrite xor_window_here_cons. cbn [length] in Hq.
      destruct q as [|q]; [lia|]. cbn [nth]. apply IHr. lia.
  - destruct stream as [|x stream]; [rewrite xor_window_nil; reflexivity|].
    rewrite xor_window_later. destruct q as [|q]; [lia|].
    cbn [nth]. apply IH. lia.
Qed.

Lemma nth_xor_window_in (stream : list Z) (i : nat) (rhs : list Z) (k : nat) :
  (k < length rhs)%nat -> (i + k < length stream)%nat ->
  nth (i + k) (xor_window stream i rhs) 0
  = Z.lxor (nth (i + k) stream 0) (nth k rhs 0).
Proof.
  revert stream k. induction i as [|i IH]; intros stream k Hk Hs.
  - cbn [Nat.add] in *. revert stream k Hk Hs.
    induction rhs as [|m rhs IHr]; intros stream k Hk Hs; [cbn in Hk; lia|].
    destruct stream as [|x stream]; [cbn in Hs; lia|].
    rewrite xor_window_here_cons. destruct k as [|k]; [reflexivity|].
    cbn [nth]. apply IHr; cbn in *; lia.
  - destruct stream as [|x stream]; [cbn in Hs; lia|].
    rewrite xor_window_later. cbn [Nat.add nth]. apply IH; cbn in *; lia.
Qed.

Lemma nth_in_dtype (dt : dtype) (stream : list Z) (q : nat) :
  Forall (in_dtype dt) stream -> in_dtype dt (nth q stream 0).
Proof.
  intros Hs. destruct (nth_lookup_or_length stream q 0) as [Hl|Hl].
  - rewrite Forall_forall in Hs. apply (Hs _ (list_elem_of_lookup_2 _ _ _ Hl)).
  - rewrite nth_overflow by exact Hl. apply in_dtype_0.
Qed.

Lemma forallb_zero_nth (l : list Z) (q : nat) :
  nth q l 0 <> 0 -> forallb (fun x => x =? 0) l = false.
Proof.
  intros Hq. destruct (forallb _ l) eqn:E; [|reflexivity]. exfalso. apply Hq.
  rewrite forallb_forall in E.
  destruct (nth_lookup_or_length l q 0) as [Hl|Hl].
  - apply Z.eqb_eq, E, list_elem_of_In, (list_elem_of_lookup_2 _ _ _ Hl).
  - apply nth_overflow. exact Hl.
Qed.

Lemma nth_drop (n q : nat) (l : list Z) : nth q (drop n l) 0 = nth (n + q) l 0.
Proof. rewrite !nth_lookup, lookup_drop. reflexivity. Qed.

Section SingleError.

Variable dt : dtype.
Variable pol : list Z.
Variable d : nat.
Hypothesis degree_pos : (1 <= d)%nat.
Hypothesis pol_length : length pol = S d.
Hypothesis pol_typed : Forall (in_dtype dt) pol.
Hypothesis pol_last : forall x, in_dtype dt x -> Z.land (nth d pol 0) x = x.

Variables (L j : nat) (w : Z).
Hypothesis w_typed : in_dtype dt w.
Hypothesis w_nonzero : w <> 0.
Hypothesis j_in : (j < L)%nat.

(** The error: [w] at position [j], zero elsewhere. *)
Let e : list Z := <[j := w]> (replicate L 0).

Lemma nth_error_stream (q : nat) : nth q e 0 = if decide (q = j) then w else 0.
Proof.
  unfold e. rewrite nth_lookup. destruct (decide (q = j)) as [->|Hne].
  - rewrite list_lookup_insert_eq by (rewrite length_replicate; exact j_in). reflexivity.
  - rewrite list_lookup_insert_ne by congruence.
    destruct (decide (q < L)%nat) as [Hq|Hq].
    + rewrite lookup_replicate_2 by exact Hq. reflexivity.
    + rewrite lookup_ge_None_2 by (rewrite length_replicate; lia). reflexivity.
Qed.

(** After [k] turns of the loop either the stream is still the error,
    which lies ahead, or a non-zero element lies ahead and everything from
    position [k + d] on is zero. *)
Let inv (k : nat) (s : list Z) : Prop :=
  Forall (in_dtype dt) s /\ length s = L
  /\ ((s = e /\ (k <= j)%nat)
      \/ ((exists q, (k <= q)%nat /\ nth q s 0 <> 0)
          /\ forall q, (k + d <= q)%nat -> nth q s 0 = 0)).

Lemma nth_rhs (x : Z) : nth d (map (fun p => Z.land p x) pol) 0 = Z.land (nth d pol 0) x.
Proof.
  rewrite <- (map_nth (fun p => Z.land p x)), Z.land_0_l. reflexivity.
Qed.

Lemma fired (k : nat) (s : list Z) :
  Forall (in_dtype dt) s -> (k + d < length s)%nat ->
  nth k s 0 <> 0 -> nth (k + d) s 0 = 0 ->
  nth (k + d) (crc_step pol s k) 0 <> 0.
Proof.
  intros Hs Hlen Hk Hz. unfold crc_step.
  rewrite nth_xor_window_in by (rewrite ?length_map; lia).
  rewrite nth_rhs, Hz, Z.lxor_0_l, pol_last by (apply nth_in_dtype; exact Hs).
  exact Hk.
Qed.

Lemma inv_step (k : nat) (s : list Z) :
  (k < L - d)%nat -> inv k s -> inv (S k) (crc_step pol s k).
Proof.
  intros Hk (Hs & Hlen & Hcase).
  split; [apply crc_step_in_dtype; assumption|].
  split; [rewrite length_crc_step; exact Hlen|].
  destruct (Z.eq_dec (nth k s 0) 0) as [Hz|Hnz].
  - rewrite crc_step_zero by exact Hz.
    destruct Hcase as [[-> Hj]|[(q & Hq & Hnq) Hzeros]].
    + left. split; [reflexivity|].
      rewrite nth_error_stream in Hz. destruct (decide (k = j)); [contradiction|lia].
    + right. split.
      * exists q. split; [|exact Hnq].
        destruct (decide (q = k)) as [->|]; [contradiction|lia].
      * intros q' Hq'. apply Hzeros. lia.
  - right. split.
    + exists (k + d)%nat. split; [lia|].
      apply fired; [exact Hs|lia|exact Hnz|].
      destruct Hcase as [[-> Hj]|[_ Hzeros]].
      * rewrite nth_error_stream in Hnz |- *.
        destruct (decide (k = j)); [|contradiction].
        destruct (decide ((k + d)%nat = j)); [lia|reflexivity].
      * apply Hzeros. lia.
    + intros q Hq. unfold crc_step.
      rewrite nth_xor_window_after by (rewrite length_map, pol_length; lia).
      destruct Hcase as [[-> Hj]|[_ Hzeros]].
      * rewrite nth_error_stream in Hnz |- *.
        destruct (decide (k = j)); [|contradiction].
        destruct (decide (q = j)); [lia|reflexivity].
      * apply Hzeros. lia.
Qed.

Lemma inv_fold (n k : nat) (s : list Z) :
  (k + n <= L - d)%nat -> inv k s ->
  inv (k + n) (foldl (crc_step pol) s (seq k n)).
Proof.
  revert k s. induction n as [|n IH]; intros k s Hn Hinv.
  - rewrite Nat.add_0_r. exact Hinv.
  - cbn [seq foldl]. replace (k + S n)%nat with (S k + n)%nat by lia.
    apply IH; [lia|]. apply inv_step; [lia|exact Hinv].
Qed.

Lemma inv_start : inv 0 e.
Proof.
  split; [|split].
  - unfold e. apply Forall_insert; [|exact w_typed].
    apply Forall_replicate, in_dtype_0.
  - unfold e. rewrite length_insert, length_replicate. reflexivity.
  - left. split; [reflexivity|lia].
Qed.

(** Dividing the error leaves a non-zero element among the last [d]. *)
Lemma error_remainder :
  forallb (fun x => x =? 0)
    (last_slice d (foldl (crc_step pol) e (seq 0 (L - d)))) = false.
Proof.
  pose proof (inv_fold (L - d) 0 e ltac:(lia) inv_start) as (Hs & Hlen & Hcase).
  cbn [Nat.add] in *. set (s := foldl _ _ _) in *.
  assert (exists q, (L - d <= q)%nat /\ nth q s 0 <> 0) as (q & Hq & Hnq).
  { destruct Hcase as [[-> Hj]|[H _]]; [|exact H].
    exists j. split; [exact Hj|]. rewrite nth_error_stream.
    destruct (decide (j = j)); [exact w_nonzero|congruence]. }
  destruct d as [|d'] eqn:E; [lia|]. cbn [last_slice].
  apply (forallb_zero_nth _ (q - (L - S d'))).
  rewrite nth_drop, Hlen. replace (L - S d' + (q - (L - S d')))%nat with q by lia.
  exact Hnq.
Qed.

End SingleError.

Lemma insert_lxor (stream : list Z) (j : nat) (x w : Z) :
  stream !! j = Some x ->
  <[j := Z.lxor x w]> stream
  = zip_with Z.lxor stream (<[j := w]> (replicate (length stream) 0)).
Proof.
  revert j. induction stream as [|y stream IH]; intros j Hj; [discriminate Hj|].
  destruct j as [|j].
  - injection Hj as ->. cbn. rewrite lxor_zeros_r. reflexivity.
  - cbn. rewrite Z.lxor_0_r. f_equal. apply IH. exact Hj.
Qed.

Lemma lxor_zero_l (z r : list Z) :
  Forall (fun x => x = 0) z -> length z = length r -> zip_with Z.lxor z r = r.
Proof.
  intros Hz. revert r. induction Hz as [|x z -> _ IH]; intros [|y r] Hlen;
    try discriminate Hlen; [reflexivity|].
  cbn. rewrite Z.lxor_0_l, IH by (cbn in Hlen; lia). reflexivity.
Qed.

Lemma length_crc_eq (dt : dtype) (self : crc) (a b : list Z) :
  length a = length b -> length (_crc dt self a) = length (_crc dt self b).
Proof.
  intros Hab. unfold _crc. destruct (len self); cbn [last_slice];
    rewrite ?length_drop, !length_foldl_crc_step; lia.
Qed.

(** An odd polynomial above 1 has degree at least one and constant
    coefficient 1. *)
Lemma init_odd (p : Z) :
  3 <= p -> Z.odd p = true ->
  exists mid,
    init p = Some {| polynomial := p; pol_bin := mid ++ [1] |} /\ mid <> [].
Proof.
  intros Hp Hodd. rewrite init_nonneg by lia.
  destruct (Z.eqb_spec p 0); [lia|].
  rewrite digits_le_step by lia. cbn [rev].
  assert (p mod 2 = 1) as ->.
  { rewrite Zmod_odd, Hodd. reflexivity. }
  eexists. split; [reflexivity|].
  rewrite digits_le_step by (try apply Z.div_str_pos; lia).
  cbn [rev]. intros H. apply app_eq_nil in H as [_ H]. discriminate H.
Qed.

(** X9.  With an odd polynomial above 1, a change of one element of a
    stream that passes [check] (any non-zero pattern XORed into one word,
    one flipped bit in particular) makes [check] fail. *)
Theorem check_detects_single_error (p : Z) (dt : dtype) (stream : list Z)
    (j : nat) (x w : Z) :
  3 <= p -> Z.odd p = true ->
  Forall (in_dtype dt) stream ->
  stream !! j = Some x -> in_dtype dt w -> w <> 0 ->
  exists self,
    init p = Some self
    /\ (check dt self stream = true ->
        check dt self (<[j := Z.lxor x w]> stream) = false).
Proof.
  intros Hp Hodd Hs Hj Hw Hnz.
  destruct (init_odd p Hp Hodd) as (mid & Hinit & Hmid).
  eexists. split; [exact Hinit|]. intros Hcheck.
  set (self := {| polynomial := p; pol_bin := mid ++ [1] |}) in *.
  assert (len self = length mid) as Hlen
    by (unfold len, self; cbn [pol_bin]; rewrite length_app; cbn; lia).
  assert (1 <= length mid)%nat as Hd by (destruct mid; [congruence|cbn; lia]).
  unfold check in *. rewrite (insert_lxor _ _ _ _ Hj).
  rewrite crc_linear by (rewrite length_insert, length_replicate; reflexivity).
  rewrite lxor_zero_l.
  - unfold _crc. rewrite length_insert, length_replicate, Hlen. subst self.
    apply (error_remainder dt); try assumption.
    + cbn [pol_bin]. rewrite length_map, length_app. cbn. lia.
    + apply pol_in_dtype.
    + intros y Hy. cbn [pol_bin]. rewrite map_app. cbn [map].
      rewrite <- (length_map (fun c => astype dt (- c)) mid), nth_middle.
      apply astype_neg1_land. exact Hy.
    + apply lookup_lt_Some in Hj. exact Hj.
  - rewrite forallb_forall in Hcheck. apply Forall_forall. intros y Hy.
    apply Z.eqb_eq, Hcheck, list_elem_of_In, Hy.
  - apply length_crc_eq. rewrite length_insert, length_replicate. reflexivity.
Qed.

Lemma check_detects_single_error_witness :
  exists self,
    init 19 = Some self
    /\ check (np_uint 8) self [1; 2; 3; 255; 7; 1; 253; 250; 4] = true
    /\ check (np_uint 8) self (<[3%nat := Z.lxor 255 16]> [1; 2; 3; 255; 7; 1; 253; 250; 4])
       = false.
Proof.
  destruct (check_detects_single_error 19 (np_uint 8) [1; 2; 3; 255; 7; 1; 253; 250; 4]
              3 255 16) as (self & Hinit & Hdet).
  - lia.
  - reflexivity.
  - repeat constructor; cbn; lia.
  - reflexivity.
  - cbn. lia.
  - lia.
  - exists self. split; [exact Hinit|].
    assert (check (np_uint 8) self [1; 2; 3; 255; 7; 1; 253; 250; 4] = true) as Hok.
    { injection Hinit as <-. reflexivity. }
    split; [exact Hok|exact (Hdet Hok)].
Defined.

End CRC_extra.

(** ** Frame-rate inference: repeated frame numbers, truncated files *)

Module FrameRate_extra.
Import FrameRate.
Local Open Scope Z_scope.

Section Scan.

Variable fromfile : Z -> option (header * Z).

Lemma frames_upto_app (p : Z) (a b : list header) (q : Z) :
  frames_upto fromfile p (a ++ b) q
  <-> exists m, frames_upto fromfile p a m /\ frames_upto fromfile m b q.
Proof.
  revert p. induction a as [|h a IH]; intros p; cbn [app frames_upto].
  - split; [intros H; exists p; auto|intros (m & -> & H); exact H].
  - split.
    + intros (p' & Hr & H). apply IH in H as (m & Ha & Hb). eauto.
    + intros (m & (p' & Hr & Ha) & Hb). exists p'. split; [exact Hr|].
      apply IH. eauto.
Qed.

(** The first loop passes over the headers numbered 0 and goes on with
    the header read after them. *)
Lemma skip_first_zeros (zeros : list header) :
  forall (h : header) (q : Z) (f : nat) (s : fh_state),
    Forall (fun h => frame_nr h = 0) (h :: zeros) ->
    frames_upto fromfile (pos s + payloadsize h) zeros q ->
    skip_first fromfile (S (length zeros + f)) h s
    = (read_header fromfile ≫= skip_first fromfile f)
        {| pos := q; warned := warned s |}.
Proof.
  induction zeros as [|z zeros IH]; intros h q f s Hz Hfr.
  - cbn in Hfr. subst q. cbn [length Nat.add skip_first].
    inversion Hz as [|? ? Hh _]; subst. rewrite Hh. reflexivity.
  - destruct Hfr as (p' & Hr & Hfr).
    inversion Hz as [|? ? Hh Hz']; subst.
    cbn [length Nat.add skip_first]. rewrite Hh. cbn [Z.eqb].
    unfold mbind at 1 2, M_bind, bind, seek_cur, read_header at 1. cbn [pos warned].
    rewrite Hr.
    apply (IH z q f {| pos := p'; warned := warned s |} Hz' Hfr).
Qed.

Lemma count_frames_S (f : nat) (h : header) (m : option Z) :
  count_frames fromfile (S f) h m
  = if 0 <? frame_nr h
    then seek_cur (payloadsize h) ;;
         h' ← read_header fromfile;
         count_frames fromfile f h' (Some (frame_nr h))
    else ret (h, m).
Proof. reflexivity. Qed.

(** The second loop passes over the headers with a positive frame number,
    keeping the frame number of the last one. *)
Lemma count_frames_positives (hs : list header) :
  forall (h : header) (q : Z) (f : nat) (m : option Z) (s : fh_state),
    Forall (fun h => 0 < frame_nr h) (h :: hs) ->
    frames_upto fromfile (pos s + payloadsize h) hs q ->
    count_frames fromfile (S (length hs + f)) h m s
    = (read_header fromfile
       ≫= fun h' => count_frames fromfile f h' (Some (last_frame_nr h hs)))
        {| pos := q; warned := warned s |}.
Proof.
  induction hs as [|h' hs IH]; intros h q f m s Hp Hfr.
  - cbn in Hfr. subst q. cbn [length Nat.add]. rewrite count_frames_S.
    inversion Hp as [|? ? Hh _]; subst.
    destruct (Z.ltb_spec 0 (frame_nr h)); [|lia]. reflexivity.
  - destruct Hfr as (p' & Hr & Hfr).
    inversion Hp as [|? ? Hh Hp']; subst.
    cbn [length Nat.add]. rewrite count_frames_S.
    destruct (Z.ltb_spec 0 (frame_nr h)); [|lia].
    unfold mbind at 1 2, M_bind, bind, seek_cur, read_header at 1. cbn [pos warned].
    rewrite Hr.
    rewrite (IH h' q f (Some (frame_nr h)) {| pos := p'; warned := warned s |} Hp' Hfr).
    cbn [warned]. unfold last_frame_nr. rewrite last_cons.
    destruct (last hs); reflexivity.
Qed.

Lemma skip_first_stops (f : nat) (h : header) (s : fh_state) :
  frame_nr h <> 0 -> skip_first fromfile f h s = Done h s.
Proof.
  intros Hh. destruct f; cbn [skip_first];
    destruct (Z.eqb_spec (frame_nr h) 0); try contradiction; reflexivity.
Qed.

Lemma count_frames_stops (f : nat) (h : header) (m : option Z) (s : fh_state) :
  frame_nr h <= 0 -> count_frames fromfile f h m s = Done (h, m) s.
Proof.
  intros Hh. destruct f; cbn [count_frames];
    destruct (Z.ltb_spec 0 (frame_nr h)); try lia; reflexivity.
Qed.

(** X10.  The scan in general: after the first header, numbered 0, any
    further headers numbered 0 are passed over, then the headers with a
    positive frame number, up to the first header whose frame number is
    not positive.  The result is the frame number of the last header
    before that one, plus one (the last, not the largest); the handle is
    left after the header that ended the scan; the warning is issued
    exactly when the seconds of that header are not those of the first
    header plus one. *)
Theorem get_frame_rate_last_positive (first : header) (zeros : list header)
    (p1 : header) (ps : list header) (stop : header) (q pend : Z)
    (fuel : nat) (s : fh_state) :
  Forall (fun h => frame_nr h = 0) (first :: zeros) ->
  Forall (fun h => 0 < frame_nr h) (p1 :: ps) ->
  frame_nr stop <= 0 ->
  frames_upto fromfile 0 (first :: zeros ++ p1 :: ps) q ->
  fromfile q = Some (stop, pend) ->
  (length zeros < fuel)%nat -> (length ps < fuel)%nat ->
  get_frame_rate fromfile fuel s
  = Done (last_frame_nr p1 ps + 1)
         {| pos := pend;
            warned := if seconds stop =? seconds first + 1 then warned s
                      else warned s ++ [time_warning] |}.
Proof.
  intros Hz Hp Hstop (p0 & Hr0 & Hfr) Hend Hf1 Hf2.
  apply frames_upto_app in Hfr as (m & Hzs & (p1' & Hr1 & Hps)).
  inversion Hz as [|? ? Hfirst _]; subst.
  inversion Hp as [|? ? Hp1 _]; subst.
  unfold get_frame_rate.
  unfold mbind at 1 2, M_bind, bind, seek, read_header at 1. cbn [pos warned].
  rewrite Hr0, Hfirst. cbn [Z.eqb]. unfold mbind at 1, M_bind, bind, ret at 1.
  unfold mbind at 1, M_bind, bind.
  replace fuel with (S (length zeros + (fuel - S (length zeros)))) at 1 by lia.
  rewrite (skip_first_zeros zeros first m _ {| pos := p0; warned := warned s |} Hz Hzs).
  unfold mbind at 1, M_bind, bind, read_header at 1. cbn [pos warned].
  rewrite Hr1, skip_first_stops by lia.
  unfold mbind at 1, M_bind, bind.
  replace fuel with (S (length ps + (fuel - S (length ps)))) at 1 by lia.
  rewrite (count_frames_positives ps p1 q _ None {| pos := p1'; warned := warned s |} Hp Hps).
  unfold mbind at 1, M_bind, bind, read_header at 1. cbn [pos warned].
  rewrite Hend, count_frames_stops by exact Hstop.
  unfold mbind, M_bind, bind.
  destruct (seconds stop =? seconds first + 1); reflexivity.
Qed.

(** X11.  A file that ends before a frame number that is not positive
    follows the positive ones gives no frame rate: the failed read of the
    next header is what the caller gets. *)
Theorem get_frame_rate_truncated (first : header) (zeros positives : list header)
    (q : Z) (fuel : nat) (s : fh_state) :
  Forall (fun h => frame_nr h = 0) (first :: zeros) ->
  Forall (fun h => 0 < frame_nr h) positives ->
  frames_upto fromfile 0 (first :: zeros ++ positives) q ->
  fromfile q = None ->
  (length zeros < fuel)%nat -> (length positives <= fuel)%nat ->
  get_frame_rate fromfile fuel s = Raise ReadError.
Proof.
  intros Hz Hp (p0 & Hr0 & Hfr) Hend Hf1 Hf2.
  apply frames_upto_app in Hfr as (m & Hzs & Hps).
  inversion Hz as [|? ? Hfirst _]; subst.
  unfold get_frame_rate.
  unfold mbind at 1 2, M_bind, bind, seek, read_header at 1. cbn [pos warned].
  rewrite Hr0, Hfirst. cbn [Z.eqb]. unfold mbind at 1, M_bind, bind, ret at 1.
  unfold mbind at 1, M_bind, bind.
  replace fuel with (S (length zeros + (fuel - S (length zeros)))) at 1 by lia.
  rewrite (skip_first_zeros zeros first m _ {| pos := p0; warned := warned s |} Hz Hzs).
  unfold mbind at 1, M_bind, bind, read_header at 1. cbn [pos warned].
  destruct positives as [|p1 ps].
  - cbn in Hps. subst m. rewrite Hend. reflexivity.
  - destruct Hps as (p1' & Hr1 & Hps).
    inversion Hp as [|? ? Hp1 _]; subst.
    rewrite Hr1, skip_first_stops by lia.
    unfold mbind at 1, M_bind, bind.
    replace fuel with (S (length ps + (fuel - S (length ps)))) at 1
      by (cbn [length] in Hf2; lia).
    rewrite (count_frames_positives ps p1 q _ None {| pos := p1'; warned := warned s |} Hp Hps).
    unfold mbind at 1, M_bind, bind, read_header at 1. cbn [pos warned].
    rewrite Hend. reflexivity.
Qed.

(** X12.  The start of the scan: wherever the handle stands, the first
    header is read at position 0; a file without a header there fails in
    the read, and a first header whose frame number is not 0 fails the
    assertion, before anything else is read. *)
Theorem get_frame_rate_start (fuel : nat) (s : fh_state) :
  (fromfile 0 = None -> get_frame_rate fromfile fuel s = Raise ReadError)
  /\ (forall h p, fromfile 0 = Some (h, p) -> frame_nr h <> 0 ->
                  get_frame_rate fromfile fuel s = Raise AssertionError).
Proof.
  split.
  - intros H0. unfold get_frame_rate.
    unfold mbind at 1 2, M_bind, bind, seek, read_header at 1. cbn [pos warned].
    rewrite H0. reflexivity.
  - intros h p H0 Hh. unfold get_frame_rate.
    unfold mbind at 1 2, M_bind, bind, seek, read_header at 1. cbn [pos warned].
    rewrite H0. destruct (Z.eqb_spec (frame_nr h) 0); [contradiction|]. reflexivity.
Qed.

End Scan.

Lemma get_frame_rate_last_positive_witness :
  get_frame_rate (fromfile_of 16 (two_thread_frames 8)) 4 {| pos := 100; warned := [] |}
  = Done 3 {| pos := 304; warned := [] |}.
Proof.
  apply (get_frame_rate_last_positive (fromfile_of 16 (two_thread_frames 8))
           {| frame_nr := 0; seconds := 7; payloadsize := 32 |}
           [ {| frame_nr := 0; seconds := 7; payloadsize := 32 |} ]
           {| frame_nr := 1; seconds := 7; payloadsize := 32 |}
           [ {| frame_nr := 1; seconds := 7; payloadsize := 32 |};
             {| frame_nr := 2; seconds := 7; payloadsize := 32 |};
             {| frame_nr := 2; seconds := 7; payloadsize := 32 |} ]
           {| frame_nr := 0; seconds := 8; payloadsize := 32 |} 288 304 4
           {| pos := 100; warned := [] |}).
  - repeat constructor.
  - repeat constructor.
  - cbn. lia.
  - cbn [app frames_upto payloadsize].
    repeat (eexists; split; [vm_compute; reflexivity|]). reflexivity.
  - reflexivity.
  - cbn. lia.
  - cbn. lia.
Defined.

Lemma get_frame_rate_truncated_witness :
  get_frame_rate (fromfile_of 16 (take 5 (two_thread_frames 8))) 3
    {| pos := 0; warned := [] |}
  = Raise ReadError.
Proof.
  apply (get_frame_rate_truncated (fromfile_of 16 (take 5 (two_thread_frames 8)))
           {| frame_nr := 0; seconds := 7; payloadsize := 32 |}
           [ {| frame_nr := 0; seconds := 7; payloadsize := 32 |} ]
           [ {| frame_nr := 1; seconds := 7; payloadsize := 32 |};
             {| frame_nr := 1; seconds := 7; payloadsize := 32 |};
             {| frame_nr := 2; seconds := 7; payloadsize := 32 |} ]
           240 3 {| pos := 0; warned := [] |}).
  - repeat constructor.
  - repeat constructor.
  - cbn [app frames_upto payloadsize].
    repeat (eexists; split; [vm_compute; reflexivity|]). reflexivity.
  - reflexivity.
  - cbn. lia.
  - cbn. lia.
Defined.

Lemma get_frame_rate_start_witness :
  get_frame_rate (fromfile_of 16 (drop 2 (two_thread_frames 8))) 3
    {| pos := 100; warned := [] |}
  = Raise AssertionError.
Proof.
  eapply (proj2 (get_frame_rate_start (fromfile_of 16 (drop 2 (two_thread_frames 8))) 3
                   {| pos := 100; warned := [] |})).
  - reflexivity.
  - cbn. discriminate.
Defined.

End FrameRate_extra.

(** ** VDIF payloads: shapes, the way back, errors, files *)

Module VDIF_extra.
Import VDIF VDIF_facts.
Local Open Scope Z_scope.

(** *** Bytes *)

Lemma is_byte_bits (b : Z) :
  is_byte b <-> 0 <= b /\ forall l, 8 <= l -> Z.testbit b l = false.
Proof.
  unfold is_byte. split.
  - intros Hb. split; [lia|].
    apply (Z.bounded_iff_bits_nonneg' 8 b); lia.
  - intros [Hnn Hbits].
    apply (Z.bounded_iff_bits_nonneg' 8 b); [lia|lia|exact Hbits].
Qed.

Lemma is_byte_lor (a b : Z) : is_byte a -> is_byte b -> is_byte (Z.lor a b).
Proof.
  rewrite !is_byte_bits. intros [Ha Hab] [Hb Hbb]. split.
  - apply Z.lor_nonneg. lia.
  - intros l Hl. rewrite Z.lor_spec, Hab, Hbb by exact Hl. reflexivity.
Qed.

Lemma is_byte_shl_uint8 (c shift : Z) : is_byte (shl_uint8 c shift).
Proof. unfold is_byte, shl_uint8. apply Z.mod_pos_bound. lia. Qed.

Lemma is_byte_foldl_lor (l : list Z) (acc : Z) :
  is_byte acc -> Forall is_byte l -> is_byte (foldl Z.lor acc l).
Proof.
  intros Ha Hl. revert acc Ha. induction Hl as [|x l Hx _ IH]; intros acc Ha;
    cbn [foldl]; [exact Ha|].
  apply IH, is_byte_lor; assumption.
Qed.

Lemma Forall_is_byte_zip_shl (codes shifts : list Z) :
  Forall is_byte (zip_with shl_uint8 codes shifts).
Proof.
  revert shifts. induction codes as [|c codes IH]; intros [|sh shifts]; cbn;
    constructor; [apply is_byte_shl_uint8|apply IH].
Qed.

(** *** Sizes *)

Lemma reshape4_length {A} (values : list A) (rows : list (list A)) :
  reshape4 values = Some rows ->
  length values = (4 * length rows)%nat /\ Forall (fun row => length row = 4%nat) rows.
Proof.
  revert values rows.
  fix IH 1. intros values rows H.
  destruct values as [|a [|b [|c [|d values]]]]; cbn in H; try discriminate H.
  - injection H as <-. split; [reflexivity|constructor].
  - destruct (reshape4 values) as [rows'|] eqn:E; [|discriminate H].
    injection H as <-. destruct (IH values rows' E) as [Hl Hf].
    split; [cbn [length]; lia|]. constructor; [reflexivity|exact Hf].
Qed.

Lemma reshape4_None {A} (n : nat) (values : list A) :
  (length values < 4 * S n)%nat -> (length values `mod` 4 <> 0)%nat ->
  reshape4 values = None.
Proof.
  revert values. induction n as [|n IH]; intros values Hlt Hmod.
  - destruct values as [|a [|b [|c [|d values]]]]; cbn in *; try reflexivity; lia.
  - destruct values as [|a [|b [|c [|d values]]]]; try reflexivity.
    + cbn in Hmod. lia.
    + cbn [reshape4]. rewrite IH; [reflexivity|cbn in Hlt; lia|].
      intros E. apply Hmod. cbn [length].
      replace (S (S (S (S (length values))))) with (length values + 1 * 4)%nat by lia.
      rewrite Nat.Div0.mod_add. exact E.
Qed.

Lemma encode_2bit_bytes {Level : Type} (encode_2bit_base : Level -> Z)
    (values : list Level) :
  (length values `mod` 4 = 0)%nat ->
  exists bytes,
    encode_2bit encode_2bit_base values = Ok {| itemsize := 1; items := bytes |}
    /\ (4 * length bytes = length values)%nat
    /\ Forall is_byte bytes.
Proof.
  intros Hmod.
  destruct (reshape4_rows (length values / 4) values) as (rows & Hr & _ & _).
  { pose proof (Nat.div_mod_eq (length values) 4). lia. }
  unfold encode_2bit. rewrite Hr. cbn [of_option mbind result_bind].
  eexists. split; [reflexivity|].
  destruct (reshape4_length _ _ Hr) as [Hlen _].
  split; [rewrite length_map; lia|].
  apply Forall_map, Forall_forall. intros row _. cbn.
  apply is_byte_foldl_lor; [unfold is_byte; lia|apply Forall_is_byte_zip_shl].
Qed.

(** X13.  [encode_2bit] with any quantiser: it raises exactly when the
    number of values is not a multiple of 4; otherwise it returns one
    [uint8] item for every four values, each item a byte, whatever codes
    the quantiser returns (the shifted codes wrap at 8 bits). *)
Theorem encode_2bit_shape {Level : Type} (encode_2bit_base : Level -> Z)
    (values : list Level) :
  ((length values `mod` 4 <> 0)%nat ->
   encode_2bit encode_2bit_base values = Err (ValueError "reshape"))
  /\ ((length values `mod` 4 = 0)%nat ->
      exists bytes,
        encode_2bit encode_2bit_base values = Ok {| itemsize := 1; items := bytes |}
        /\ (4 * length bytes = length values)%nat
        /\ Forall is_byte bytes).
Proof.
  split.
  - intros Hmod. unfold encode_2bit.
    rewrite (reshape4_None (length values)); [reflexivity|lia|exact Hmod].
  - apply encode_2bit_bytes.
Qed.

Lemma encode_2bit_shape_witness :
  encode_2bit Sample.encode_2bit_base [-3; 1; 3] = Err (ValueError "reshape")
  /\ exists bytes,
       encode_2bit Sample.encode_2bit_base [-3; 1; 3; -1; 1; 1; -3; 3]
       = Ok {| itemsize := 1; items := bytes |}
       /\ Forall is_byte bytes.
Proof.
  split.
  - apply (proj1 (encode_2bit_shape Sample.encode_2bit_base [-3; 1; 3])).
    cbn. lia.
  - destruct (proj2 (encode_2bit_shape Sample.encode_2bit_base
                       [-3; 1; 3; -1; 1; 1; -3; 3]) eq_refl) as (bytes & H & _ & Hb).
    exists bytes. split; assumption.
Defined.

(** *** Bytes and words *)

Lemma le_bytes_S (n : nat) (w : Z) :
  le_bytes (S n) w = Z.land w 255 :: le_bytes n (Z.shiftr w 8).
Proof.
  unfold le_bytes. cbn [seq map]. f_equal.
  rewrite <- seq_shift, map_map. apply map_ext. intros k.
  rewrite Z.shiftr_shiftr by lia. do 2 f_equal. lia.
Qed.

Lemma le_bytes_le_word (bs : list Z) :
  Forall is_byte bs -> le_bytes (length bs) (le_word bs) = bs.
Proof.
  induction 1 as [|b bs Hb _ IH]; [reflexivity|].
  cbn [length le_word]. rewrite le_bytes_S. unfold is_byte in Hb. f_equal.
  - rewrite Z.land_lor_distr_l. change 255 with (Z.ones 8).
    rewrite !Z.land_ones, Z.shiftl_mul_pow2 by lia.
    rewrite Z.mod_small, Z.mod_mul by lia. apply Z.lor_0_r.
  - rewrite Z.shiftr_lor, Z.shiftr_shiftl_l by lia.
    rewrite Z.shiftr_div_pow2, Z.div_small by lia.
    change (8 - 8) with 0. rewrite Z.shiftl_0_r, Z.lor_0_l. exact IH.
Qed.

Lemma group_bytes_S (fuel n : nat) (bytes : list Z) :
  bytes <> [] ->
  group_bytes (S fuel) n bytes
  = if (length bytes <? n)%nat then None
    else cons (le_word (take n bytes)) <$> group_bytes fuel n (drop n bytes).
Proof. destruct bytes; [congruence|reflexivity]. Qed.

Lemma group_bytes_Some (n k fuel : nat) (bytes : list Z) :
  (0 < n)%nat -> length bytes = (n * k)%nat -> (length bytes <= fuel)%nat ->
  Forall is_byte bytes ->
  exists words,
    group_bytes fuel n bytes = Some words
    /\ length words = k
    /\ words ≫= le_bytes n = bytes.
Proof.
  intros Hn. revert fuel bytes. induction k as [|k IH]; intros fuel bytes Hlen Hfuel Hb.
  - destruct bytes; [|cbn in Hlen; lia]. exists []. destruct fuel; repeat split.
  - assert (bytes <> []) as Hne by (intros ->; cbn in Hlen; lia).
    destruct fuel as [|fuel]; [lia|].
    rewrite group_bytes_S by exact Hne.
    destruct (Nat.ltb_spec (length bytes) n) as [Hlt|_]; [lia|].
    destruct (IH fuel (drop n bytes)) as (words & Hw & Hl & Hv).
    + rewrite length_drop. lia.
    + rewrite length_drop. lia.
    + apply Forall_drop, Hb.
    + exists (le_word (take n bytes) :: words). rewrite Hw.
      split; [reflexivity|]. split; [cbn [length]; lia|].
      cbn [mbind list_bind]. rewrite Hv.
      replace (le_bytes n (le_word (take n bytes))) with (take n bytes);
        [apply take_drop|].
      rewrite <- (le_bytes_le_word (take n bytes)) at 1 by apply Forall_take, Hb.
      rewrite length_take. f_equal. lia.
Qed.

Lemma view_uint8_of_bytes (bytes : list Z) :
  Forall is_byte bytes -> view_uint8 {| itemsize := 1; items := bytes |} = bytes.
Proof.
  unfold view_uint8. cbn [items itemsize].
  induction 1 as [|b bs Hb _ IH]; [reflexivity|].
  cbn [mbind list_bind] in IH |- *. rewrite IH.
  change (le_bytes 1 b) with [Z.land (Z.shiftr b 0) 255]. rewrite Z.shiftr_0_r.
  change 255 with (Z.ones 8). unfold is_byte in Hb.
  rewrite Z.land_ones, Z.mod_small by lia. reflexivity.
Qed.

(** The view as words of [n * k] bytes: [k] words of [n] bytes, whose
    bytes are the ones given. *)
Lemma view_words_bytes (n k : nat) (bytes : list Z) :
  (0 < n)%nat -> length bytes = (n * k)%nat -> Forall is_byte bytes ->
  exists words,
    view_words n {| itemsize := 1; items := bytes |} = Ok words
    /\ itemsize words = n /\ length (items words) = k
    /\ view_uint8 words = bytes.
Proof.
  intros Hn Hlen Hb. unfold view_words. rewrite view_uint8_of_bytes by exact Hb.
  destruct n as [|n]; [lia|].
  destruct (group_bytes_Some (S n) k (length bytes) bytes) as (words & Hw & Hl & Hv);
    [lia|exact Hlen|lia|exact Hb|].
  rewrite Hw. exists {| itemsize := S n; items := words |}.
  repeat split; assumption.
Qed.

Lemma view_uint8_is_byte (words : uarray) : Forall is_byte (view_uint8 words).
Proof.
  unfold view_uint8. apply Forall_bind, Forall_forall. intros w _.
  unfold le_bytes. apply Forall_map, Forall_forall. intros k _. cbn.
  pose proof (land_ones_bound (Z.shiftr w (8 * Z.of_nat k)) 8 ltac:(lia)) as H.
  exact H.
Qed.

Lemma length_view_uint8 (words : uarray) :
  length (view_uint8 words) = (length (items words) * itemsize words)%nat.
Proof.
  unfold view_uint8. induction (items words) as [|w ws IH]; [reflexivity|].
  cbn [mbind list_bind length] in IH |- *.
  rewrite length_app, IH. unfold le_bytes. rewrite length_map, length_seq. lia.
Qed.

(** *** Rows *)

Lemma reshape4_concat {A} (rows : list (list A)) :
  Forall (fun row => length row = 4%nat) rows -> reshape4 (concat rows) = Some rows.
Proof.
  induction 1 as [|row rows Hrow _ IH]; [reflexivity|].
  destruct row as [|a [|b [|c [|d [|e row]]]]]; try discriminate Hrow.
  cbn [concat app reshape4]. rewrite IH. reflexivity.
Qed.

Lemma reshape2_concat {A} (rows : list (list A)) :
  Forall (fun row => length row = 2%nat) rows -> reshape2 (concat rows) = Some rows.
Proof.
  induction 1 as [|row rows Hrow _ IH]; [reflexivity|].
  destruct row as [|a [|b [|c row]]]; try discriminate Hrow.
  cbn [concat app reshape2]. rewrite IH. reflexivity.
Qed.

Lemma reshape2_rows {A B} (f : A -> B) (n : nat) (values : list A) :
  length values = (2 * n)%nat ->
  exists rows,
    reshape2 values = Some rows /\ concat rows = values
    /\ reshape2 (map f values) = Some (map (map f) rows)
    /\ Forall (fun row => exists a b, row = [a; b]) rows.
Proof.
  revert values. induction n as [|n IH]; intros values Hlen.
  - destruct values; [|discriminate Hlen]. exists []. repeat split. constructor.
  - destruct values as [|a [|b values]]; try (cbn in Hlen; lia).
    destruct (IH values) as (rows & Hr & Hc & Hm & Hf); [cbn in Hlen; lia|].
    exists ([a; b] :: rows). cbn [reshape2 map]. rewrite Hr, Hm.
    split; [reflexivity|]. split; [cbn; rewrite Hc; reflexivity|].
    split; [reflexivity|]. constructor; [eauto|exact Hf].
Qed.

Lemma reshape2_None {A} (n : nat) (values : list A) :
  (length values < 2 * S n)%nat -> (length values `mod` 2 <> 0)%nat ->
  reshape2 values = None.
Proof.
  revert values. induction n as [|n IH]; intros values Hlt Hmod.
  - destruct values as [|a [|b values]]; cbn in *; try reflexivity; lia.
  - destruct values as [|a [|b values]]; try reflexivity.
    + cbn in Hmod. lia.
    + cbn [reshape2]. rewrite IH; [reflexivity|cbn in Hlt; lia|].
      intros E. apply Hmod. cbn [length].
      replace (S (S (length values))) with (length values + 1 * 2)%nat by lia.
      rewrite Nat.Div0.mod_add. exact E.
Qed.

(** The byte [encode_2bit] makes of the four groups of a byte, and the
    byte [encode_4bit] makes of its two groups, is the byte itself. *)
Lemma regroup_byte (b : Z) : is_byte b -> regroup2 b = b /\ regroup4 b = b.
Proof.
  intros Hb.
  assert (forallb (fun n => let b := Z.of_nat n in
                            (regroup2 b =? b) && (regroup4 b =? b))
                  (seq 0 256) = true) as H by (vm_compute; reflexivity).
  rewrite forallb_forall in H.
  specialize (H (Z.to_nat b)). unfold is_byte in Hb.
  rewrite Z2Nat.id in H by lia.
  destruct (andb_prop _ _ (H ltac:(apply in_seq; lia))) as [H2 H4].
  split; apply Z.eqb_eq; assumption.
Qed.

(** The two codes packed by [encode_4bit], and the groups of the byte. *)
Lemma pack_two (c0 c1 : nat) :
  (c0 < 16)%nat -> (c1 < 16)%nat ->
  let codes := map Z.of_nat [c0; c1] in
  let r := zip_with shl_uint8 codes shift04 in
  let byte := Z.lor (nth 0 r 0) (nth 1 r 0) in
  byte = pack_codes 4 0 codes
  /\ is_byte byte
  /\ Z.to_nat (group 4 0 (Z.of_nat (Z.to_nat byte))) = c0
  /\ Z.to_nat (group 4 1 (Z.of_nat (Z.to_nat byte))) = c1.
Proof.
  intros H0 H1.
  assert (forallb (fun c0 => forallb (fun c1 =>
            let codes := map Z.of_nat [c0; c1] in
            let r := zip_with shl_uint8 codes shift04 in
            let byte := Z.lor (nth 0 r 0) (nth 1 r 0) in
            (byte =? pack_codes 4 0 codes) && (0 <=? byte) && (byte <? 256)
            && (Z.to_nat (group 4 0 (Z.of_nat (Z.to_nat byte))) =? c0)%nat
            && (Z.to_nat (group 4 1 (Z.of_nat (Z.to_nat byte))) =? c1)%nat)
            (seq 0 16)) (seq 0 16) = true) as H by (vm_compute; reflexivity).
  rewrite forallb_forall in H. specialize (H c0 ltac:(apply in_seq; lia)).
  rewrite forallb_forall in H. specialize (H c1 ltac:(apply in_seq; lia)).
  cbv zeta in H |- *.
  repeat (apply andb_prop in H as [H ?]).
  unfold is_byte. repeat split;
    first [apply Z.eqb_eq|apply Z.leb_le|apply Z.ltb_lt|apply Nat.eqb_eq]; assumption.
Qed.

Lemma group_bound (n i b : Z) :
  0 <= n -> 0 <= group n i b /\ (Z.to_nat (group n i b) < Z.to_nat (2 ^ n))%nat.
Proof.
  intros Hn. unfold group.
  replace (2 ^ n - 1) with (Z.ones n) by (rewrite Z.ones_equiv; lia).
  pose proof (land_ones_bound (Z.shiftr b (n * i)) n Hn). lia.
Qed.

Lemma group_bytes_None (n fuel : nat) (bytes : list Z) :
  (0 < n)%nat -> (length bytes <= fuel)%nat -> (length bytes `mod` n <> 0)%nat ->
  group_bytes fuel n bytes = None.
Proof.
  intros Hn. revert bytes. induction fuel as [|fuel IH]; intros bytes Hfuel Hmod.
  - destruct bytes; [|cbn in Hfuel; lia]. destruct n; cbn in Hmod; lia.
  - assert (bytes <> []) as Hne.
    { intros ->. destruct n; cbn in Hmod; lia. }
    rewrite group_bytes_S by exact Hne.
    destruct (Nat.ltb_spec (length bytes) n) as [|Hge]; [reflexivity|].
    rewrite IH; [reflexivity|rewrite length_drop; destruct bytes; cbn in *; lia|].
    rewrite length_drop. intros E. apply Hmod.
    replace (length bytes) with ((length bytes - n) + 1 * n)%nat by lia.
    rewrite Nat.Div0.mod_add. exact E.
Qed.

(** X14.  [encode_4bit] with any quantiser: it raises exactly when the
    number of values is odd; otherwise it returns one [uint8] item for
    every two values, each item a byte, whatever codes the quantiser
    returns. *)
Theorem encode_4bit_shape {Level : Type} (encode_4bit_base : Level -> Z)
    (values : list Level) :
  ((length values `mod` 2 <> 0)%nat ->
   encode_4bit encode_4bit_base values = Err (ValueError "reshape"))
  /\ ((length values `mod` 2 = 0)%nat ->
      exists bytes,
        encode_4bit encode_4bit_base values = Ok {| itemsize := 1; items := bytes |}
        /\ (2 * length bytes = length values)%nat
        /\ Forall is_byte bytes).
Proof.
  split.
  - intros Hmod. unfold encode_4bit.
    rewrite (reshape2_None (length values)); [reflexivity|rewrite length_map; lia|].
    rewrite length_map. exact Hmod.
  - intros Hmod.
    destruct (reshape2_rows encode_4bit_base (length values / 2) values)
      as (rows & _ & Hc & Hm & Hf).
    { pose proof (Nat.div_mod_eq (length values) 2). lia. }
    unfold encode_4bit. rewrite Hm. cbn [of_option mbind result_bind].
    eexists. split; [reflexivity|]. split.
    + rewrite !length_map, <- Hc. clear Hc Hm.
      induction Hf as [|row rows (a & b & ->) _ IH]; [reflexivity|].
      cbn [concat length app] in IH |- *. lia.
    + apply Forall_map, Forall_map, Forall_forall. intros row Hrow.
      rewrite Forall_forall in Hf. destruct (Hf row Hrow) as (a & b & ->).
      cbn. apply is_byte_lor; apply is_byte_shl_uint8.
Qed.

Lemma encode_4bit_shape_witness :
  encode_4bit Sample.encode_4bit_base [-15; 15; 1] = Err (ValueError "reshape")
  /\ exists bytes,
       encode_4bit Sample.encode_4bit_base [-15; 15; 1; -1]
       = Ok {| itemsize := 1; items := bytes |}
       /\ Forall is_byte bytes.
Proof.
  split.
  - apply (proj1 (encode_4bit_shape Sample.encode_4bit_base [-15; 15; 1])).
    cbn. lia.
  - destruct (proj2 (encode_4bit_shape Sample.encode_4bit_base [-15; 15; 1; -1]) eq_refl)
      as (bytes & H & _ & Hb).
    exists bytes. split; assumption.
Defined.

Section Codecs.

Context {Level : Type}.
Variable decoder_levels : Z -> list Level.
Variable encode_2bit_base : Level -> Z.
Variable encode_4bit_base : Level -> Z.

Hypothesis levels1 : (2 <= length (decoder_levels 1))%nat.
Hypothesis levels2 : (4 <= length (decoder_levels 2))%nat.
Hypothesis levels4 : (16 <= length (decoder_levels 4))%nat.

Lemma tables_built :
  exists lut2bit lut4bit,
    VDIF.lut2bit decoder_levels = Some lut2bit
    /\ VDIF.lut4bit decoder_levels = Some lut4bit
    /\ table_of decoder_levels 2 lut2bit
    /\ table_of decoder_levels 4 lut4bit.
Proof.
  destruct (init_luts_built decoder_levels levels1 levels2 levels4)
    as (t1 & t2 & t4 & Hinit & _ & Hl2 & Hl4).
  exists t2, t4. unfold VDIF.lut2bit, VDIF.lut4bit. rewrite Hinit.
  split; [reflexivity|]. split; [reflexivity|]. split.
  - apply lut_table_of; [right; left; reflexivity|exact levels2|exact Hl2].
  - apply lut_table_of; [right; right; reflexivity|exact levels4|exact Hl4].
Qed.

(** What a decoder returns: for every byte of the words the entry of the
    table. *)
Lemma decode_2bit_rows (words : uarray) :
  exists table rows,
    table_of decoder_levels 2 table
    /\ decode_2bit decoder_levels words = Ok rows
    /\ Forall2 (fun b row => table !! Z.to_nat b = Some row) (view_uint8 words) rows.
Proof.
  destruct tables_built as (t2 & t4 & H2 & _ & Ht2 & _).
  destruct (take_rows_bytes t2 words (proj1 Ht2)) as (rows & Hrows & Hall).
  exists t2, rows. split; [exact Ht2|]. split; [|exact Hall].
  unfold decode_2bit. rewrite H2. cbn [of_option mbind result_bind].
  rewrite Hrows. reflexivity.
Qed.

Lemma decode_4bit_rows (words : uarray) :
  exists table rows,
    table_of decoder_levels 4 table
    /\ decode_4bit decoder_levels words = Ok rows
    /\ Forall2 (fun b row => table !! Z.to_nat b = Some row) (view_uint8 words) rows.
Proof.
  destruct tables_built as (t2 & t4 & _ & H4 & _ & Ht4).
  destruct (take_rows_bytes t4 words (proj1 Ht4)) as (rows & Hrows & Hall).
  exists t4, rows. split; [exact Ht4|]. split; [|exact Hall].
  unfold decode_4bit. rewrite H4. cbn [of_option mbind result_bind].
  rewrite Hrows. reflexivity.
Qed.

(** X15.  With the tables built, [decode_2bit] and [decode_4bit] return,
    for words of any item size, one row for every byte of the words
    (the number of words times their size in bytes), of four levels for
    depth 2 and of two levels for depth 4: neither raises. *)
Theorem decode_shape (words : uarray) :
  (exists rows,
     decode_2bit decoder_levels words = Ok rows
     /\ length rows = (length (items words) * itemsize words)%nat
     /\ Forall (fun row => length row = 4%nat) rows)
  /\ (exists rows,
        decode_4bit decoder_levels words = Ok rows
        /\ length rows = (length (items words) * itemsize words)%nat
        /\ Forall (fun row => length row = 2%nat) rows).
Proof.
  split.
  - destruct (decode_2bit_rows words) as (t & rows & [_ Ht] & Hd & Hall).
    exists rows. split; [exact Hd|].
    split; [rewrite <- (Forall2_length _ _ _ Hall); apply length_view_uint8|].
    apply Forall_forall. intros row Hin.
    apply list_elem_of_lookup in Hin as [i Hi].
    destruct (Forall2_lookup_r _ _ _ _ _ Hall Hi) as (b & _ & Hb).
    exact (proj1 (Ht _ _ Hb)).
  - destruct (decode_4bit_rows words) as (t & rows & [_ Ht] & Hd & Hall).
    exists rows. split; [exact Hd|].
    split; [rewrite <- (Forall2_length _ _ _ Hall); apply length_view_uint8|].
    apply Forall_forall. intros row Hin.
    apply list_elem_of_lookup in Hin as [i Hi].
    destruct (Forall2_lookup_r _ _ _ _ _ Hall Hi) as (b & _ & Hb).
    exact (proj1 (Ht _ _ Hb)).
Qed.

(** One entry of the table of depth 2: its four levels, quantised and
    packed, give the byte of the entry. *)
Lemma row_back2 (table : list (list Level)) (b : Z) (row : list Level) :
  table_of decoder_levels 2 table ->
  quantiser_inverts decoder_levels 2 encode_2bit_base ->
  is_byte b -> table !! Z.to_nat b = Some row ->
  length row = 4%nat
  /\ foldl Z.lor 0 (zip_with shl_uint8 (map encode_2bit_base row) shift2bit) = b.
Proof.
  intros [_ Htab] Hq Hb Hrow. destruct (Htab _ _ Hrow) as [Hl Hi].
  change (Z.to_nat (8 / 2)) with 4%nat in Hl, Hi. split; [exact Hl|].
  unfold is_byte in Hb. rewrite Z2Nat.id in Hi by lia.
  destruct row as [|r0 [|r1 [|r2 [|r3 [|r4 row]]]]]; try discriminate Hl.
  destruct (Hi 0%nat ltac:(lia)) as [_ E0]. destruct (Hi 1%nat ltac:(lia)) as [_ E1].
  destruct (Hi 2%nat ltac:(lia)) as [_ E2]. destruct (Hi 3%nat ltac:(lia)) as [_ E3].
  change (Z.of_nat 0) with 0 in E0. change (Z.of_nat 1) with 1 in E1.
  change (Z.of_nat 2) with 2 in E2. change (Z.of_nat 3) with 3 in E3.
  cbn [lookup list_lookup] in E0, E1, E2, E3.
  symmetry in E0, E1, E2, E3.
  destruct (group_bound 2 0 b ltac:(lia)) as [P0 B0].
  destruct (group_bound 2 1 b ltac:(lia)) as [P1 B1].
  destruct (group_bound 2 2 b ltac:(lia)) as [P2 B2].
  destruct (group_bound 2 3 b ltac:(lia)) as [P3 B3].
  cbn [map].
  rewrite (Hq _ _ B0 E0), (Hq _ _ B1 E1), (Hq _ _ B2 E2), (Hq _ _ B3 E3).
  rewrite !Z2Nat.id by assumption.
  apply (regroup_byte b). exact Hb.
Qed.

Lemma row_back4 (table : list (list Level)) (b : Z) (row : list Level) :
  table_of decoder_levels 4 table ->
  quantiser_inverts decoder_levels 4 encode_4bit_base ->
  is_byte b -> table !! Z.to_nat b = Some row ->
  length row = 2%nat
  /\ (let r := zip_with shl_uint8 (map encode_4bit_base row) shift04 in
      Z.lor (nth 0 r 0) (nth 1 r 0)) = b.
Proof.
  intros [_ Htab] Hq Hb Hrow. destruct (Htab _ _ Hrow) as [Hl Hi].
  change (Z.to_nat (8 / 4)) with 2%nat in Hl, Hi. split; [exact Hl|].
  unfold is_byte in Hb. rewrite Z2Nat.id in Hi by lia.
  destruct row as [|r0 [|r1 [|r2 row]]]; try discriminate Hl.
  destruct (Hi 0%nat ltac:(lia)) as [_ E0]. destruct (Hi 1%nat ltac:(lia)) as [_ E1].
  change (Z.of_nat 0) with 0 in E0. change (Z.of_nat 1) with 1 in E1.
  cbn [lookup list_lookup] in E0, E1.
  symmetry in E0, E1.
  destruct (group_bound 4 0 b ltac:(lia)) as [P0 B0].
  destruct (group_bound 4 1 b ltac:(lia)) as [P1 B1].
  cbn [map].
  rewrite (Hq _ _ B0 E0), (Hq _ _ B1 E1).
  rewrite !Z2Nat.id by assumption.
  apply (regroup_byte b). exact Hb.
Qed.

(** X16.  Decoding and encoding again gives the bytes back.  With the
    tables built and quantisers that send each level of depths 2 and 4 to
    its code, the levels [decode_2bit] returns for any words are encoded by
    [encode_2bit] to the bytes of the words, and likewise for [decode_4bit]
    and [encode_4bit]. *)
Theorem decode_encode_round_trip (words : uarray) :
  quantiser_inverts decoder_levels 2 encode_2bit_base ->
  quantiser_inverts decoder_levels 4 encode_4bit_base ->
  (exists rows,
     decode_2bit decoder_levels words = Ok rows
     /\ encode_2bit encode_2bit_base (concat rows)
        = Ok {| itemsize := 1; items := view_uint8 words |})
  /\ (exists rows,
        decode_4bit decoder_levels words = Ok rows
        /\ encode_4bit encode_4bit_base (concat rows)
           = Ok {| itemsize := 1; items := view_uint8 words |}).
Proof.
  intros Hq2 Hq4. pose proof (view_uint8_is_byte words) as Hbytes. split.
  - destruct (decode_2bit_rows words) as (t & rows & Ht & Hd & Hall).
    exists rows. split; [exact Hd|]. clear Hd.
    assert (Forall2 (fun b row =>
              length row = 4%nat
              /\ foldl Z.lor 0 (zip_with shl_uint8 (map encode_2bit_base row) shift2bit)
                 = b) (view_uint8 words) rows) as Hback.
    { revert Hbytes. induction Hall as [|b row bs rows Hrow _ IH]; intros Hbs;
        [constructor|].
      inversion Hbs as [|? ? Hb Hbs']; subst.
      constructor; [|exact (IH Hbs')]. exact (row_back2 t b row Ht Hq2 Hb Hrow). }
    clear Hall Hbytes.
    unfold encode_2bit. rewrite reshape4_concat.
    + cbn [of_option mbind result_bind]. do 2 f_equal.
      induction Hback as [|b row bs rows [_ Hrow] _ IH]; [reflexivity|].
      cbn [map]. rewrite Hrow, IH. reflexivity.
    + induction Hback as [|b row bs rows [Hl _] _ IH]; constructor; assumption.
  - destruct (decode_4bit_rows words) as (t & rows & Ht & Hd & Hall).
    exists rows. split; [exact Hd|]. clear Hd.
    assert (Forall2 (fun b row =>
              length row = 2%nat
              /\ (let r := zip_with shl_uint8 (map encode_4bit_base row) shift04 in
                  Z.lor (nth 0 r 0) (nth 1 r 0)) = b) (view_uint8 words) rows) as Hback.
    { revert Hbytes. induction Hall as [|b row bs rows Hrow _ IH]; intros Hbs;
        [constructor|].
      inversion Hbs as [|? ? Hb Hbs']; subst.
      constructor; [|exact (IH Hbs')]. exact (row_back4 t b row Ht Hq4 Hb Hrow). }
    clear Hall Hbytes.
    unfold encode_4bit.
    assert (reshape2 (map encode_4bit_base (concat rows))
            = Some (map (map encode_4bit_base) rows)) as ->.
    { rewrite concat_map. apply reshape2_concat.
      apply Forall_map.
      induction Hback as [|b row bs rows [Hl _] _ IH]; constructor;
        [cbn; rewrite length_map; exact Hl|assumption]. }
    cbn [of_option mbind result_bind]. do 2 f_equal.
    induction Hback as [|b row bs rows [_ Hrow] _ IH]; [reflexivity|].
    cbn [map]. cbv zeta in Hrow. rewrite Hrow, IH. reflexivity.
Qed.

(** One pair of levels of depth 4: the byte the encoder makes of it, and
    the entry of the table at that byte. *)
Lemma pair_round_trip (table : list (list Level)) (a b : Level) :
  table_of decoder_levels 4 table ->
  quantiser_inverts decoder_levels 4 encode_4bit_base ->
  representable_at decoder_levels 4 a -> representable_at decoder_levels 4 b ->
  let codes := map encode_4bit_base [a; b] in
  let r := zip_with shl_uint8 codes shift04 in
  let byte := Z.lor (nth 0 r 0) (nth 1 r 0) in
  byte = pack_codes 4 0 codes
  /\ is_byte byte
  /\ table !! Z.to_nat byte = Some [a; b].
Proof.
  intros [Hlen Htab] Hq (c0 & H0 & L0) (c1 & H1 & L1).
  cbn [map]. rewrite (Hq c0 a H0 L0), (Hq c1 b H1 L1).
  change (Z.to_nat (2 ^ 4)) with 16%nat in H0, H1.
  destruct (pack_two c0 c1 H0 H1) as (Hp & Hb & G0 & G1).
  cbn [map] in Hp, Hb, G0, G1. cbv zeta in Hp, Hb, G0, G1 |- *.
  split; [exact Hp|]. split; [exact Hb|].
  set (byte := Z.lor _ _) in *. unfold is_byte in Hb.
  destruct (lookup_lt_is_Some_2 table (Z.to_nat byte)) as [row Hrow]; [lia|].
  rewrite Hrow. f_equal.
  destruct (Htab _ _ Hrow) as [Hl Hi].
  change (Z.to_nat (8 / 4)) with 2%nat in Hl, Hi.
  destruct row as [|r0 [|r1 [|r2 row]]]; try discriminate Hl.
  destruct (Hi 0%nat ltac:(lia)) as [_ E0]. destruct (Hi 1%nat ltac:(lia)) as [_ E1].
  change (Z.of_nat 0) with 0 in E0. change (Z.of_nat 1) with 1 in E1.
  rewrite G0, L0 in E0. rewrite G1, L1 in E1.
  cbn in E0, E1. congruence.
Qed.

(** X17.  The 4-bit codec.  For an even number of levels of depth 4, with
    a quantiser that sends each level to its code: [encode_4bit] makes one
    byte of every two consecutive values, the first code in the low four
    bits and the second in the high four; and [decode_4bit] of these bytes
    returns the same levels, in the same order, two to a byte. *)
Theorem encode_decode_4bit_round_trip (values : list Level) :
  quantiser_inverts decoder_levels 4 encode_4bit_base ->
  Forall (representable_at decoder_levels 4) values ->
  (length values `mod` 2 = 0)%nat ->
  exists rows,
    reshape2 values = Some rows
    /\ concat rows = values
    /\ encode_4bit encode_4bit_base values
       = Ok {| itemsize := 1;
               items := map (fun row => pack_codes 4 0 (map encode_4bit_base row)) rows |}
    /\ decode_4bit decoder_levels
         {| itemsize := 1;
            items := map (fun row => pack_codes 4 0 (map encode_4bit_base row)) rows |}
       = Ok rows.
Proof.
  intros Hq Hrep Hlen.
  destruct (reshape2_rows encode_4bit_base (length values / 2) values)
    as (rows & Hr & Hc & Hm & Hf).
  { pose proof (Nat.div_mod_eq (length values) 2). lia. }
  destruct tables_built as (t2 & t4 & _ & H4 & _ & Ht4).
  assert (Forall (fun row =>
            let r := zip_with shl_uint8 (map encode_4bit_base row) shift04 in
            let byte := Z.lor (nth 0 r 0) (nth 1 r 0) in
            byte = pack_codes 4 0 (map encode_4bit_base row)
            /\ is_byte byte
            /\ t4 !! Z.to_nat byte = Some row) rows) as Hrows.
  { rewrite <- Hc in Hrep. apply Forall_concat in Hrep.
    rewrite Forall_forall in Hrep, Hf |- *. intros row Hrow.
    destruct (Hf row Hrow) as (a & b & ->).
    specialize (Hrep _ Hrow).
    inversion Hrep as [|? ? Ha Hrep1]; subst. inversion Hrep1 as [|? ? Hb _]; subst.
    apply pair_round_trip; assumption. }
  set (bytes := map (fun row => pack_codes 4 0 (map encode_4bit_base row)) rows).
  assert (map (fun b => let b := zip_with shl_uint8 b shift04 in
                        Z.lor (nth 0 b 0) (nth 1 b 0))
              (map (map encode_4bit_base) rows) = bytes) as Hbytes.
  { unfold bytes. rewrite map_map. apply map_ext_Forall.
    eapply Forall_impl; [exact Hrows|]. cbn. tauto. }
  exists rows. split; [exact Hr|]. split; [exact Hc|]. split.
  - unfold encode_4bit. rewrite Hm. cbn [of_option mbind result_bind].
    do 2 f_equal. exact Hbytes.
  - unfold decode_4bit. rewrite H4. cbn [of_option mbind result_bind].
    rewrite view_uint8_of_bytes.
    + unfold take_rows. erewrite mapM_Some_2; [reflexivity|].
      unfold bytes. apply Forall2_fmap_l, Forall_Forall2_diag.
      eapply Forall_impl; [exact Hrows|]. cbn. intros row (-> & _ & H). exact H.
    + unfold bytes. apply Forall_map.
      eapply Forall_impl; [exact Hrows|]. cbn. intros row (<- & H & _). exact H.
Qed.

(** What [encode_2bit] makes of representable levels: bytes, which any
    words with these bytes decode back to the levels. *)
Lemma encode_2bit_rows (values : list Level) :
  quantiser_inverts_levels decoder_levels encode_2bit_base ->
  Forall (representable decoder_levels) values ->
  (length values `mod` 4 = 0)%nat ->
  exists bytes rows,
    encode_2bit encode_2bit_base values = Ok {| itemsize := 1; items := bytes |}
    /\ (4 * length bytes = length values)%nat
    /\ Forall is_byte bytes
    /\ concat rows = values
    /\ forall words, view_uint8 words = bytes ->
                     decode_2bit decoder_levels words = Ok rows.
Proof.
  intros Hq Hrep Hlen.
  destruct (reshape4_rows (length values / 4) values) as (rows & Hr & Hc & Hf).
  { pose proof (Nat.div_mod_eq (length values) 4). lia. }
  destruct tables_built as (t2 & t4 & H2 & _ & Ht2 & _).
  set (byte := fun row =>
         foldl Z.lor 0 (zip_with shl_uint8 (map encode_2bit_base row) shift2bit)).
  assert (Forall (fun row => t2 !! Z.to_nat (byte row) = Some row) rows) as Hrows.
  { rewrite <- Hc in Hrep. apply Forall_concat in Hrep.
    rewrite Forall_forall in Hrep, Hf |- *. intros row Hrow.
    destruct (Hf row Hrow) as (a & b & c & d & ->).
    specialize (Hrep _ Hrow).
    inversion Hrep as [|? ? Ha Hrep1]; subst. inversion Hrep1 as [|? ? Hb Hrep2]; subst.
    inversion Hrep2 as [|? ? Hc' Hrep3]; subst. inversion Hrep3 as [|? ? Hd _]; subst.
    apply (row_round_trip decoder_levels encode_2bit_base t2 a b c d); assumption. }
  exists (map byte rows), rows.
  split; [unfold encode_2bit; rewrite Hr; reflexivity|].
  split; [rewrite length_map; destruct (reshape4_length _ _ Hr); lia|].
  split.
  { apply Forall_map, Forall_forall. intros row _. cbn.
    apply is_byte_foldl_lor; [unfold is_byte; lia|apply Forall_is_byte_zip_shl]. }
  split; [exact Hc|].
  intros words Hw. unfold decode_2bit. rewrite H2. cbn [of_option mbind result_bind].
  rewrite Hw. unfold take_rows. erewrite mapM_Some_2; [reflexivity|].
  apply Forall2_fmap_l, Forall_Forall2_diag. exact Hrows.
Qed.

End Codecs.

Lemma sample_quantiser_inverts_2 :
  quantiser_inverts Sample.decoder_levels 2 Sample.encode_2bit_base.
Proof.
  intros c v Hc Hv.
  do 4 (destruct c as [|c]; [injection Hv as <-; reflexivity|]).
  vm_compute in Hc. lia.
Qed.

Lemma sample_quantiser_inverts_4 :
  quantiser_inverts Sample.decoder_levels 4 Sample.encode_4bit_base.
Proof.
  intros c v Hc Hv.
  do 16 (destruct c as [|c]; [injection Hv as <-; reflexivity|]).
  vm_compute in Hc. lia.
Qed.

Lemma decode_shape_witness :
  exists rows,
    decode_4bit Sample.decoder_levels {| itemsize := 4; items := [228; 27] |} = Ok rows
    /\ length rows = 8%nat
    /\ Forall (fun row => length row = 2%nat) rows.
Proof.
  destruct (decode_shape Sample.decoder_levels) with
    (words := {| itemsize := 4; items := [228; 27] |}) as [_ (rows & H)].
  - vm_compute. lia.
  - vm_compute. lia.
  - vm_compute. lia.
  - exists rows. exact H.
Defined.

Lemma decode_encode_round_trip_witness :
  exists rows,
    decode_2bit Sample.decoder_levels {| itemsize := 4; items := [228; 27] |} = Ok rows
    /\ encode_2bit Sample.encode_2bit_base (concat rows)
       = Ok {| itemsize := 1; items := [228; 0; 0; 0; 27; 0; 0; 0] |}.
Proof.
  destruct (decode_encode_round_trip Sample.decoder_levels Sample.encode_2bit_base
              Sample.encode_4bit_base) with
    (words := {| itemsize := 4; items := [228; 27] |}) as [(rows & H) _].
  - vm_compute. lia.
  - vm_compute. lia.
  - vm_compute. lia.
  - exact sample_quantiser_inverts_2.
  - exact sample_quantiser_inverts_4.
  - exists rows. exact H.
Defined.

Lemma encode_decode_4bit_round_trip_witness :
  exists rows,
    concat rows = [-15; 15; 1; -1]
    /\ decode_4bit Sample.decoder_levels
         {| itemsize := 1;
            items := map (fun row => pack_codes 4 0 (map Sample.encode_4bit_base row)) rows |}
       = Ok rows.
Proof.
  destruct (encode_decode_4bit_round_trip Sample.decoder_levels Sample.encode_4bit_base)
    with (values := [-15; 15; 1; -1]) as (rows & _ & Hc & _ & Hd).
  - vm_compute. lia.
  - vm_compute. lia.
  - vm_compute. lia.
  - exact sample_quantiser_inverts_4.
  - repeat constructor;
      first [ by (exists 0%nat; split; [vm_compute; lia|reflexivity])
            | by (exists 15%nat; split; [vm_compute; lia|reflexivity])
            | by (exists 8%nat; split; [vm_compute; lia|reflexivity])
            | by (exists 7%nat; split; [vm_compute; lia|reflexivity]) ].
  - reflexivity.
  - exists rows. split; assumption.
Defined.

(** *** Payloads from data and from files *)

Section Payload.

Context {Level : Type}.
Variable decoder_levels : Z -> list Level.
Variable encode_2bit_base : Level -> Z.
Variable encode_4bit_base : Level -> Z.
Variable decode_8bit : @decoder Level.
Variable encode_8bit : @encoder Level.
Variable Mark5B_decoders : gmap Z (@decoder Level).
Variable Mark5B_encoders : gmap Z (@encoder Level).
Variable Base : Type.
Variable VLBIPayloadBase_init :
  option Z -> uarray -> Z -> list Z -> bool -> result Base.
Variable word_size : nat.

Local Abbreviation init :=
  (__init__ decoder_levels encode_2bit_base encode_4bit_base decode_8bit encode_8bit
            Mark5B_decoders Mark5B_encoders Base VLBIPayloadBase_init).
Local Abbreviation from_data :=
  (fromdata decoder_levels encode_2bit_base encode_4bit_base decode_8bit encode_8bit
            Mark5B_decoders Mark5B_encoders Base VLBIPayloadBase_init word_size).
Local Abbreviation from_file :=
  (fromfile decoder_levels encode_2bit_base encode_4bit_base decode_8bit encode_8bit
            Mark5B_decoders Mark5B_encoders Base VLBIPayloadBase_init word_size).
Local Abbreviation class_decoders := (_decoders decoder_levels decode_8bit).
Local Abbreviation class_encoders :=
  (_encoders encode_2bit_base encode_4bit_base encode_8bit).

(** X18.  [fromdata] without a header and without [bps], for data of
    representable 2-bit levels that fill [k] words: the base constructor
    gets [k] words of the word size, with [bps = 2] and the number of
    channels of the data, and these words decode, with the decoder of
    depth 2, to the data. *)
Theorem fromdata_words_decode (data : ndarray Level) (n : Z) (k : nat) :
  (2 <= length (decoder_levels 1))%nat ->
  (4 <= length (decoder_levels 2))%nat ->
  (16 <= length (decoder_levels 4))%nat ->
  quantiser_inverts_levels decoder_levels encode_2bit_base ->
  last (shape data) = Some n ->
  Forall (representable decoder_levels) (flat data) ->
  (0 < word_size)%nat ->
  length (flat data) = (4 * (word_size * k))%nat ->
  exists words,
    from_data data None None None
    = (b ← VLBIPayloadBase_init None words 2 [n] (kind_c data);
       Ok {| base := b; nchan := n; _size := None;
             decoders := class_decoders; encoders := class_encoders |})
    /\ itemsize words = word_size
    /\ length (items words) = k
    /\ exists rows,
         decode_2bit decoder_levels words = Ok rows /\ concat rows = flat data.
Proof.
  intros H1 H2 H4 Hq Hn Hrep Hws Hlen.
  destruct (encode_2bit_rows decoder_levels encode_2bit_base H1 H2 H4 (flat data) Hq Hrep)
    as (bytes & rows & Henc & Hlb & Hb & Hc & Hdec).
  { rewrite Hlen, Nat.mul_comm. apply Nat.Div0.mod_mul. }
  destruct (view_words_bytes word_size k bytes Hws ltac:(lia) Hb)
    as (words & Hw & Hi & Hl & Hv).
  exists words. split; [|split; [exact Hi|split; [exact Hl|]]].
  - unfold fromdata. rewrite Hn. cbn [of_option mbind result_bind default].
    rewrite bool_decide_eq_false_2 by discriminate. cbv [id].
    change (_encoders encode_2bit_base encode_4bit_base encode_8bit !! 2)
      with (Some (encode_2bit encode_2bit_base)).
    cbn [of_option mbind result_bind]. rewrite Henc. cbn [mbind result_bind].
    rewrite Hw. cbn [mbind result_bind]. reflexivity.
  - exists rows. split; [apply Hdec, Hv|exact Hc].
Qed.

(** X19.  [fromdata] for a bit depth without an encoder: with any depth
    other than 2, 4 and 8 (depth 1 among them) and no Mark5B tag, nothing
    is encoded, whatever the data.  For a 0-dimensional array
    [data.shape[-1]] raises [IndexError]; for any other array the registry
    raises [KeyError] for the depth.  The same holds with a header of that
    depth and tag that agrees with the data, whatever [bps] and [edv] are
    passed. *)
Theorem fromdata_unregistered_depth (data : ndarray Level) (bps : Z)
    (edv : option Z) :
  edv <> Some 171 -> bps <> 2 -> bps <> 4 -> bps <> 8 ->
  let raised := match last (shape data) with
                | Some _ => KeyError bps
                | None => IndexError
                end in
  from_data data None (Some bps) edv = Err raised
  /\ forall header bps' edv',
       (forall n, last (shape data) = Some n -> h_nchan header = n) ->
       h_complex_data header = kind_c data ->
       h_bps header = bps -> h_edv header = edv ->
       from_data data (Some header) bps' edv' = Err raised.
Proof.
  intros Hedv N2 N4 N8.
  assert (class_encoders !! bps = None) as Hnone.
  { unfold _encoders. rewrite !lookup_insert_ne by congruence. apply lookup_empty. }
  cbv zeta. unfold fromdata.
  destruct (last (shape data)) as [n|]; cbn [of_option mbind result_bind];
    [|split; [reflexivity|intros; reflexivity]].
  split.
  - cbn [default]. cbv [id].
    rewrite bool_decide_eq_false_2 by exact Hedv.
    unfold encoder in Hnone |- *. rewrite Hnone. reflexivity.
  - intros header bps' edv' Hc Hk Hb He.
    rewrite (Hc n eq_refl), Z.eqb_refl, Hk, eqb_reflx. cbn [negb mbind result_bind].
    rewrite Hb, He, bool_decide_eq_false_2 by exact Hedv.
    unfold encoder in Hnone |- *. rewrite Hnone. reflexivity.
Qed.

(** X20.  [fromdata] with a header checks the data against it before
    anything is encoded: a header for another number of channels raises
    [ValueError]; with the channels right, a header for complex data with
    real data, or the reverse, raises [ValueError]; and the [bps] and [edv]
    arguments are not looked at. *)
Theorem fromdata_header_checks (data : ndarray Level) (header : header) (n : Z)
    (bps edv : option Z) :
  last (shape data) = Some n ->
  (h_nchan header <> n ->
   from_data data (Some header) bps edv = Err (ValueError "channels"))
  /\ (h_nchan header = n -> h_complex_data header <> kind_c data ->
      from_data data (Some header) bps edv = Err (ValueError "complex or real"))
  /\ from_data data (Some header) bps edv = from_data data (Some header) None None.
Proof.
  intros Hn. unfold fromdata. rewrite Hn. cbn [of_option mbind result_bind].
  split; [|split].
  - intros Hne. apply Z.eqb_neq in Hne. rewrite Hne. reflexivity.
  - intros -> Hne. rewrite Z.eqb_refl. cbn [negb].
    destruct (h_complex_data header), (kind_c data); try congruence; reflexivity.
  - destruct (negb (h_nchan header =? n)); [reflexivity|].
    destruct (negb (eqb (h_complex_data header) (kind_c data))); reflexivity.
Qed.

(** X21.  [fromdata] for data that does not fill whole words: without
    a header and without [bps], when the number of values is a multiple of
    four but the bytes they make are not a multiple of the word size, the
    view as words raises [ValueError], whatever the quantiser. *)
Theorem fromdata_partial_word (data : ndarray Level) (n : Z) :
  last (shape data) = Some n ->
  (length (flat data) `mod` 4 = 0)%nat ->
  ((length (flat data) / 4) `mod` word_size <> 0)%nat ->
  from_data data None None None = Err (ValueError "view").
Proof.
  intros Hn H4 Hws.
  destruct (encode_2bit_bytes encode_2bit_base (flat data) H4)
    as (bytes & Henc & Hl & Hb).
  unfold fromdata. rewrite Hn. cbn [of_option mbind result_bind default].
  rewrite bool_decide_eq_false_2 by discriminate. cbv [id].
  change (_encoders encode_2bit_base encode_4bit_base encode_8bit !! 2)
    with (Some (encode_2bit encode_2bit_base)).
  cbn [of_option mbind result_bind]. rewrite Henc. cbn [mbind result_bind].
  unfold view_words. rewrite view_uint8_of_bytes by exact Hb.
  destruct word_size as [|w]; [reflexivity|].
  rewrite group_bytes_None; [reflexivity|lia|lia|].
  replace (length bytes) with (length (flat data) / 4)%nat; [exact Hws|].
  rewrite <- Hl, Nat.mul_comm. apply Nat.div_mul. lia.
Qed.

(** X22.  [fromfile] for a payload of [k >= 1] words.  With fewer bytes
    left in the file than the payload size it raises [EOFError], the
    handle at the end of the file.  Otherwise it advances the handle by
    the payload size and calls the constructor with the header and [k]
    words of the word size, whose bytes are the bytes read. *)
Theorem fromfile_reads_payload (fh : file) (header : header) (k : nat) :
  Forall is_byte (content fh) ->
  (position fh <= length (content fh))%nat ->
  (0 < word_size)%nat -> (0 < k)%nat ->
  h_payloadsize header = Z.of_nat (word_size * k) ->
  ((length (content fh) - position fh < word_size * k)%nat ->
   from_file fh header
   = (EOFError, {| content := content fh; position := length (content fh) |}))
  /\ ((word_size * k <= length (content fh) - position fh)%nat ->
      exists words,
        from_file fh header
        = (match init words (Some header) None None None with
           | Ok p => Read p
           | Err e => Raised e
           end,
           {| content := content fh; position := position fh + word_size * k |})
        /\ itemsize words = word_size
        /\ length (items words) = k
        /\ view_uint8 words
           = take (word_size * k) (drop (position fh) (content fh))).
Proof.
  intros Hb Hpos Hws Hk Hsize. unfold fromfile, read. rewrite Hsize.
  destruct (Z.ltb_spec (Z.of_nat (word_size * k)) 0) as [Hneg|_]; [lia|].
  rewrite Nat2Z.id.
  set (s := take (word_size * k) (drop (position fh) (content fh))).
  assert (length s = Nat.min (word_size * k) (length (content fh) - position fh))
    as Hls by (unfold s; rewrite length_take, length_drop; reflexivity).
  split.
  - intros Hlt.
    destruct (Z.ltb_spec (Z.of_nat (length s)) (Z.of_nat (word_size * k))) as [_|Hge];
      [|lia].
    do 2 f_equal. lia.
  - intros Hle.
    destruct (Z.ltb_spec (Z.of_nat (length s)) (Z.of_nat (word_size * k))) as [Hlt|_];
      [lia|].
    destruct (view_words_bytes word_size k s Hws ltac:(lia)) as (words & Hw & Hi & Hl & Hv).
    { unfold s. apply Forall_take, Forall_drop, Hb. }
    exists words. rewrite Hw. cbn [mbind result_bind].
    split; [|split; [exact Hi|split; [exact Hl|exact Hv]]].
    destruct (init words (Some header) None None None); do 2 f_equal; lia.
Qed.

End Payload.

Lemma fromdata_words_decode_witness :
  exists words rows,
    fromdata Sample.decoder_levels Sample.encode_2bit_base Sample.encode_4bit_base
      Sample.decode_8bit Sample.encode_8bit Sample.Mark5B_decoders Sample.Mark5B_encoders
      Sample.base Sample.VLBIPayloadBase_init Sample.word_size
      Sample.complex_samples None None None
    = (b ← Sample.VLBIPayloadBase_init None words 2 [1] true;
       Ok {| base := b; nchan := 1; _size := None;
             decoders := _decoders Sample.decoder_levels Sample.decode_8bit;
             encoders := _encoders Sample.encode_2bit_base Sample.encode_4bit_base
                           Sample.encode_8bit |})
    /\ length (items words) = 1%nat
    /\ decode_2bit Sample.decoder_levels words = Ok rows
    /\ concat rows = flat Sample.complex_samples.
Proof.
  destruct (fromdata_words_decode Sample.decoder_levels Sample.encode_2bit_base
              Sample.encode_4bit_base Sample.decode_8bit Sample.encode_8bit
              Sample.Mark5B_decoders Sample.Mark5B_encoders Sample.base
              Sample.VLBIPayloadBase_init Sample.word_size Sample.complex_samples 1 1)
    as (words & Hf & _ & Hl & rows & Hd & Hc).
  - vm_compute. lia.
  - vm_compute. lia.
  - vm_compute. lia.
  - exact sample_quantiser_inverts_levels.
  - reflexivity.
  - repeat constructor;
      first [ by (exists 0%nat; split; [lia|reflexivity])
            | by (exists 1%nat; split; [lia|reflexivity])
            | by (exists 2%nat; split; [lia|reflexivity])
            | by (exists 3%nat; split; [lia|reflexivity]) ].
  - vm_compute. lia.
  - reflexivity.
  - exists words, rows. repeat split; assumption.
Defined.

Lemma fromdata_unregistered_depth_witness :
  fromdata Sample.decoder_levels Sample.encode_2bit_base Sample.encode_4bit_base
    Sample.decode_8bit Sample.encode_8bit Sample.Mark5B_decoders Sample.Mark5B_encoders
    Sample.base Sample.VLBIPayloadBase_init Sample.word_size
    Sample.complex_samples None (Some 1) None
  = Err (KeyError 1)
  /\ fromdata Sample.decoder_levels Sample.encode_2bit_base Sample.encode_4bit_base
       Sample.decode_8bit Sample.encode_8bit Sample.Mark5B_decoders Sample.Mark5B_encoders
       Sample.base Sample.VLBIPayloadBase_init Sample.word_size
       {| shape := []; kind_c := false; flat := [1] |} None (Some 1) None
     = Err IndexError.
Proof.
  split.
  - apply (fromdata_unregistered_depth Sample.decoder_levels Sample.encode_2bit_base
             Sample.encode_4bit_base Sample.decode_8bit Sample.encode_8bit
             Sample.Mark5B_decoders Sample.Mark5B_encoders Sample.base
             Sample.VLBIPayloadBase_init Sample.word_size Sample.complex_samples 1 None);
      [discriminate|lia|lia|lia].
  - apply (fromdata_unregistered_depth Sample.decoder_levels Sample.encode_2bit_base
             Sample.encode_4bit_base Sample.decode_8bit Sample.encode_8bit
             Sample.Mark5B_decoders Sample.Mark5B_encoders Sample.base
             Sample.VLBIPayloadBase_init Sample.word_size
             {| shape := []; kind_c := false; flat := [1] |} 1 None);
      [discriminate|lia|lia|lia].
Defined.

Lemma fromdata_header_checks_witness :
  fromdata Sample.decoder_levels Sample.encode_2bit_base Sample.encode_4bit_base
    Sample.decode_8bit Sample.encode_8bit Sample.Mark5B_decoders Sample.Mark5B_encoders
    Sample.base Sample.VLBIPayloadBase_init Sample.word_size
    Sample.complex_samples
    (Some {| h_nchan := 2; h_bps := 2; h_complex_data := true; h_payloadsize := 4;
             h_edv := None |}) None None
  = Err (ValueError "channels")
  /\ fromdata Sample.decoder_levels Sample.encode_2bit_base Sample.encode_4bit_base
       Sample.decode_8bit Sample.encode_8bit Sample.Mark5B_decoders Sample.Mark5B_encoders
       Sample.base Sample.VLBIPayloadBase_init Sample.word_size
       Sample.complex_samples
       (Some {| h_nchan := 1; h_bps := 2; h_complex_data := false; h_payloadsize := 4;
                h_edv := None |}) None None
     = Err (ValueError "complex or real").
Proof.
  split.
  - apply (fromdata_header_checks Sample.decoder_levels Sample.encode_2bit_base
             Sample.encode_4bit_base Sample.decode_8bit Sample.encode_8bit
             Sample.Mark5B_decoders Sample.Mark5B_encoders Sample.base
             Sample.VLBIPayloadBase_init Sample.word_size Sample.complex_samples _ 1);
      [reflexivity|cbn; lia].
  - apply (fromdata_header_checks Sample.decoder_levels Sample.encode_2bit_base
             Sample.encode_4bit_base Sample.decode_8bit Sample.encode_8bit
             Sample.Mark5B_decoders Sample.Mark5B_encoders Sample.base
             Sample.VLBIPayloadBase_init Sample.word_size Sample.complex_samples _ 1);
      [reflexivity|reflexivity|discriminate].
Defined.

Lemma fromfile_reads_payload_witness :
  let header := {| h_nchan := 1; h_bps := 2; h_complex_data := false;
                   h_payloadsize := 4; h_edv := None |} in
  let bytes := [228; 0; 0; 0; 27; 0] in
  fromfile Sample.decoder_levels Sample.encode_2bit_base Sample.encode_4bit_base
    Sample.decode_8bit Sample.encode_8bit Sample.Mark5B_decoders Sample.Mark5B_encoders
    Sample.base Sample.VLBIPayloadBase_init Sample.word_size
    {| content := bytes; position := 4 |} header
  = (EOFError, {| content := bytes; position := 6 |})
  /\ exists words,
       fromfile Sample.decoder_levels Sample.encode_2bit_base Sample.encode_4bit_base
         Sample.decode_8bit Sample.encode_8bit Sample.Mark5B_decoders
         Sample.Mark5B_encoders Sample.base Sample.VLBIPayloadBase_init Sample.word_size
         {| content := bytes; position := 0 |} header
       = (match
            __init__ Sample.decoder_levels Sample.encode_2bit_base
              Sample.encode_4bit_base Sample.decode_8bit Sample.encode_8bit
              Sample.Mark5B_decoders Sample.Mark5B_encoders Sample.base
              Sample.VLBIPayloadBase_init words (Some header) None None None
          with
          | Ok p => Read p
          | Err e => Raised e
          end, {| content := bytes; position := 4 |})
       /\ view_uint8 words = [228; 0; 0; 0].
Proof.
  intros header bytes.
  assert (Forall is_byte bytes) as Hb
    by (repeat (constructor; [unfold is_byte; lia|]); constructor).
  split.
  - apply (fromfile_reads_payload Sample.decoder_levels Sample.encode_2bit_base
             Sample.encode_4bit_base Sample.decode_8bit Sample.encode_8bit
             Sample.Mark5B_decoders Sample.Mark5B_encoders Sample.base
             Sample.VLBIPayloadBase_init Sample.word_size
             {| content := bytes; position := 4 |} header 1);
      [exact Hb|vm_compute; lia|vm_compute; lia|lia|reflexivity|vm_compute; lia].
  - destruct (fromfile_reads_payload Sample.decoder_levels Sample.encode_2bit_base
                Sample.encode_4bit_base Sample.decode_8bit Sample.encode_8bit
                Sample.Mark5B_decoders Sample.Mark5B_encoders Sample.base
                Sample.VLBIPayloadBase_init Sample.word_size
                {| content := bytes; position := 0 |} header 1)
      as [_ H]; [exact Hb|vm_compute; lia|vm_compute; lia|lia|reflexivity|].
    destruct H as (words & Hf & _ & _ & Hv); [vm_compute; lia|].
    exists words. split; [exact Hf|exact Hv].
Defined.

Lemma fromdata_partial_word_witness :
  fromdata Sample.decoder_levels Sample.encode_2bit_base Sample.encode_4bit_base
    Sample.decode_8bit Sample.encode_8bit Sample.Mark5B_decoders Sample.Mark5B_encoders
    Sample.base Sample.VLBIPayloadBase_init Sample.word_size
    {| shape := [8; 1]; kind_c := false; flat := [-3; 1; 3; -1; 1; 1; -3; 3] |}
    None None None
  = Err (ValueError "view").
Proof.
  apply (fromdata_partial_word Sample.decoder_levels Sample.encode_2bit_base
           Sample.encode_4bit_base Sample.decode_8bit Sample.encode_8bit
           Sample.Mark5B_decoders Sample.Mark5B_encoders Sample.base
           Sample.VLBIPayloadBase_init Sample.word_size
           {| shape := [8; 1]; kind_c := false; flat := [-3; 1; 3; -1; 1; 1; -3; 3] |} 1).
  - reflexivity.
  - reflexivity.
  - vm_compute. lia.
Defined.

End VDIF_extra.
